(** * NeurodoneAI: the hybrid task-parsing engine of [neurodone-ai.js]

    A shallow embedding of the decision-and-learning engine (class
    [NeurodoneAI]) and of the request validation of the [/api/parse-task]
    handler, with the properties stated for them.

    Modelling conventions.
    - A JavaScript string is a [string] of 8-bit code units.  The model
      covers 7-bit ASCII text and the no-break space: any other code unit
      of 128 or more has no case and is neither a word character nor
      white space.
    - A JavaScript regular expression is a value of [regex], transcribed
      from the literal, and is run by a backtracking matcher with the
      priorities of ECMAScript (leftmost position, alternatives in order,
      greedy and lazy quantifiers).
    - A JavaScript number that holds an integer is a [Z], and the
      increment of a stored counter is the increment of a double, which
      is exact below 2^53.  A confidence or a duration is a rational [Q],
      the value of the number; the sums of the confidence estimate are
      rounded as the doubles of the code are, and the one quotient, the
      similarity of two keys, is kept exact.
    - A [Date] is its time value in milliseconds, or invalid; the host
      time zone is taken to be UTC.
    - [Math.random] and the clock are read from an environment, the
      remote model is an oracle, and every object field the engine owns is
      a field of an explicit [State] that is passed in and out. *)

From Stdlib Require Import Bool Arith ZArith QArith Lia List Ascii String.
From Stdlib Require Import Permutation Sorted.
Import ListNotations.

Local Open Scope string_scope.
Local Open Scope bool_scope.

(** ** Characters and the string methods the engine uses *)

Module Js.

Definition code (c : ascii) : nat := nat_of_ascii c.

Definition between (lo hi : nat) (c : ascii) : bool :=
  (lo <=? code c)%nat && (code c <=? hi)%nat.

Definition isUpper : ascii -> bool := between 65 90.
Definition isLower : ascii -> bool := between 97 122.
Definition isDigit : ascii -> bool := between 48 57.

(** [\w] is [[A-Za-z0-9_]]. *)
Definition isWord (c : ascii) : bool :=
  isUpper c || isLower c || isDigit c || (code c =? 95)%nat.

(** [\s], and the characters [trim] strips: tab, line feed, vertical tab,
    form feed, carriage return, space and no-break space (the other
    white-space characters of ECMAScript have code units above 255). *)
Definition isSpace (c : ascii) : bool :=
  between 9 13 c || (code c =? 32)%nat || (code c =? 160)%nat.

(** [.] matches everything but a line terminator. *)
Definition isDot (c : ascii) : bool :=
  negb ((code c =? 10)%nat || (code c =? 13)%nat).

Definition lowerChar (c : ascii) : ascii :=
  if isUpper c then ascii_of_nat (code c + 32) else c.

Definition upperChar (c : ascii) : ascii :=
  if isLower c then ascii_of_nat (code c - 32) else c.

Fixpoint mapStr (f : ascii -> ascii) (s : string) : string :=
  match s with
  | EmptyString => EmptyString
  | String c s' => String (f c) (mapStr f s')
  end.

Definition toLowerCase : string -> string := mapStr lowerChar.
Definition toUpperCase : string -> string := mapStr upperChar.

Fixpoint trimStart (s : string) : string :=
  match s with
  | String c s' => if isSpace c then trimStart s' else s
  | EmptyString => EmptyString
  end.

Fixpoint allSpace (s : string) : bool :=
  match s with
  | EmptyString => true
  | String c s' => isSpace c && allSpace s'
  end.

Fixpoint trimEnd (s : string) : string :=
  match s with
  | EmptyString => EmptyString
  | String c s' => if allSpace s then EmptyString else String c (trimEnd s')
  end.

Definition trim (s : string) : string := trimEnd (trimStart s).

(** [s.startsWith(p)], as a prefix test. *)
Fixpoint startsWith (p s : string) : bool :=
  match p, s with
  | EmptyString, _ => true
  | String a p', String b s' => Ascii.eqb a b && startsWith p' s'
  | String _ _, EmptyString => false
  end.

(** [s.indexOf(p)]: [None] stands for -1. *)
Fixpoint indexOf (p s : string) : option nat :=
  if startsWith p s then Some O
  else match s with
       | EmptyString => None
       | String _ s' => option_map S (indexOf p s')
       end.

Definition includes (p s : string) : bool :=
  match indexOf p s with Some _ => true | None => false end.

Fixpoint skipStr (n : nat) (s : string) : string :=
  match n, s with
  | O, _ => s
  | S n', String _ s' => skipStr n' s'
  | S _, EmptyString => EmptyString
  end.

Fixpoint takeStr (n : nat) (s : string) : string :=
  match n, s with
  | S n', String c s' => String c (takeStr n' s')
  | _, _ => EmptyString
  end.

(** [s.substring(i, j)] for [0 <= i <= j]. *)
Definition substring (i j : nat) (s : string) : string :=
  takeStr (j - i) (skipStr i s).

(** [s.charAt(0).toUpperCase() + s.slice(1)]. *)
Definition capitalize (s : string) : string :=
  match s with
  | EmptyString => EmptyString
  | String c s' => String (upperChar c) s'
  end.

(** [s.split(' ')]: the pieces between single spaces; never empty. *)
Fixpoint splitSpace (s : string) : list string :=
  match s with
  | EmptyString => [EmptyString]
  | String c s' =>
      if Ascii.eqb c " "%char then EmptyString :: splitSpace s'
      else match splitSpace s' with
           | w :: ws => String c w :: ws
           | [] => [String c EmptyString]
           end
  end.

(** [s.split(/\s+/)]: the pieces between runs of white space. *)
Fixpoint splitWsFrom (inSep : bool) (s : string) : list string :=
  match s with
  | EmptyString => [EmptyString]
  | String c s' =>
      if isSpace c then
        if inSep then splitWsFrom true s'
        else EmptyString :: splitWsFrom true s'
      else match splitWsFrom false s' with
           | w :: ws => String c w :: ws
           | [] => [String c EmptyString]
           end
  end.

Definition splitWs : string -> list string := splitWsFrom false.

(** [xs.includes(w)] on an array of strings. *)
Definition arrIncludes (w : string) (xs : list string) : bool :=
  existsb (String.eqb w) xs.

(** [parseInt] of a non-empty run of decimal digits. *)
Fixpoint parseDigits (acc : Z) (s : string) : Z :=
  match s with
  | EmptyString => acc
  | String c s' => parseDigits (10 * acc + Z.of_nat (code c - 48)) s'
  end.

Definition parseInt (s : string) : Z := parseDigits 0 s.

End Js.

(** ** Numbers

    A JavaScript number is a double.  One that holds an integer is a [Z],
    and [x++] is the sum rounded to the nearest double; a confidence is a
    [Q], the value of its double, and a sum or a difference of two is
    rounded likewise.  (The roundings below are those of finite results,
    which are all the engine computes.) *)

Module Double.

Local Open Scope Z_scope.

(** The integer nearest to [n / d], for [d > 0]; of two that are equally
    near, the even one. *)
Definition nearestEven (n d : Z) : Z :=
  let q := n / d in
  let r := n mod d in
  if 2 * r <? d then q
  else if d <? 2 * r then q + 1
  else if Z.even q then q else q + 1.

(** The double nearest to the integer [x]: [x] itself when 53 bits hold
    it, and else the nearest multiple of the power of two that leaves 53
    significant bits. *)
Definition roundInt (x : Z) : Z :=
  let e := Z.log2 (Z.abs x) - 52 in
  if e <=? 0 then x
  else Z.sgn x * (nearestEven (Z.abs x) (2 ^ e) * 2 ^ e).

(** [x++], and [x + 1], on a number that holds the integer [x]. *)
Definition increment (x : Z) : Z := roundInt (x + 1).

(** [a / d] cut to an integer multiple of [2 ^ e], in units of [2 ^ e]. *)
Definition floorAt (e a d : Z) : Z :=
  if 0 <=? e then a / (d * 2 ^ e) else (a * 2 ^ (- e)) / d.

(** [a / d] rounded to the nearest multiple of [2 ^ e]. *)
Definition roundAt (e a d : Z) : Q :=
  if 0 <=? e then inject_Z (nearestEven a (d * 2 ^ e) * 2 ^ e)
  else Qred (Qmake (nearestEven (a * 2 ^ (- e)) d) (Z.to_pos (2 ^ (- e)))).

(** The exponent of the last significant bit of the double nearest to
    [a / d], for [a > 0] and [d > 0]: the one that leaves 53 significant
    bits, and not below that of the subnormal numbers. *)
Definition exponentOf (a d : Z) : Z :=
  let e := Z.log2 a - Z.log2 d - 52 in
  Z.max (-1074) (if floorAt e a d <? 2 ^ 52 then e - 1 else e).

(** The double nearest to the rational [q]; also the double a decimal
    literal stands for. *)
Definition round (q : Q) : Q :=
  let a := Z.abs (Qnum q) in
  let d := Z.pos (Qden q) in
  if a =? 0 then 0%Q
  else
    let r := roundAt (exponentOf a d) a d in
    if Qnum q <? 0 then Qopp r else r.

(** [a + b] and [a - b] on doubles. *)
Definition add (a b : Q) : Q := round (a + b).
Definition sub (a b : Q) : Q := round (a - b).

End Double.

(** ** Regular expressions

    The regular expressions of the engine, as a syntax tree and a
    backtracking matcher in continuation-passing style.  Every quantifier
    of the source either makes a sub-expression optional ([Opt]) or
    repeats one character class ([Many]), so the matcher is structural:
    on the expression, and on the text inside [Many]. *)

Module Re.
Import Js.

Inductive regex : Type :=
| Eps
| Chr (c : ascii)
| Cls (p : ascii -> bool)
| Seq (r1 r2 : regex)
| Alt (r1 r2 : regex)
| Opt (r : regex)
| Many (greedy : bool) (lo : nat) (hi : option nat) (p : ascii -> bool)
| Grp (i : nat) (r : regex)
| WordB
| Bos
| Eos.

(** The matcher's position: the character before it (none at the start of
    the text), the text from it on, and the groups captured so far. *)
Record mstate : Type :=
  { prev : option ascii; rest : string; caps : list (nat * string) }.

Definition orElse {A} (a b : option A) : option A :=
  match a with Some _ => a | None => b end.

(** With the [i] flag two characters agree when their upper-case forms do,
    and a class holds a character when it holds one with the same
    upper-case form. *)
Definition chrEq (ic : bool) (c x : ascii) : bool :=
  if ic then Ascii.eqb (upperChar c) (upperChar x) else Ascii.eqb c x.

Definition clsTest (ic : bool) (p : ascii -> bool) (x : ascii) : bool :=
  if ic then p x || p (upperChar x) || p (lowerChar x) else p x.

Definition wordBefore (st : mstate) : bool :=
  match prev st with Some c => isWord c | None => false end.

Definition wordAfter (st : mstate) : bool :=
  match rest st with String c _ => isWord c | EmptyString => false end.

Definition advance (c : ascii) (s : string) (st : mstate) : mstate :=
  {| prev := Some c; rest := s; caps := caps st |}.

Definition capture (i : nat) (st0 st1 : mstate) : mstate :=
  {| prev := prev st1; rest := rest st1;
     caps := (i, takeStr (String.length (rest st0) - String.length (rest st1))
                  (rest st0))
               :: caps st1 |}.

(** [p{lo,hi}] and [p{lo,hi}?] over the text [s]: greedy takes a character
    before it tries to stop, lazy stops before it tries to take one. *)
Fixpoint many (ic greedy : bool) (p : ascii -> bool) (lo : nat)
    (hi : option nat) (cs : list (nat * string)) (pv : option ascii)
    (s : string) (k : mstate -> option mstate) : option mstate :=
  let stop :=
    if (lo =? 0)%nat then k {| prev := pv; rest := s; caps := cs |}
    else None in
  let take :=
    match hi, s with
    | Some O, _ => None
    | _, String c s' =>
        if clsTest ic p c
        then many ic greedy p (Nat.pred lo) (option_map Nat.pred hi) cs
               (Some c) s' k
        else None
    | _, EmptyString => None
    end in
  if greedy then orElse take stop else orElse stop take.

Fixpoint run (ic : bool) (r : regex) (st : mstate)
    (k : mstate -> option mstate) : option mstate :=
  match r with
  | Eps => k st
  | Chr c =>
      match rest st with
      | String x s' => if chrEq ic c x then k (advance x s' st) else None
      | EmptyString => None
      end
  | Cls p =>
      match rest st with
      | String x s' => if clsTest ic p x then k (advance x s' st) else None
      | EmptyString => None
      end
  | Seq r1 r2 => run ic r1 st (fun st' => run ic r2 st' k)
  | Alt r1 r2 => orElse (run ic r1 st k) (run ic r2 st k)
  | Opt r1 => orElse (run ic r1 st k) (k st)
  | Many g lo hi p => many ic g p lo hi (caps st) (prev st) (rest st) k
  | Grp i r1 => run ic r1 st (fun st' => k (capture i st st'))
  | WordB => if xorb (wordBefore st) (wordAfter st) then k st else None
  | Bos => match prev st with None => k st | Some _ => None end
  | Eos => match rest st with EmptyString => k st | String _ _ => None end
  end.

(** A successful match: where it starts, its text, and its groups. *)
Record found : Type :=
  { index : nat; text : string; groups : list (nat * string) }.

(** The match that starts at the current position, if any. *)
Definition matchAt (ic : bool) (r : regex) (pv : option ascii) (s : string)
  : option (nat * list (nat * string)) :=
  match run ic r {| prev := pv; rest := s; caps := [] |} Some with
  | Some st => Some ((String.length s - String.length (rest st))%nat, caps st)
  | None => None
  end.

(** [r.exec(s)] without the [g] flag: the leftmost match. *)
Fixpoint execFrom (ic : bool) (r : regex) (i : nat) (pv : option ascii)
    (s : string) : option found :=
  match matchAt ic r pv s with
  | Some (n, cs) => Some {| index := i; text := takeStr n s; groups := cs |}
  | None =>
      match s with
      | EmptyString => None
      | String c s' => execFrom ic r (S i) (Some c) s'
      end
  end.

Definition exec (ic : bool) (r : regex) (s : string) : option found :=
  execFrom ic r 0 None s.

(** [r.test(s)]. *)
Definition test (ic : bool) (r : regex) (s : string) : bool :=
  match exec ic r s with Some _ => true | None => false end.

(** Group [i] of a match; [None] is [undefined]. *)
Fixpoint group (i : nat) (cs : list (nat * string)) : option string :=
  match cs with
  | [] => None
  | (j, v) :: cs' => if (i =? j)%nat then Some v else group i cs'
  end.

(** [s.replace(r, rep)] with the [g] flag and a replacement text without
    [$]: the matches are found left to right, each search starting where
    the last match ended (one character further after an empty match).
    [skip] counts the characters of the current match still to drop. *)
Fixpoint replaceFrom (ic : bool) (r : regex) (rep : string) (skip : nat)
    (pv : option ascii) (s : string) : string :=
  match skip with
  | S n =>
      match s with
      | String c s' => replaceFrom ic r rep n (Some c) s'
      | EmptyString => EmptyString
      end
  | O =>
      match matchAt ic r pv s with
      | Some (len, _) =>
          rep ++ match s, len with
                 | EmptyString, _ => EmptyString
                 | String c s', O => String c (replaceFrom ic r rep 0 (Some c) s')
                 | String c s', S n => replaceFrom ic r rep n (Some c) s'
                 end
      | None =>
          match s with
          | EmptyString => EmptyString
          | String c s' => String c (replaceFrom ic r rep 0 (Some c) s')
          end
      end
  end.

Definition replaceAll (ic : bool) (r : regex) (rep s : string) : string :=
  replaceFrom ic r rep 0 None s.

(** [(s.match(r) || []).length] with the [g] flag: the number of matches. *)
Fixpoint countFrom (ic : bool) (r : regex) (skip : nat) (pv : option ascii)
    (s : string) : nat :=
  match skip with
  | S n =>
      match s with
      | String c s' => countFrom ic r n (Some c) s'
      | EmptyString => O
      end
  | O =>
      match matchAt ic r pv s with
      | Some (len, _) =>
          S match s, len with
            | EmptyString, _ => O
            | String c s', O => countFrom ic r 0 (Some c) s'
            | String c s', S n => countFrom ic r n (Some c) s'
            end
      | None =>
          match s with
          | EmptyString => O
          | String c s' => countFrom ic r 0 (Some c) s'
          end
      end
  end.

Definition countAll (ic : bool) (r : regex) (s : string) : nat :=
  countFrom ic r 0 None s.

(** Building blocks: a literal text, an alternation, a choice of words. *)
Fixpoint Str (s : string) : regex :=
  match s with
  | EmptyString => Eps
  | String c EmptyString => Chr c
  | String c s' => Seq (Chr c) (Str s')
  end.

Fixpoint alts (rs : list regex) : regex :=
  match rs with
  | [] => Cls (fun _ => false)
  | [r] => r
  | r :: rs' => Alt r (alts rs')
  end.

Definition anyOf (ws : list string) : regex := alts (map Str ws).

(** [\b(w1|...|wn)\b] *)
Definition wordOf (ws : list string) : regex :=
  Seq WordB (Seq (Grp 1 (anyOf ws)) WordB).

Definition plus (p : ascii -> bool) : regex := Many true 1 None p.
Definition star (p : ascii -> bool) : regex := Many true 0 None p.

End Re.

(** ** Dates

    The [Date] operations the engine uses, after the ECMAScript
    definitions (Day, TimeWithinDay, DayFromYear, MonthFromTime,
    DateFromTime, WeekDay, MakeDay, MakeDate, TimeClip).  A date is its
    time value, or [None] when it is invalid (NaN). *)

Module JsDate.

Local Open Scope Z_scope.

Inductive Error : Type :=
| RangeError
| TypeError.

(** The outcome of a call that may raise. *)
Inductive Outcome (A : Type) : Type :=
| Ok (a : A)
| Raised (e : Error).

Arguments Ok {A} a.
Arguments Raised {A} e.

Definition msPerDay : Z := 86400000.

Definition Day (t : Z) : Z := t / msPerDay.
Definition TimeWithinDay (t : Z) : Z := t mod msPerDay.

Definition isLeap (y : Z) : bool :=
  (y mod 4 =? 0) && (negb (y mod 100 =? 0) || (y mod 400 =? 0)).

Definition DayFromYear (y : Z) : Z :=
  365 * (y - 1970) + (y - 1969) / 4 - (y - 1901) / 100 + (y - 1601) / 400.

(** The year of a day number: the largest [y] with [DayFromYear y <= d],
    computed over the 400-year cycle of the calendar. *)
Definition YearFromDay (d : Z) : Z :=
  let z := d + 719468 in
  let era := z / 146097 in
  let doe := z mod 146097 in
  let yoe := (doe - doe / 1460 + doe / 36524 - doe / 146096) / 365 in
  let doy := doe - (365 * yoe + yoe / 4 - yoe / 100) in
  let mp := (5 * doy + 2) / 153 in
  let y := yoe + era * 400 in
  if mp <? 10 then y else y + 1.

Definition DayWithinYear (d : Z) : Z := d - DayFromYear (YearFromDay d).

(** The day within the year on which month [m] (0 to 11) starts. *)
Definition monthStart (m : Z) (leap : bool) : Z :=
  let l := if leap then 1 else 0 in
  if m =? 0 then 0
  else if m =? 1 then 31
  else if m =? 2 then 59 + l
  else if m =? 3 then 90 + l
  else if m =? 4 then 120 + l
  else if m =? 5 then 151 + l
  else if m =? 6 then 181 + l
  else if m =? 7 then 212 + l
  else if m =? 8 then 243 + l
  else if m =? 9 then 273 + l
  else if m =? 10 then 304 + l
  else 334 + l.

Definition MonthFromDay (d : Z) : Z :=
  let w := DayWithinYear d in
  let leap := isLeap (YearFromDay d) in
  if w <? monthStart 1 leap then 0
  else if w <? monthStart 2 leap then 1
  else if w <? monthStart 3 leap then 2
  else if w <? monthStart 4 leap then 3
  else if w <? monthStart 5 leap then 4
  else if w <? monthStart 6 leap then 5
  else if w <? monthStart 7 leap then 6
  else if w <? monthStart 8 leap then 7
  else if w <? monthStart 9 leap then 8
  else if w <? monthStart 10 leap then 9
  else if w <? monthStart 11 leap then 10
  else 11.

Definition DateFromDay (d : Z) : Z :=
  DayWithinYear d - monthStart (MonthFromDay d) (isLeap (YearFromDay d)) + 1.

(** [getFullYear], [getMonth], [getDate], [getDay] of a valid date. *)
Definition getFullYear (t : Z) : Z := YearFromDay (Day t).
Definition getMonth (t : Z) : Z := MonthFromDay (Day t).
Definition getDate (t : Z) : Z := DateFromDay (Day t).
Definition getDay (t : Z) : Z := (Day t + 4) mod 7.

Definition MakeDay (year month date : Z) : Z :=
  let ym := year + month / 12 in
  let mn := month mod 12 in
  DayFromYear ym + monthStart mn (isLeap ym) + date - 1.

Definition MakeDate (day time : Z) : Z := day * msPerDay + time.

Definition TimeClip (t : Z) : option Z :=
  if Z.abs t >? 8640000000000000 then None else Some t.

(** [d.setDate(dt)] *)
Definition setDate (d : option Z) (dt : Z) : option Z :=
  match d with
  | None => None
  | Some t =>
      TimeClip (MakeDate (MakeDay (getFullYear t) (getMonth t) dt)
                         (TimeWithinDay t))
  end.

(** [new Date(year, month, day)]: a year from 0 to 99 is taken in the
    1900s. *)
Definition newDate (year month day : Z) : option Z :=
  let yr := if (0 <=? year) && (year <=? 99) then 1900 + year else year in
  TimeClip (MakeDate (MakeDay yr month day) 0).

(** [d.toISOString()] raises on an invalid date; on a valid one the
    model keeps the time value that the text renders. *)
Definition toISOString (d : option Z) : Outcome Z :=
  match d with
  | Some t => Ok t
  | None => Raised RangeError
  end.

End JsDate.

(** ** The engine: data model *)

Module NeurodoneAI.
Import Js Re JsDate.

Local Open Scope Z_scope.

(** A chunk object [{id, name, completed, order}]; a field that is absent
    ([undefined]) is [None]. *)
Record Chunk : Type :=
  { chunkId : option string;
    chunkName : option string;
    chunkCompleted : bool;
    chunkOrder : option Z }.

(** An element of a [chunks] array: a bare string, a chunk object, or
    [undefined] (or [null], which every read treats alike). *)
Inductive JsChunk : Type :=
| ChunkStr (s : string)
| ChunkObj (c : Chunk)
| ChunkUndef.

Record TaskNameTemplate : Type :=
  { original : string; result : option string }.

Record ProjectPattern : Type :=
  { keyword : string; project : string }.

(** A learned pattern.  [createdAt] is the time value whose ISO rendering
    the engine stores. *)
Record Pattern : Type :=
  { id : string;
    normalized : string;
    originalInput : string;
    taskNameTemplate : TaskNameTemplate;
    projectPattern : option ProjectPattern;
    defaultProject : string;
    chunks : list (option string);
    createdAt : Z;
    useCount : Z;
    successRate : Q }.

Record Project : Type :=
  { name : string;
    projNormalized : string;
    usageCount : Z;
    projCreatedAt : Z }.

(** [userStats]; a counter that is absent counts as 0, which is how every
    read [(x || 0)] of the engine takes it. *)
Record Stats : Type :=
  { totalInputs : Z; localParses : Z; cloudParses : Z }.

Record Config : Type :=
  { apiEndpoint : string;
    maxFreeCallsPerDay : Z;
    maxPaidCallsPerDay : Z;
    voiceLengthThresholdSeconds : Q;
    minConfidenceForLocal : Q;
    isPaidUser : bool }.

(** The configuration of [new NeurodoneAI()]. *)
Definition defaultConfig : Config :=
  {| apiEndpoint := "/api/parse";
     maxFreeCallsPerDay := 5;
     maxPaidCallsPerDay := 50;
     voiceLengthThresholdSeconds := 15 # 1;
     minConfidenceForLocal := 75 # 100;
     isPaidUser := false |}.

(** What the engine does to the outside world. *)
Inductive Event : Type :=
| EvFetch (input : string) (coach : bool)
| EvSave (key : string).

(** The mutable fields of the engine, the number of identifiers drawn
    from [Math.random] so far, and the effects so far (latest first). *)
Record State : Type :=
  { learnedPatterns : list Pattern;
    userProjects : list Project;
    userStats : Stats;
    apiCallsToday : Z;
    idCount : nat;
    events : list Event }.

(** The fields of a remote result that the learning loop reads. *)
Record ClaudeResult : Type :=
  { crName : option string;
    crProject : string;
    crChunks : option (list JsChunk) }.

(** When a task is due: a time value the engine computed, or the text
    a remote reply carried. *)
Inductive Deadline : Type :=
| DueAt (t : Z)
| DueText (s : string).

(** The object [formatTaskResult] reads: a draft of the local parser
    ([taskName], [project], [deadline], [chunks]) or the JSON of a remote
    reply ([name], [project], [deadline], [chunks]). *)
Record TaskData : Type :=
  { dTaskName : option string;
    dName : option string;
    dProject : option string;
    dDeadline : option Deadline;
    dChunks : option (list JsChunk) }.

(** What a call reads from outside: the clock, the identifiers
    [generateId] draws, and the reply of the remote endpoint to an input
    and a mode ([None]: the request fails, is refused, or its body is
    not JSON). *)
Record Env : Type :=
  { now : Z;
    ids : nat -> string;
    remote : string -> bool -> option TaskData }.

Definition withPatterns (ps : list Pattern) (st : State) : State :=
  {| learnedPatterns := ps; userProjects := userProjects st;
     userStats := userStats st; apiCallsToday := apiCallsToday st;
     idCount := idCount st; events := events st |}.

Definition withProjects (ps : list Project) (st : State) : State :=
  {| learnedPatterns := learnedPatterns st; userProjects := ps;
     userStats := userStats st; apiCallsToday := apiCallsToday st;
     idCount := idCount st; events := events st |}.

Definition withStats (s : Stats) (st : State) : State :=
  {| learnedPatterns := learnedPatterns st; userProjects := userProjects st;
     userStats := s; apiCallsToday := apiCallsToday st;
     idCount := idCount st; events := events st |}.

Definition withApiCalls (n : Z) (st : State) : State :=
  {| learnedPatterns := learnedPatterns st; userProjects := userProjects st;
     userStats := userStats st; apiCallsToday := n;
     idCount := idCount st; events := events st |}.

Definition emit (e : Event) (st : State) : State :=
  {| learnedPatterns := learnedPatterns st; userProjects := userProjects st;
     userStats := userStats st; apiCallsToday := apiCallsToday st;
     idCount := idCount st; events := e :: events st |}.

(** [generateId()]: the next identifier, and the state after the draw. *)
Definition generateId (env : Env) (st : State) : string * State :=
  (ids env (idCount st),
   {| learnedPatterns := learnedPatterns st; userProjects := userProjects st;
      userStats := userStats st; apiCallsToday := apiCallsToday st;
      idCount := S (idCount st); events := events st |}).

(** The state of a fresh engine over empty storage. *)
Definition freshState : State :=
  {| learnedPatterns := []; userProjects := [];
     userStats := {| totalInputs := 0; localParses := 0; cloudParses := 0 |};
     apiCallsToday := 0; idCount := O; events := [] |}.

(** ** Calls that change the state and may raise *)

Definition M (A : Type) : Type := State -> Outcome A * State.

Definition ret {A} (a : A) : M A := fun st => (Ok a, st).

Definition bind {A B} (m : M A) (k : A -> M B) : M B :=
  fun st =>
    match m st with
    | (Ok a, st') => k a st'
    | (Raised e, st') => (Raised e, st')
    end.

Notation "x <- m ;; k" := (bind m (fun x => k))
  (at level 61, m at next level, right associativity).

(** A call that cannot raise. *)
Definition total {A} (f : State -> A * State) : M A :=
  fun st => let (a, st') := f st in (Ok a, st').

(** A call that only changes the state. *)
Definition update (f : State -> State) : M unit :=
  fun st => (Ok tt, f st).

(** A call that reads the state. *)
Definition reading {A} (f : State -> A) : M A :=
  fun st => (Ok (f st), st).

(** A computation that does not touch the state. *)
Definition lift {A} (o : Outcome A) : M A := fun st => (o, st).

(** [try { m } catch { handler }]: what [m] did to the state before it
    raised stays done. *)
Definition tryCatch {A} (m handler : M A) : M A :=
  fun st =>
    match m st with
    | (Ok a, st') => (Ok a, st')
    | (Raised _, st') => handler st'
    end.

(** ** Pattern learning system *)

Definition stopwords : list string :=
  ["the"; "a"; "an"; "to"; "for"; "by"; "on"; "at"; "in"].

Definition dayNames : list string :=
  ["monday"; "tuesday"; "wednesday"; "thursday"; "friday"; "saturday";
   "sunday"].

Definition timeWords : list string := ["today"; "tomorrow"; "next week"].

(** [/[^\w\s]/] *)
Definition rePunct : regex := Cls (fun c => negb (isWord c || isSpace c)).
(** [/\b\d+\b/] *)
Definition reNumber : regex := Seq WordB (Seq (plus isDigit) WordB).
(** [/\s+/] *)
Definition reSpaces : regex := plus isSpace.

Definition normalizeForMatching (input : string) : string :=
  trim
    (replaceAll false reSpaces " "
    (replaceAll false reNumber "[NUM]"
    (replaceAll false (wordOf timeWords) "[TIME]"
    (replaceAll false (wordOf dayNames) "[DAY]"
    (replaceAll false (wordOf stopwords) ""
    (replaceAll false rePunct " "
    (toLowerCase input))))))).

(** The loop of [patternsMatch]: the number of words of [wordsA] that
    [wordsB] includes, each occurrence counted. *)
Definition countMatches (wordsA wordsB : list string) : Z :=
  fold_left (fun matches word =>
               if arrIncludes word wordsB then matches + 1 else matches)
            wordsA 0.

Definition similarity (a b : string) : Q :=
  let wordsA := splitSpace a in
  let wordsB := splitSpace b in
  inject_Z (countMatches wordsA wordsB)
  / inject_Z (Z.max (Z.of_nat (List.length wordsA))
                (Z.of_nat (List.length wordsB))).

Definition patternsMatch (a b : string) : bool :=
  Qle_bool (7 # 10) (similarity a b).

(** [x || 0.8] on a number. *)
Definition orDefault (x d : Q) : Q := if Qeq_bool x 0 then d else x.

Fixpoint findMatchingPatternIn (normalizedInput : string)
    (ps : list Pattern) : option (Pattern * Q) :=
  match ps with
  | [] => None
  | pattern :: ps' =>
      if patternsMatch normalizedInput (normalized pattern)
      then Some (pattern, orDefault (successRate pattern) (8 # 10))
      else findMatchingPatternIn normalizedInput ps'
  end.

Definition findMatchingPattern (st : State) (input : string)
  : option (Pattern * Q) :=
  findMatchingPatternIn (normalizeForMatching input) (learnedPatterns st).

Definition createTaskNameTemplate (input : string)
    (resultName : option string) : TaskNameTemplate :=
  {| original := input; result := resultName |}.

Definition createProjectPattern (input proj : string)
  : option ProjectPattern :=
  let lowerInput := toLowerCase input in
  let lowerProject := toLowerCase proj in
  match indexOf lowerProject lowerInput with
  | Some i =>
      let before := trim (substring (i - 10) i lowerInput) in
      Some {| keyword := before; project := proj |}
  | None => None
  end.

(** [c.name] for an element of the remote chunk list: a string has no
    such property, and on [undefined] the read raises. *)
Definition chunkNameOf (c : JsChunk) : Outcome (option string) :=
  match c with
  | ChunkObj o => Ok (chunkName o)
  | ChunkStr _ => Ok None
  | ChunkUndef => Raised TypeError
  end.

(** [cs.map(c => c.name)]: the names, or the error of the first read that
    raises. *)
Fixpoint chunkNames (cs : list JsChunk) : Outcome (list (option string)) :=
  match cs with
  | [] => Ok []
  | c :: cs' =>
      match chunkNameOf c with
      | Ok n =>
          match chunkNames cs' with
          | Ok ns => Ok (n :: ns)
          | Raised e => Raised e
          end
      | Raised e => Raised e
      end
  end.

(** [claudeResult.chunks?.map(c => c.name) || []] *)
Definition learnedNames (claudeResult : ClaudeResult)
  : Outcome (list (option string)) :=
  match crChunks claudeResult with
  | Some cs => chunkNames cs
  | None => Ok []
  end.

(** [findIndex]: [None] stands for -1. *)
Fixpoint findIndex {A} (f : A -> bool) (l : list A) : option nat :=
  match l with
  | [] => None
  | x :: l' => if f x then Some O else option_map S (findIndex f l')
  end.

Fixpoint updateAt {A} (i : nat) (f : A -> A) (l : list A) : list A :=
  match l, i with
  | [], _ => []
  | x :: l', O => f x :: l'
  | x :: l', S j => x :: updateAt j f l'
  end.

(** The update of an existing pattern: [useCount++] and the new chunks. *)
Definition mergeInto (newChunks : list (option string)) (p : Pattern)
  : Pattern :=
  {| id := id p; normalized := normalized p;
     originalInput := originalInput p;
     taskNameTemplate := taskNameTemplate p;
     projectPattern := projectPattern p;
     defaultProject := defaultProject p;
     chunks := newChunks;
     createdAt := createdAt p;
     useCount := Double.increment (useCount p);
     successRate := successRate p |}.

(** [sort((a, b) => b.useCount - a.useCount)]: descending by [useCount];
    the sort of an array is stable, so it is the insertion sort that
    keeps equal patterns in their order. *)
Fixpoint insertByUse (p : Pattern) (l : list Pattern) : list Pattern :=
  match l with
  | [] => [p]
  | q :: l' =>
      if useCount q <=? useCount p then p :: q :: l'
      else q :: insertByUse p l'
  end.

Definition sortByUse (l : list Pattern) : list Pattern :=
  fold_right insertByUse [] l.

(** The pattern built from a remote parse, given the names read off its
    chunks. *)
Definition newPattern (env : Env) (ident input : string)
    (claudeResult : ClaudeResult) (names : list (option string)) : Pattern :=
  {| id := ident;
     normalized := normalizeForMatching input;
     originalInput := input;
     taskNameTemplate :=
       createTaskNameTemplate input (crName claudeResult);
     projectPattern := createProjectPattern input (crProject claudeResult);
     defaultProject := crProject claudeResult;
     chunks := names;
     createdAt := now env;
     useCount := 1;
     successRate := 1 |}.

(** The first half of [learnFromClaudeResponse]: update the first pattern
    that matches the new key, or append the new pattern. *)
Definition insertOrMerge (pattern : Pattern) (ps : list Pattern)
  : list Pattern :=
  match findIndex (fun p => patternsMatch (normalized p) (normalized pattern))
                  ps with
  | Some existingIndex => updateAt existingIndex (mergeInto (chunks pattern)) ps
  | None => ps ++ [pattern]
  end.

(** The second half: keep the 100 most used once there are more. *)
Definition enforceCap (ps : list Pattern) : list Pattern :=
  if (100 <? List.length ps)%nat then firstn 100 (sortByUse ps) else ps.

(** The store after the new pattern has been merged or appended, the cap
    enforced and the store saved. *)
Definition storePattern (pattern : Pattern) (st : State) : State :=
  emit (EvSave "neurodone_patterns")
    (withPatterns (enforceCap (insertOrMerge pattern (learnedPatterns st)))
                  st).

(** The identifier is drawn and the names are read while the pattern is
    built, before the store is touched: when a read raises, the store is
    as it was. *)
Definition learnFromClaudeResponse (env : Env) (input : string)
    (claudeResult : ClaudeResult) : M unit :=
  ident <- total (generateId env) ;;
  names <- lift (learnedNames claudeResult) ;;
  update (storePattern (newPattern env ident input claudeResult names)).

(** ** Deadline extractor *)

(** [/\bw\b/] *)
Definition word (w : string) : regex := Seq WordB (Seq (Str w) WordB).

(** [/\bin (\d+) days?\b/] and [/\bin (\d+) weeks?\b/] *)
Definition reInDays : regex :=
  Seq WordB (Seq (Str "in ") (Seq (Grp 1 (plus isDigit))
    (Seq (Str " day") (Seq (Opt (Chr "s")) WordB)))).

Definition reInWeeks : regex :=
  Seq WordB (Seq (Str "in ") (Seq (Grp 1 (plus isDigit))
    (Seq (Str " week") (Seq (Opt (Chr "s")) WordB)))).

(** What an entry of [deadlinePatterns] carries besides its pattern. *)
Inductive DeadlineRule : Type :=
| Days (days : Z)
| Handler (handler : list (nat * string) -> Z)
| Weekday (weekday : Z).

(** [m[1]] of a match whose group 1 took part in it. *)
Definition group1 (m : list (nat * string)) : string :=
  match group 1 m with Some v => v | None => EmptyString end.

Definition deadlinePatterns : list (regex * DeadlineRule) :=
  [ (word "today", Days 0);
    (word "tomorrow", Days 1);
    (word "day after tomorrow", Days 2);
    (word "next week", Days 7);
    (reInDays, Handler (fun m => parseInt (group1 m)));
    (reInWeeks, Handler (fun m => parseInt (group1 m) * 7));
    (word "on monday", Weekday 1);
    (word "on tuesday", Weekday 2);
    (word "on wednesday", Weekday 3);
    (word "on thursday", Weekday 4);
    (word "on friday", Weekday 5);
    (word "on saturday", Weekday 6);
    (word "on sunday", Weekday 0);
    (word "monday", Weekday 1);
    (word "tuesday", Weekday 2);
    (word "wednesday", Weekday 3);
    (word "thursday", Weekday 4);
    (word "friday", Weekday 5) ].

(** The loop over [deadlinePatterns]: the first entry whose pattern
    matches, with its match. *)
Fixpoint firstRule (rules : list (regex * DeadlineRule)) (text : string)
  : option (DeadlineRule * found) :=
  match rules with
  | [] => None
  | (pattern, dp) :: rules' =>
      match exec false pattern text with
      | Some m => Some (dp, m)
      | None => firstRule rules' text
      end
  end.

(** The number of days the matched entry adds to today's day of the
    month. *)
Definition ruleDays (nowT : Z) (dp : DeadlineRule) (m : found) : Z :=
  match dp with
  | Days days => days
  | Handler handler => handler (groups m)
  | Weekday weekday =>
      let currentDay := getDay nowT in
      let daysUntil := weekday - currentDay in
      if daysUntil <=? 0 then daysUntil + 7 else daysUntil
  end.

Definition isDateSep (c : ascii) : bool :=
  Ascii.eqb c "/" || Ascii.eqb c "-".

(** [/\b(\d{1,2})[\/\-](\d{1,2})(?:[\/\-](\d{2,4}))?\b/] *)
Definition reDate : regex :=
  Seq WordB
   (Seq (Grp 1 (Many true 1 (Some 2%nat) isDigit))
   (Seq (Cls isDateSep)
   (Seq (Grp 2 (Many true 1 (Some 2%nat) isDigit))
   (Seq (Opt (Seq (Cls isDateSep) (Grp 3 (Many true 2 (Some 4%nat) isDigit))))
        WordB)))).

Definition group2 (m : list (nat * string)) : string :=
  match group 2 m with Some v => v | None => EmptyString end.

(** The date an explicit [M/D] or [M/D/Y] match stands for. *)
Definition numericDate (nowT : Z) (m : found) : option Z :=
  let month := parseInt (group1 (groups m)) - 1 in
  let day := parseInt (group2 (groups m)) in
  let year := match group 3 (groups m) with
              | Some y => parseInt y
              | None => getFullYear nowT
              end in
  newDate year month day.

(** The date the ordered rules arrive at: tomorrow, moved by the first
    matching rule. *)
Definition ruleDeadline (nowT : Z) (text : string) : option Z :=
  let deadline := setDate (Some nowT) (getDate nowT + 1) in
  match firstRule deadlinePatterns text with
  | Some (dp, m) => setDate deadline (getDate nowT + ruleDays nowT dp m)
  | None => deadline
  end.

Definition extractDeadline (env : Env) (text : string) : Outcome Z :=
  let deadline := ruleDeadline (now env) text in
  let deadline :=
    match exec false reDate text with
    | Some dateMatch => numericDate (now env) dateMatch
    | None => deadline
    end in
  toISOString deadline.

(** ** Project learning *)

Fixpoint findKnownProjectIn (lowerText : string) (ps : list Project)
  : option string :=
  match ps with
  | [] => None
  | p :: ps' =>
      if includes (projNormalized p) lowerText then Some (name p)
      else findKnownProjectIn lowerText ps'
  end.

Definition findKnownProject (st : State) (text : string) : option string :=
  findKnownProjectIn (toLowerCase text) (userProjects st).

(** [project.usageCount++] on the first project with the given key. *)
Fixpoint bumpProject (key : string) (ps : list Project) : list Project :=
  match ps with
  | [] => []
  | p :: ps' =>
      if String.eqb (projNormalized p) key
      then {| name := name p; projNormalized := projNormalized p;
              usageCount := Double.increment (usageCount p);
              projCreatedAt := projCreatedAt p |} :: ps'
      else p :: bumpProject key ps'
  end.

Definition learnProject (env : Env) (projectName : string) (st : State)
  : State :=
  let key := trim (toLowerCase projectName) in
  if existsb (fun p => String.eqb (projNormalized p) key) (userProjects st)
  then emit (EvSave "neurodone_projects")
         (withProjects (bumpProject key (userProjects st)) st)
  else emit (EvSave "neurodone_projects")
         (withProjects
            (userProjects st ++
               [{| name := projectName; projNormalized := key;
                   usageCount := 1; projCreatedAt := now env |}])
            st).

(** ** Chunk generator *)

(** [/a|b|c/]: one of the words, anywhere. *)
Definition anywhere (ws : list string) : regex := anyOf ws.

Definition taskTypes : list (regex * list string) :=
  [ (anywhere ["presentation"; "deck"; "slides"; "pitch"],
     ["Research & gather info"; "Create outline"; "Design slides";
      "Add content"; "Review & polish"]);
    (anywhere ["report"; "document"; "write"; "article"; "blog"],
     ["Outline structure"; "Write first draft"; "Review & edit";
      "Final polish"]);
    (anywhere ["email"; "message"; "reply"; "respond"],
     ["Draft message"; "Review tone"; "Send"]);
    (anywhere ["meeting"; "call"; "interview"],
     ["Prepare agenda"; "Gather materials"; "Attend"; "Follow up notes"]);
    (anywhere ["design"; "create"; "make"; "build"],
     ["Research inspiration"; "Sketch concepts"; "Create draft";
      "Refine details"]);
    (anywhere ["review"; "analyze"; "audit"],
     ["Gather materials"; "Initial review"; "Deep analysis";
      "Write findings"]);
    (anywhere ["plan"; "strategy"; "roadmap"],
     ["Research & context"; "Brainstorm options"; "Draft plan";
      "Review & finalize"]);
    (anywhere ["fix"; "debug"; "solve"; "repair"],
     ["Identify issue"; "Research solution"; "Implement fix";
      "Test & verify"]);
    (anywhere ["learn"; "study"; "course"; "read"],
     ["Set up environment"; "First session"; "Practice"; "Review notes"]);
    (anywhere ["buy"; "purchase"; "order"; "shop"],
     ["Research options"; "Compare prices"; "Make purchase"]) ].

Fixpoint templateFor (types : list (regex * list string)) (name : string)
  : list string :=
  match types with
  | [] => []
  | (pattern, cs) :: types' =>
      if test false pattern name then cs else templateFor types' name
  end.

Fixpoint getLearnedChunksIn (normalizedName : string) (ps : list Pattern)
  : option (list (option string)) :=
  match ps with
  | [] => None
  | pattern :: ps' =>
      if patternsMatch normalizedName (normalized pattern)
         && (0 <? List.length (chunks pattern))%nat
      then Some (chunks pattern)
      else getLearnedChunksIn normalizedName ps'
  end.

Definition getLearnedChunksForTask (st : State) (taskName : string)
  : option (list (option string)) :=
  getLearnedChunksIn (normalizeForMatching taskName) (learnedPatterns st).

(** [chunkTemplates.map((name, i) => ({id, name, completed, order}))],
    drawing one identifier per chunk. *)
Fixpoint makeChunks (env : Env) (i : Z) (names : list (option string))
    (st : State) : list JsChunk * State :=
  match names with
  | [] => ([], st)
  | n :: names' =>
      let (ident, st1) := generateId env st in
      let (cs, st2) := makeChunks env (i + 1) names' st1 in
      (ChunkObj {| chunkId := Some ident; chunkName := n;
                   chunkCompleted := false; chunkOrder := Some i |} :: cs,
       st2)
  end.

Definition generateChunks (env : Env) (taskName : string) (st : State)
  : list JsChunk * State :=
  let name := toLowerCase taskName in
  let chunkTemplates := map Some (templateFor taskTypes name) in
  let chunkTemplates :=
    match chunkTemplates with
    | [] => [Some "Start task"; Some "Main work"; Some "Finish up"]
    | _ => chunkTemplates
    end in
  let chunkTemplates :=
    match getLearnedChunksForTask st name with
    | Some learnedChunks => learnedChunks
    | None => chunkTemplates
    end in
  makeChunks env 0 chunkTemplates st.

(** ** Tasks *)

Record Task : Type :=
  { taskId : string;
    taskName : string;
    taskProject : string;
    deadline : Deadline;
    taskChunks : list JsChunk;
    completed : bool;
    taskCreatedAt : Z;
    parsedBy : option string;
    confidence : option Q;
    rateLimited : bool }.

(** [a || b] on strings: the empty string and [undefined] are falsy. *)
Definition orStr (a : option string) (b : string) : string :=
  match a with
  | Some EmptyString => b
  | Some s => s
  | None => b
  end.

Definition truthyDeadline (d : option Deadline) : option Deadline :=
  match d with
  | Some (DueText EmptyString) => None
  | _ => d
  end.

Definition formatTaskResult (env : Env) (data : TaskData) : M Task :=
  ident <- total (generateId env) ;;
  let name := orStr (dTaskName data) (orStr (dName data) "Untitled Task") in
  let proj := orStr (dProject data) "Inbox" in
  due <- match truthyDeadline (dDeadline data) with
         | Some d => ret d
         | None =>
             t <- lift (toISOString (TimeClip (now env + 86400000))) ;;
             ret (DueAt t)
         end ;;
  cs <- match dChunks data with
        | Some cs => ret cs
        | None =>
            total (generateChunks env
                     (orStr (dTaskName data) (orStr (dName data) "")))
        end ;;
  ret {| taskId := ident; taskName := name; taskProject := proj;
         deadline := due; taskChunks := cs; completed := false;
         taskCreatedAt := now env; parsedBy := None; confidence := None;
         rateLimited := false |}.

(** ** Rule-based parser *)

Definition cutWords : list string :=
  ["for"; "by"; "until"; "before"; "tomorrow"; "today"; "next week";
   "on monday"; "on tuesday"; "on wednesday"; "on thursday"; "on friday";
   "on saturday"; "on sunday"].

(** [/\b(for|by|...|on sunday)\b.*/gi] *)
Definition reNameCut : regex :=
  Seq WordB (Seq (Grp 1 (anyOf cutWords)) (Seq WordB (star isDot))).

Definition isAlnumSpace (c : ascii) : bool :=
  isLower c || isUpper c || isDigit c || isSpace c.

(** [(?:\s+by|\s+until|\s+before|\s+tomorrow|\s+today|\s+next|\s+on\s+|$)] *)
Definition reProjectEnd : regex :=
  alts [ Seq (plus isSpace) (Str "by");
         Seq (plus isSpace) (Str "until");
         Seq (plus isSpace) (Str "before");
         Seq (plus isSpace) (Str "tomorrow");
         Seq (plus isSpace) (Str "today");
         Seq (plus isSpace) (Str "next");
         Seq (plus isSpace) (Seq (Str "on") (plus isSpace));
         Eos ].

(** [([A-Z][a-zA-Z0-9\s]+?)] *)
Definition reProjectName : regex :=
  Grp 1 (Seq (Cls isUpper) (Many false 1 None isAlnumSpace)).

(** [/\bfor\s+(?:the\s+)?([A-Z][a-zA-Z0-9\s]+?)(?:...)/i] *)
Definition reProjectFor : regex :=
  Seq WordB (Seq (Str "for") (Seq (plus isSpace)
    (Seq (Opt (Seq (Str "the") (plus isSpace)))
    (Seq reProjectName reProjectEnd)))).

Definition isSpaceOrColon (c : ascii) : bool :=
  isSpace c || Ascii.eqb c ":".

(** [/\b(?:project|client|team)[\s:]+([A-Z][a-zA-Z0-9\s]+?)(?:...)/i] *)
Definition reProjectKeyword : regex :=
  Seq WordB (Seq (anyOf ["project"; "client"; "team"])
    (Seq (plus isSpaceOrColon) (Seq reProjectName reProjectEnd))).

Definition projectPatterns : list regex := [reProjectFor; reProjectKeyword].

(** The loop over [projectPatterns]: the trimmed group 1 of the first
    pattern that matches. *)
Fixpoint firstProject (patterns : list regex) (text : string)
  : option string :=
  match patterns with
  | [] => None
  | pattern :: patterns' =>
      match exec true pattern text with
      | Some m => Some (trim (group1 (groups m)))
      | None => firstProject patterns' text
      end
  end.

Definition extractProject (st : State) (text : string) : string :=
  match firstProject projectPatterns text with
  | Some proj =>
      match findKnownProject st proj with
      | Some EmptyString => proj
      | Some knownProject => knownProject
      | None => proj
      end
  | None => "Inbox"
  end.

Definition extractTaskName (text : string) : string :=
  let taskName :=
    trim (replaceAll false reSpaces " " (replaceAll true reNameCut "" text)) in
  let taskName := capitalize taskName in
  match taskName with
  | EmptyString => capitalize text
  | _ => taskName
  end.

Definition ruleBasedParse (env : Env) (text : string) : M Task :=
  let lowerText := toLowerCase text in
  let taskName := extractTaskName text in
  proj <- reading (fun st => extractProject st text) ;;
  due <- lift (extractDeadline env lowerText) ;;
  cs <- total (generateChunks env taskName) ;;
  _ <- (if String.eqb proj "Inbox" then ret tt
        else update (learnProject env proj)) ;;
  formatTaskResult env
    {| dTaskName := Some taskName; dName := None; dProject := Some proj;
       dDeadline := Some (DueAt due); dChunks := Some cs |}.

(** ** Replaying a learned pattern *)

Definition applyPatternTemplate (input : string)
    (template : TaskNameTemplate) : string :=
  capitalize input.

Definition extractWithPattern (input : string)
    (pattern : option ProjectPattern) : option string :=
  match pattern with
  | None => None
  | Some pp =>
      let lowerInput := toLowerCase input in
      match keyword pp with
      | EmptyString => None
      | kw =>
          match indexOf kw lowerInput with
          | Some i =>
              let after := trim (skipStr (i + String.length kw) input) in
              match splitWs after with
              | w :: _ => Some (capitalize w)
              | [] => None
              end
          | None => None
          end
      end
  end.

(** A learned chunk list as the [chunks] array of a task. *)
Definition replayChunk (n : option string) : JsChunk :=
  match n with
  | Some s => ChunkStr s
  | None => ChunkUndef
  end.

(** [applyLearnedPatterns]: [None] when no pattern matches. *)
Definition applyLearnedPatterns (env : Env) (input : string)
  : M (option TaskData) :=
  found <- reading (fun st => findMatchingPattern st input) ;;
  match found with
  | None => ret None
  | Some (pattern, _) =>
      due <- lift (extractDeadline env (toLowerCase input)) ;;
      ret (Some
        {| dTaskName :=
             Some (applyPatternTemplate input (taskNameTemplate pattern));
           dName := None;
           dProject :=
             Some (orStr (extractWithPattern input (projectPattern pattern))
                         (orStr (Some (defaultProject pattern)) "Inbox"));
           dDeadline := Some (DueAt due);
           dChunks := Some (map replayChunk (chunks pattern)) |})
  end.

Definition parseLocally (env : Env) (input : string) : M Task :=
  let text := trim input in
  patternResult <- applyLearnedPatterns env text ;;
  match patternResult with
  | Some data => formatTaskResult env data
  | None => ruleBasedParse env text
  end.

(** ** Remote parser adapter and rate limiting *)

Definition parseWithClaude (env : Env) (input : string) (isCoachMode : bool)
  : M Task :=
  _ <- update (emit (EvFetch input isCoachMode)) ;;
  match remote env input isCoachMode with
  | Some reply =>
      tryCatch (formatTaskResult env reply) (ruleBasedParse env input)
  | None => ruleBasedParse env input
  end.

Definition canMakeApiCall (cfg : Config) (st : State) : bool :=
  let limit := if isPaidUser cfg then maxPaidCallsPerDay cfg
               else maxFreeCallsPerDay cfg in
  apiCallsToday st <? limit.

Definition incrementApiCalls (st : State) : State :=
  emit (EvSave "neurodone_api_calls")
       (withApiCalls (Double.increment (apiCallsToday st)) st).

Definition saveUserStats (st : State) : State :=
  emit (EvSave "neurodone_ai_stats") st.

Definition getRemainingApiCalls (cfg : Config) (st : State) : Z :=
  let limit := if isPaidUser cfg then maxPaidCallsPerDay cfg
               else maxFreeCallsPerDay cfg in
  Z.max 0 (limit - apiCallsToday st).

(** ** Decision engine *)

Inductive Strategy : Type :=
| Local
| Cloud.

Record Decision : Type :=
  { strategy : Strategy; decConfidence : Q; reason : string }.

Definition actionVerbs : list string :=
  ["finish"; "complete"; "do"; "make"; "create"; "write"; "send"; "call";
   "email"; "buy"; "get"; "fix"; "update"; "review"].

(** The three [clearPatterns], each with the [i] flag. *)
Definition clearPatterns : list regex :=
  [ Seq Bos (Grp 1 (anyOf actionVerbs));
    Grp 1 (anyOf ["by"; "until"; "before"; "tomorrow"; "today"; "monday";
                  "tuesday"; "wednesday"; "thursday"; "friday";
                  "next week"]);
    Grp 1 (anyOf ["for"; "project"; "client"; "team"; "work"; "meeting"]) ].

Definition qmax (a b : Q) : Q := if Qle_bool a b then b else a.
Definition qmin (a b : Q) : Q := if Qle_bool a b then a else b.

(** The sums and differences are those of doubles, and the literals
    [0.1], [0.15] and [0.2] are the doubles they stand for. *)
Definition estimateLocalConfidence (st : State) (input : string) : Q :=
  let text := toLowerCase input in
  let confidence :=
    fold_left (fun confidence pattern =>
                 if test true pattern text
                 then Double.add confidence (Double.round (1 # 10))
                 else confidence)
              clearPatterns (1 # 2)%Q in
  let confidence :=
    match findKnownProject st text with
    | Some EmptyString => confidence
    | Some _ => Double.add confidence (Double.round (15 # 100))
    | None => confidence
    end in
  let confidence :=
    if includes " and " text && includes " then " text
    then Double.sub confidence (Double.round (2 # 10)) else confidence in
  let confidence :=
    if (20 <? List.length (splitSpace text))%nat
    then Double.sub confidence (Double.round (15 # 100)) else confidence in
  let confidence :=
    if (3 <? countAll false (Chr ",") text)%nat
    then Double.sub confidence (Double.round (1 # 10)) else confidence in
  qmax 0 (qmin 1 confidence).

(** The three [multiTaskIndicators].  The first alternative of the third
    is a three-character text with a code unit above 255, which no text
    of the model holds. *)
Definition multiTaskIndicators : list regex :=
  [ wordOf ["first"; "then"; "after that"; "also"; "and then"; "next";
            "finally"];
    Seq (plus isDigit) (Seq (Chr ")") (Cls isSpace));
    Alt (Cls (fun _ => false)) (Seq (Chr "-") (Cls isSpace)) ].

Definition taskVerbs : list string :=
  actionVerbs ++ ["prepare"; "schedule"].

Definition detectsMultipleTasks (input : string) : bool :=
  let text := toLowerCase input in
  let score :=
    fold_left (fun score pattern => (score + countAll false pattern text)%nat)
              multiTaskIndicators O in
  let andCount := countAll false (word "and") text in
  let verbCount := countAll false (wordOf taskVerbs) text in
  let score :=
    if (2 <=? andCount)%nat && (2 <=? verbCount)%nat then (score + 2)%nat
    else score in
  (2 <=? score)%nat.

Definition vaguePatterns : list regex :=
  [ Seq Bos (Seq (Grp 1 (alts [Str "something"; Str "stuff";
                               Seq (Str "thing") (Opt (Chr "s"));
                               Str "that thing"]))
                 WordB);
    wordOf ["maybe"; "probably"; "might"; "could"; "not sure"; "i think"];
    Seq (Chr "?") (Seq (star isSpace) Eos) ].

Definition isAmbiguous (input : string) : bool :=
  let text := toLowerCase input in
  existsb (fun pattern => test false pattern text) vaguePatterns.

Definition decideParsingStrategy (cfg : Config) (st : State)
    (input : string) (voiceDurationSeconds : Q) (forceCloud : bool)
    (isCoachMode : bool) : Decision :=
  if isCoachMode then
    {| strategy := Cloud; decConfidence := 0; reason := "coach_mode" |}
  else if forceCloud then
    {| strategy := Cloud; decConfidence := 0; reason := "forced" |}
  else if negb (Qle_bool voiceDurationSeconds
                         (voiceLengthThresholdSeconds cfg)) then
    {| strategy := Cloud; decConfidence := 0; reason := "long_voice_input" |}
  else
    match
      match findMatchingPattern st input with
      | Some (_, c) =>
          if Qle_bool (minConfidenceForLocal cfg) c then Some c else None
      | None => None
      end
    with
    | Some c =>
        {| strategy := Local; decConfidence := c;
           reason := "learned_pattern" |}
    | None =>
        let localConfidence := estimateLocalConfidence st input in
        if Qle_bool (minConfidenceForLocal cfg) localConfidence then
          {| strategy := Local; decConfidence := localConfidence;
             reason := "high_local_confidence" |}
        else if detectsMultipleTasks input then
          {| strategy := Cloud; decConfidence := localConfidence;
             reason := "multiple_tasks" |}
        else if isAmbiguous input then
          {| strategy := Cloud; decConfidence := localConfidence;
             reason := "ambiguous" |}
        else if (List.length (splitSpace input) <? 10)%nat then
          {| strategy := Local; decConfidence := 6 # 10;
             reason := "short_simple_input" |}
        else
          {| strategy := Cloud; decConfidence := localConfidence;
             reason := "uncertain" |}
    end.

(** ** Main entry point *)

Record Options : Type :=
  { voiceDurationSeconds : Q; forceCloud : bool; isCoachMode : bool }.

(** [options = {}] *)
Definition noOptions : Options :=
  {| voiceDurationSeconds := 0; forceCloud := false; isCoachMode := false |}.

Definition tagged (by_ : string) (conf : option Q) (limited : bool)
    (t : Task) : Task :=
  {| taskId := taskId t; taskName := taskName t;
     taskProject := taskProject t; deadline := deadline t;
     taskChunks := taskChunks t; completed := completed t;
     taskCreatedAt := taskCreatedAt t;
     parsedBy := Some by_;
     confidence := match conf with Some c => Some c | None => confidence t end;
     rateLimited := limited || rateLimited t |}.

Definition bumpStats (f : Stats -> Stats) (st : State) : State :=
  withStats (f (userStats st)) st.

(** A task as the learning loop reads it. *)
Definition asClaudeResult (t : Task) : ClaudeResult :=
  {| crName := Some (taskName t); crProject := taskProject t;
     crChunks := Some (taskChunks t) |}.

Definition parseTask (cfg : Config) (env : Env) (input : string)
    (options : Options) : M Task :=
  _ <- update (bumpStats (fun s =>
         {| totalInputs := Double.increment (totalInputs s);
            localParses := localParses s; cloudParses := cloudParses s |})) ;;
  decision <- reading (fun st =>
    decideParsingStrategy cfg st input (voiceDurationSeconds options)
      (forceCloud options) (isCoachMode options)) ;;
  result <-
    match strategy decision with
    | Local =>
        result <- parseLocally env input ;;
        _ <- update (bumpStats (fun s =>
               {| totalInputs := totalInputs s;
                  localParses := Double.increment (localParses s);
                  cloudParses := cloudParses s |})) ;;
        ret (tagged "local" (Some (decConfidence decision)) false result)
    | Cloud =>
        allowed <- reading (canMakeApiCall cfg) ;;
        if negb allowed then
          result <- parseLocally env input ;;
          ret (tagged "local_fallback" None true result)
        else
          result <- parseWithClaude env input (isCoachMode options) ;;
          let result := tagged "claude" None false result in
          _ <- learnFromClaudeResponse env input (asClaudeResult result) ;;
          _ <- update incrementApiCalls ;;
          _ <- update (bumpStats (fun s =>
                 {| totalInputs := totalInputs s;
                    localParses := localParses s;
                    cloudParses := Double.increment (cloudParses s) |})) ;;
          ret result
    end ;;
  _ <- update saveUserStats ;;
  ret result.

(** ** Backup *)

(** The object [exportPatterns] builds and [importPatterns] reads; a
    field that is absent is [None]. *)
Record Backup : Type :=
  { patterns : option (list Pattern);
    projects : option (list Project);
    exportedAt : option Z }.

Definition exportPatterns (env : Env) (st : State) : Backup :=
  {| patterns := Some (learnedPatterns st);
     projects := Some (userProjects st);
     exportedAt := Some (now env) |}.

Definition importPatterns (env : Env) (data : Backup) (st : State) : State :=
  let st1 :=
    match patterns data with
    | Some ps =>
        emit (EvSave "neurodone_patterns")
             (withPatterns (learnedPatterns st ++ ps) st)
    | None => st
    end in
  match projects data with
  | Some ps => fold_left (fun st p => learnProject env (name p) st) ps st1
  | None => st1
  end.

End NeurodoneAI.

(** ** The request handler of [parse-task.js] *)

Module ParseTaskApi.
Import Js.

Local Open Scope Z_scope.

Definition RATE_LIMIT : Z := 30.
Definition RATE_LIMIT_WINDOW : Z := 24 * 60 * 60 * 1000.

Record UserLimit : Type := { count : Z; timestamp : Z }.

(** [rateLimitMap], a [Map] from user id to its counter. *)
Definition RateLimitMap : Type := list (string * UserLimit).

Fixpoint mapGet (k : string) (m : RateLimitMap) : option UserLimit :=
  match m with
  | [] => None
  | (k', v) :: m' => if String.eqb k k' then Some v else mapGet k m'
  end.

Fixpoint mapSet (k : string) (v : UserLimit) (m : RateLimitMap)
  : RateLimitMap :=
  match m with
  | [] => [(k, v)]
  | (k', v') :: m' =>
      if String.eqb k k' then (k, v) :: m' else (k', v') :: mapSet k v m'
  end.

Record RateLimit : Type := { allowed : bool; remaining : Z }.

Definition checkRateLimit (nowMs : Z) (userId : string) (m : RateLimitMap)
  : RateLimit * RateLimitMap :=
  match mapGet userId m with
  | None =>
      ({| allowed := true; remaining := RATE_LIMIT - 1 |},
       mapSet userId {| count := 1; timestamp := nowMs |} m)
  | Some userLimit =>
      if nowMs - timestamp userLimit >? RATE_LIMIT_WINDOW then
        ({| allowed := true; remaining := RATE_LIMIT - 1 |},
         mapSet userId {| count := 1; timestamp := nowMs |} m)
      else if count userLimit >=? RATE_LIMIT then
        ({| allowed := false; remaining := 0 |}, m)
      else
        ({| allowed := true;
            remaining := RATE_LIMIT - (count userLimit + 1) |},
         mapSet userId {| count := count userLimit + 1;
                          timestamp := timestamp userLimit |} m)
  end.

(** The JSON body of a request; a field that is absent is [None]. *)
Record Body : Type := { text : option string; userId : option string }.

(** A request: its method and its body ([None]: not JSON). *)
Record Request : Type := { method : string; body : option Body }.

(** The answer of the model provider to a prompt: a status that is not
    2xx, a text that is not a task object with a [chunks] array, or such
    an object. *)
Inductive Provider : Type :=
| NotOk
| Unusable
| Parsed (task : NeurodoneAI.TaskData).

Inductive Payload : Type :=
| NoBody
| ErrorBody (error : string)
| TaskBody (task : NeurodoneAI.TaskData) (rateLimitRemaining : Z).

Record Response : Type := { status : Z; payload : Payload }.

(** The handler: the response, the rate-limit map afterwards, and the
    texts sent to the model provider. *)
Definition handler (nowMs : Z) (provider : string -> Provider)
    (req : Request) (m : RateLimitMap)
  : Response * RateLimitMap * list string :=
  if String.eqb (method req) "OPTIONS" then
    ({| status := 200; payload := NoBody |}, m, [])
  else if negb (String.eqb (method req) "POST") then
    ({| status := 405; payload := ErrorBody "Method not allowed" |}, m, [])
  else
    match body req with
    | None =>
        ({| status := 500; payload := ErrorBody "Failed to parse task" |},
         m, [])
    | Some b =>
        let invalid :=
          match text b with
          | None => true
          | Some t =>
              String.eqb t "" || (String.length (trim t) =? 0)%nat
          end in
        if invalid then
          ({| status := 400; payload := ErrorBody "No text provided" |},
           m, [])
        else
          let t := match text b with Some t => t | None => "" end in
          let uid := match userId b with Some u => u | None => "anonymous" end in
          let (rateLimit, m') := checkRateLimit nowMs uid m in
          if negb (allowed rateLimit) then
            ({| status := 429;
                payload := ErrorBody
                  "Daily limit reached. Upgrade to Pro for unlimited tasks!" |},
             m', [])
          else
            match provider t with
            | NotOk =>
                ({| status := 500;
                    payload := ErrorBody "AI processing failed" |}, m', [t])
            | Unusable =>
                ({| status := 500;
                    payload := ErrorBody "Failed to parse task" |}, m', [t])
            | Parsed task =>
                ({| status := 200;
                    payload := TaskBody task (remaining rateLimit) |},
                 m', [t])
            end
    end.

End ParseTaskApi.

(** * Vocabulary of the properties *)

Module Spec.
Import Js Re JsDate NeurodoneAI.

Local Open Scope Z_scope.
Local Open Scope list_scope.

(** A store in the order [sort((a, b) => b.useCount - a.useCount)]
    leaves it in. *)
Definition descending (l : list Pattern) : Prop :=
  StronglySorted (fun a b => (useCount b <= useCount a)%Z) l.

(** A run of learning calls, each with its own clock and identifiers;
    the caller goes on after a call that raises. *)
Definition learnAll (calls : list (Env * string * ClaudeResult)) (st : State)
  : State :=
  fold_left (fun st c =>
               snd (learnFromClaudeResponse (fst (fst c)) (snd (fst c))
                      (snd c) st))
            calls st.

(** ** The similarity rule as the specification words it

    Tokens on white space, and the size of the intersection of the two
    token multisets over the larger token count. *)

Definition tokens (s : string) : list string :=
  filter (fun w => negb (String.eqb w "")) (splitWs s).

Fixpoint removeOne (w : string) (l : list string) : option (list string) :=
  match l with
  | [] => None
  | x :: l' =>
      if String.eqb w x then Some l'
      else option_map (cons x) (removeOne w l')
  end.

Fixpoint multisetInter (xs ys : list string) : nat :=
  match xs with
  | [] => O
  | x :: xs' =>
      match removeOne x ys with
      | Some ys' => S (multisetInter xs' ys')
      | None => multisetInter xs' ys
      end
  end.

Definition specSimilarity (a b : string) : Q :=
  inject_Z (Z.of_nat (multisetInter (tokens a) (tokens b)))
  / inject_Z (Z.of_nat (Nat.max (List.length (tokens a))
                                (List.length (tokens b)))).

Definition specAccepts (a b : string) : bool :=
  Qle_bool (7 # 10) (specSimilarity a b).

(** [t] is the next occurrence of weekday [w] strictly after the day of
    [nowT], at the time of day of [nowT]. *)
Definition nextOccurrence (nowT w t : Z) : Prop :=
  (Day nowT < Day t <= Day nowT + 7)%Z
  /\ getDay t = w
  /\ TimeWithinDay t = TimeWithinDay nowT.

(** Tomorrow falls in the month of today. *)
Definition tomorrowSameMonth (nowT : Z) : Prop :=
  YearFromDay (Day nowT + 1) = YearFromDay (Day nowT)
  /\ MonthFromDay (Day nowT + 1) = MonthFromDay (Day nowT).

(** A clock reading from 1970 on that leaves a week before the last
    time value a [Date] can hold. *)
Definition clockInRange (nowT : Z) : Prop :=
  (0 <= nowT <= 8640000000000000 - 7 * msPerDay)%Z.

(** ** Sample inputs *)

(** Monday 2 November 2026, 12:00 UTC. *)
Definition monday2Nov2026 : Z := 20759 * msPerDay + 43200000.

(** Saturday 31 January 2026, 12:00 UTC. *)
Definition saturday31Jan2026 : Z := 20484 * msPerDay + 43200000.

(** An environment whose remote endpoint is unreachable. *)
Definition offlineAt (t : Z) : Env :=
  {| now := t; ids := fun _ => "k3x9q2m7a"; remote := fun _ _ => None |}.

Definition sampleEnv : Env := offlineAt monday2Nov2026.

(** [{project: "Groceries", chunks: ["Go to store"]}] *)
Definition groceriesText : ClaudeResult :=
  {| crName := None; crProject := "Groceries";
     crChunks := Some [ChunkStr "Go to store"] |}.

(** [{project: "Groceries", chunks: [{name: "Go to store"}]}] *)
Definition groceriesObj : ClaudeResult :=
  {| crName := None; crProject := "Groceries";
     crChunks :=
       Some [ChunkObj {| chunkId := None; chunkName := Some "Go to store";
                         chunkCompleted := false; chunkOrder := None |}] |}.

Definition groceriesInput : string := "buy milk for groceries project".

Definition samplePattern : Pattern :=
  newPattern sampleEnv "k3x9q2m7a" groceriesInput groceriesObj
    [Some "Go to store"].

(** An engine that has learned the groceries pattern once. *)
Definition groceriesState : State := withPatterns [samplePattern] freshState.

Definition withUseCount (n : Z) (p : Pattern) : Pattern :=
  {| id := id p; normalized := normalized p;
     originalInput := originalInput p;
     taskNameTemplate := taskNameTemplate p;
     projectPattern := projectPattern p;
     defaultProject := defaultProject p;
     chunks := chunks p;
     createdAt := createdAt p;
     useCount := n;
     successRate := successRate p |}.

(** An engine whose stored groceries pattern has the count 2^53, as a
    store read back from [localStorage] or imported may hold it. *)
Definition saturatedState : State :=
  withPatterns [withUseCount 9007199254740992 samplePattern] freshState.

(** A free-tier engine that has used its five remote calls of the day. *)
Definition exhaustedState : State := withApiCalls 5 freshState.

Definition forceCloudOptions : Options :=
  {| voiceDurationSeconds := 0; forceCloud := true; isCoachMode := false |}.

(** The state in which [parseTask] takes its decision: the input has
    been counted. *)
Definition counted (st : State) : State :=
  bumpStats (fun s =>
    {| totalInputs := Double.increment (totalInputs s);
       localParses := localParses s; cloudParses := cloudParses s |}) st.

(** The state after a local parse, and after a remote one, has been
    counted. *)
Definition countedLocal (st : State) : State :=
  bumpStats (fun s =>
    {| totalInputs := totalInputs s;
       localParses := Double.increment (localParses s);
       cloudParses := cloudParses s |}) st.

Definition countedCloud (st : State) : State :=
  bumpStats (fun s =>
    {| totalInputs := totalInputs s;
       localParses := localParses s;
       cloudParses := Double.increment (cloudParses s) |}) st.

(** The remote calls among the effects of a state. *)
Definition fetches (st : State) : list Event :=
  filter (fun e => match e with EvFetch _ _ => true | EvSave _ => false end)
         (events st).

(** A call that makes no remote call. *)
Definition quiet {A} (m : M A) : Prop :=
  forall st, fetches (snd (m st)) = fetches st.

(** A text that is missing, empty or white space only. *)
Definition blank (t : option string) : Prop :=
  match t with
  | None => True
  | Some s => allSpace s = true
  end.

Definition post (b : ParseTaskApi.Body) : ParseTaskApi.Request :=
  {| ParseTaskApi.method := "POST"; ParseTaskApi.body := Some b |}.

(** ** Projects, frames and the rate limiter *)

Definition keyOf (projectName : string) : string :=
  trim (toLowerCase projectName).

Fixpoint usageOf (k : string) (ps : list Project) : Z :=
  match ps with
  | [] => 0
  | p :: ps' =>
      if String.eqb (projNormalized p) k then usageCount p
      else usageOf k ps'
  end.

Definition used (p : Project) : Project :=
  {| name := name p; projNormalized := projNormalized p;
     usageCount := Double.increment (usageCount p);
     projCreatedAt := projCreatedAt p |}.

Definition keyed (ps : list Project) : Prop :=
  Forall (fun p => projNormalized p = keyOf (name p)) ps
  /\ NoDup (map projNormalized ps).

Definition imported (data : Backup) : list Pattern :=
  match patterns data with Some ps => ps | None => [] end.

Definition plainOptions (v : Q) : Options :=
  {| voiceDurationSeconds := v; forceCloud := false; isCoachMode := false |}.

Definition dailyLimit (cfg : Config) : Z :=
  if isPaidUser cfg then maxPaidCallsPerDay cfg else maxFreeCallsPerDay cfg.

(** A call that leaves a component of the state as it was. *)
Definition keeps {X A} (f : State -> X) (m : M A) : Prop :=
  forall st, f (snd (m st)) = f st.

(** A component of the state that drawing an identifier, logging an
    effect and learning a project leave as it was. *)
Definition offside {X} (f : State -> X) : Prop :=
  (forall env st, f (snd (generateId env st)) = f st)
  /\ (forall e st, f (emit e st) = f st)
  /\ (forall env n st, f (learnProject env n st) = f st).

(** Every task a call returns satisfies [P]. *)
Definition yields {A} (m : M A) (P : A -> Prop) : Prop :=
  forall st a st', m st = (Ok a, st') -> P a.

(** A task as [formatTaskResult] builds it. *)
Definition fresh (env : Env) (t : Task) : Prop :=
  taskName t <> "" /\ taskProject t <> "" /\ completed t = false
  /\ taskCreatedAt t = now env /\ parsedBy t = None /\ confidence t = None
  /\ rateLimited t = false.

(** A run of rate-limit checks for one user, at the given times. *)
Fixpoint checksAt (times : list Z) (userId : string)
    (m : ParseTaskApi.RateLimitMap)
  : list ParseTaskApi.RateLimit * ParseTaskApi.RateLimitMap :=
  match times with
  | [] => ([], m)
  | t :: times' =>
      let (r, m1) := ParseTaskApi.checkRateLimit t userId m in
      let (rs, m2) := checksAt times' userId m1 in
      (r :: rs, m2)
  end.

(** The user has no counter, or one whose window is over at [t]. *)
Definition windowOver (t : Z) (userId : string)
    (m : ParseTaskApi.RateLimitMap) : Prop :=
  match ParseTaskApi.mapGet userId m with
  | None => True
  | Some e => (t - ParseTaskApi.timestamp e > ParseTaskApi.RATE_LIMIT_WINDOW)%Z
  end.

(** The user a request is counted for. *)
Definition userOf (b : ParseTaskApi.Body) : string :=
  match ParseTaskApi.userId b with Some u => u | None => "anonymous" end.

(** The chunk made of the [k]-th name, [drawn] identifiers having been
    drawn before the list. *)
Definition chunkAt (env : Env) (drawn : nat) (k : nat) (n : option string)
  : JsChunk :=
  ChunkObj {| chunkId := Some (ids env (drawn + k)%nat); chunkName := n;
              chunkCompleted := false; chunkOrder := Some (Z.of_nat k) |}.

(** An engine that has learned the groceries pattern and the project
    [Acme] once. *)
Definition acmeState : State := learnProject sampleEnv "Acme" groceriesState.

End Spec.

(** ** The structure of a text: words, and the stages of the normalizer

    The vocabulary of the proofs about [normalizeForMatching].  A word is
    a maximal run of word characters.  [wordMap] and [collapseMap] say
    what the word-bounded substitutions and the white-space substitution
    of the normalizer do, without the matcher. *)

Module Tokens.
Import Js Re NeurodoneAI.

Local Open Scope string_scope.
Local Open Scope list_scope.

(** The text starts with a word character. *)
Definition wordHead (s : string) : bool :=
  match s with String c _ => isWord c | EmptyString => false end.

(** The character before the position is a word character. *)
Definition wordBeforeO (pv : option ascii) : bool :=
  match pv with Some c => isWord c | None => false end.

(** The run of word characters the text starts with. *)
Fixpoint headWord (s : string) : string :=
  match s with
  | String c s' => if isWord c then String c (headWord s') else EmptyString
  | EmptyString => EmptyString
  end.

(** The words that start in [s]; with [inWord], [s] starts inside a word,
    whose rest is not counted. *)
Fixpoint toksFrom (inWord : bool) (s : string) : list string :=
  match s with
  | EmptyString => []
  | String c s' =>
      if isWord c then
        if inWord then toksFrom true s' else headWord s :: toksFrom true s'
      else toksFrom false s'
  end.

(** Where a scan is: outside a word, in a word it copies, or in a word
    it has replaced. *)
Inductive Mode : Type := Out | Keep | Drop.

(** Every word that [sel] picks replaced by [rep], the rest copied. *)
Fixpoint wordMap (sel : string -> bool) (rep : string) (m : Mode)
    (s : string) : string :=
  match s with
  | EmptyString => EmptyString
  | String c s' =>
      if isWord c then
        match m with
        | Out => if sel (headWord s) then (rep ++ wordMap sel rep Drop s')%string
                 else String c (wordMap sel rep Keep s')
        | Keep => String c (wordMap sel rep Keep s')
        | Drop => wordMap sel rep Drop s'
        end
      else String c (wordMap sel rep Out s')
  end.

Definition inWordOf (m : Mode) : bool :=
  match m with Out => false | Keep => true | Drop => true end.

(** Every run of white space replaced by one space; with [inRun], [s]
    starts inside a run already replaced. *)
Fixpoint collapseMap (inRun : bool) (s : string) : string :=
  match s with
  | EmptyString => EmptyString
  | String c s' =>
      if isSpace c then
        if inRun then collapseMap true s'
        else String " " (collapseMap true s')
      else String c (collapseMap false s')
  end.

(** [r] matches at no position of [s], the character before [s] being
    [pv]. *)
Fixpoint noMatchFrom (r : regex) (pv : option ascii) (s : string) : Prop :=
  matchAt false r pv s = None
  /\ match s with
     | String c s' => noMatchFrom r (Some c) s'
     | EmptyString => True
     end.

Fixpoint hasChar (x : ascii) (s : string) : bool :=
  match s with
  | EmptyString => false
  | String c s' => Ascii.eqb x c || hasChar x s'
  end.

Fixpoint allChars (p : ascii -> bool) (s : string) : bool :=
  match s with
  | EmptyString => true
  | String c s' => p c && allChars p s'
  end.

(** The character before the position that follows the literal [w]. *)
Fixpoint lastOr (pv : option ascii) (w : string) : option ascii :=
  match w with
  | EmptyString => pv
  | String c w' => lastOr (Some c) w'
  end.

(** The matcher's position after the literal [w]. *)
Definition stepOver (w : string) (st : mstate) : mstate :=
  {| prev := lastOr (prev st) w;
     rest := skipStr (String.length w) (rest st);
     caps := caps st |}.

Fixpoint firstSome {A B} (f : A -> option B) (l : list A) : option B :=
  match l with
  | [] => None
  | x :: l' => orElse (f x) (firstSome f l')
  end.

(** The alternative of [\b(w1|...|wn)\b] that matches at a position. *)
Definition hit (ws : list string) (pv : option ascii) (t : string)
  : option string :=
  if xorb (wordBeforeO pv) (wordHead t) then
    firstSome (fun w =>
                 if startsWith w t
                    && xorb (wordBeforeO (lastOr pv w))
                            (wordHead (skipStr (String.length w) t))
                 then Some w else None) ws
  else None.

(** The length of the match of [r] at a position. *)
Definition lenAt (r : regex) (pv : option ascii) (t : string) : option nat :=
  option_map fst (matchAt false r pv t).

(** A pattern that matches whole words only: at the start of a word that
    [sel] picks, over its full length. *)
Definition tokenRegex (sel : string -> bool) (r : regex) : Prop :=
  forall pv t,
    lenAt r pv t
    = if negb (wordBeforeO pv) && wordHead t && sel (headWord t)
      then Some (String.length (headWord t)) else None.

(** The number of white-space characters the text starts with. *)
Fixpoint leadSpaces (s : string) : nat :=
  match s with
  | String c s' => if isSpace c then S (leadSpaces s') else O
  | EmptyString => O
  end.

(** Non-empty alternatives made of word characters. *)
Definition simpleWords (ws : list string) : Prop :=
  Forall (fun w => allChars isWord w = true /\ w <> EmptyString) ws.

(** The continuation [\b] of a pattern that ends with it. *)
Definition boundaryThen (st : mstate) : option mstate :=
  if xorb (wordBefore st) (wordAfter st) then Some st else None.

(** What [/[^\w\s]/g -> ' '] does to a character. *)
Definition clean (c : ascii) : ascii :=
  if negb (isWord c || isSpace c) then " "%char else c.

(** The character every placeholder starts with. *)
Definition mark : ascii := "["%char.

(** A character of a normalized text that holds no placeholder. *)
Definition lowPlain (c : ascii) : bool :=
  (isWord c || isSpace c) && negb (isUpper c).

(** Every white-space character is a single space that follows no
    white space. *)
Fixpoint spacedFrom (afterSpace : bool) (s : string) : bool :=
  match s with
  | EmptyString => true
  | String c s' =>
      if isSpace c
      then negb afterSpace && Ascii.eqb c " " && spacedFrom true s'
      else spacedFrom false s'
  end.

(** [p] starts at no position of [s]. *)
Fixpoint avoids (p : string) (s : string) : Prop :=
  startsWith p s = false
  /\ match s with
     | String _ s' => avoids p s'
     | EmptyString => True
     end.

(** [s] is a run of between [lo] and [hi] decimal digits. *)
Definition digits (lo hi : nat) (s : string) : Prop :=
  allChars isDigit s = true /\ (lo <= String.length s <= hi)%nat.

(** The text does not start with white space. *)
Definition noLead (s : string) : Prop :=
  match s with String c _ => isSpace c = false | EmptyString => True end.

Definition isTimeWord (w : string) : bool :=
  arrIncludes w ["today"; "tomorrow"].

Definition isStop (w : string) : bool := arrIncludes w stopwords.
Definition isDay (w : string) : bool := arrIncludes w dayNames.
Definition isNumber (w : string) : bool := allChars isDigit w.

End Tokens.

(** * Properties *)

Import Js Re JsDate NeurodoneAI Spec Tokens.

Local Open Scope Z_scope.
Local Open Scope list_scope.

(** ** Strategy selector *)

(** C5.  With [isCoachMode] set, [decideParsingStrategy] answers cloud with
    reason [coach_mode] whatever the input, the duration and [forceCloud]
    are; with [isCoachMode] and [forceCloud] both unset and a voice
    duration strictly above the configured threshold, it answers cloud
    with reason [long_voice_input].  The threshold of the default
    configuration is 15 seconds. *)
Theorem decide_top_rules :
  forall (cfg : Config) (st : State) (x : string) (d : Q) (force : bool),
    (decideParsingStrategy cfg st x d force true
     = {| strategy := Cloud; decConfidence := 0; reason := "coach_mode" |})
    /\ ((voiceLengthThresholdSeconds cfg < d)%Q ->
        decideParsingStrategy cfg st x d false false
        = {| strategy := Cloud; decConfidence := 0;
             reason := "long_voice_input" |})
    /\ voiceLengthThresholdSeconds defaultConfig = 15 # 1.
Proof.
  intros cfg st x d force. split; [reflexivity | split; [| reflexivity]].
  intros Hlt. unfold decideParsingStrategy.
  assert (Hle : Qle_bool d (voiceLengthThresholdSeconds cfg) = false).
  { destruct (Qle_bool d (voiceLengthThresholdSeconds cfg)) eqn:E; auto.
    apply Qle_bool_iff in E. exfalso. exact (Qlt_not_le _ _ Hlt E). }
  rewrite Hle. reflexivity.
Qed.

Lemma decide_top_rules_witness :
  decideParsingStrategy defaultConfig freshState "buy milk" (20 # 1)
    false false
  = {| strategy := Cloud; decConfidence := 0; reason := "long_voice_input" |}.
Proof.
  apply (proj1 (proj2 (decide_top_rules defaultConfig freshState "buy milk"
                         (20 # 1) false))).
  reflexivity.
Defined.

(** ** Pattern store: lists *)

Section ListFacts.

Context {A : Type}.

Lemma findIndex_Some (f : A -> bool) (l : list A) (i : nat) :
  findIndex f l = Some i ->
  exists l1 x l2,
    l = l1 ++ x :: l2 /\ List.length l1 = i /\ f x = true
    /\ Forall (fun y => f y = false) l1.
Proof.
  revert i. induction l as [| a l IH]; intros i H; simpl in H.
  - discriminate.
  - destruct (f a) eqn:Fa.
    + inversion H; subst. exists [], a, l. repeat split; auto.
    + destruct (findIndex f l) as [j |] eqn:E; simpl in H; [| discriminate].
      inversion H; subst.
      destruct (IH j eq_refl) as (l1 & x & l2 & -> & Hlen & Hx & Hall).
      exists (a :: l1), x, l2. repeat split; simpl; auto.
Qed.

Lemma findIndex_None (f : A -> bool) (l : list A) :
  findIndex f l = None <-> Forall (fun y => f y = false) l.
Proof.
  induction l as [| a l IH]; simpl.
  - split; auto.
  - destruct (f a) eqn:Fa.
    + split; [discriminate |]. intros H. inversion H; subst. congruence.
    + destruct (findIndex f l); simpl.
      * split; [discriminate |]. intros H. inversion H; subst.
        apply IH in H3. discriminate.
      * split; auto. intros _. constructor; auto. apply IH. reflexivity.
Qed.

Lemma updateAt_app (g : A -> A) (l1 : list A) (x : A) (l2 : list A) :
  updateAt (List.length l1) g (l1 ++ x :: l2) = l1 ++ g x :: l2.
Proof. induction l1; simpl; congruence. Qed.

Lemma skipn_In (n : nat) (l : list A) (x : A) :
  In x (skipn n l) -> In x l.
Proof.
  intros H. rewrite <- (firstn_skipn n l). apply in_or_app. right. exact H.
Qed.

Lemma updateAt_length (g : A -> A) (i : nat) (l : list A) :
  List.length (updateAt i g l) = List.length l.
Proof.
  revert i. induction l; intros [| i]; simpl; auto.
Qed.

End ListFacts.

(** ** Pattern store: the sort and the cap *)

Lemma insertByUse_perm (p : Pattern) (l : list Pattern) :
  Permutation (p :: l) (insertByUse p l).
Proof.
  induction l as [| q l IH]; simpl.
  - apply Permutation_refl.
  - destruct (useCount q <=? useCount p)%Z.
    + apply Permutation_refl.
    + eapply Permutation_trans; [apply perm_swap |].
      apply perm_skip. exact IH.
Qed.

Lemma sortByUse_perm (l : list Pattern) : Permutation l (sortByUse l).
Proof.
  induction l as [| p l IH]; simpl.
  - apply Permutation_refl.
  - eapply Permutation_trans; [apply perm_skip; exact IH |].
    apply insertByUse_perm.
Qed.

Lemma insertByUse_sorted (p : Pattern) (l : list Pattern) :
  descending l -> descending (insertByUse p l).
Proof.
  unfold descending. induction l as [| q l IH]; intros Hs; simpl.
  - constructor; constructor.
  - inversion Hs as [| ? ? Hl Hq]; subst.
    destruct (useCount q <=? useCount p)%Z eqn:E.
    + apply Z.leb_le in E. constructor; [exact Hs |].
      constructor; [exact E |].
      eapply Forall_impl; [| exact Hq]. simpl. intros. lia.
    + apply Z.leb_gt in E. constructor; [apply IH; exact Hl |].
      eapply Permutation_Forall; [apply insertByUse_perm |].
      constructor; [lia | exact Hq].
Qed.

Lemma sortByUse_sorted (l : list Pattern) : descending (sortByUse l).
Proof.
  induction l as [| p l IH]; simpl.
  - constructor.
  - apply insertByUse_sorted. exact IH.
Qed.

Lemma descending_split (n : nat) (l : list Pattern) :
  descending l ->
  forall kept gone, In kept (firstn n l) -> In gone (skipn n l) ->
                    (useCount gone <= useCount kept)%Z.
Proof.
  unfold descending. revert n. induction l as [| q l IH]; intros n Hs kept gone.
  - rewrite firstn_nil. intros [].
  - inversion Hs as [| ? ? Hl Hq]; subst. destruct n as [| n]; simpl.
    + intros [].
    + intros [<- | Hk] Hg.
      * rewrite Forall_forall in Hq. apply Hq.
        eapply skipn_In. exact Hg.
      * eapply IH; eauto.
Qed.

Lemma enforceCap_length (ps : list Pattern) :
  (List.length ps <= 101 ->
   List.length (enforceCap ps) <= 100)%nat.
Proof.
  intros H. unfold enforceCap.
  destruct (100 <? List.length ps)%nat eqn:E.
  - rewrite length_firstn. lia.
  - apply Nat.ltb_ge in E. exact E.
Qed.

Lemma insertOrMerge_length (p : Pattern) (ps : list Pattern) :
  (List.length (insertOrMerge p ps) <= S (List.length ps))%nat.
Proof.
  unfold insertOrMerge.
  destruct (findIndex _ ps).
  - rewrite updateAt_length. lia.
  - rewrite length_app. simpl. lia.
Qed.

(** A learning call returns when every chunk name can be read, and then
    leaves the store merged or extended, and capped; it raises when a
    read raises, and then leaves the store as it was. *)
Lemma learn_patterns (env : Env) (input : string) (cr : ClaudeResult)
    (st : State) :
  match learnedNames cr with
  | Ok names =>
      fst (learnFromClaudeResponse env input cr st) = Ok tt
      /\ learnedPatterns (snd (learnFromClaudeResponse env input cr st))
         = enforceCap
             (insertOrMerge
                (newPattern env (ids env (idCount st)) input cr names)
                (learnedPatterns st))
  | Raised e =>
      fst (learnFromClaudeResponse env input cr st) = Raised e
      /\ learnedPatterns (snd (learnFromClaudeResponse env input cr st))
         = learnedPatterns st
  end.
Proof.
  unfold learnFromClaudeResponse, bind, total, lift, update, generateId.
  destruct (learnedNames cr); split; reflexivity.
Qed.

Lemma learn_keeps_cap (env : Env) (input : string) (cr : ClaudeResult)
    (st : State) :
  (List.length (learnedPatterns st) <= 100)%nat ->
  (List.length
     (learnedPatterns (snd (learnFromClaudeResponse env input cr st)))
   <= 100)%nat.
Proof.
  intros H. pose proof (learn_patterns env input cr st) as L.
  destruct (learnedNames cr) as [names | e]; destruct L as [_ ->].
  - apply enforceCap_length.
    pose proof (insertOrMerge_length
                  (newPattern env (ids env (idCount st)) input cr names)
                  (learnedPatterns st)).
    lia.
  - exact H.
Qed.

(** C2.  Starting from a store of at most 100 patterns, the store holds at
    most 100 patterns after every run of [learnFromClaudeResponse] calls.
    Each call that returns leaves the store as [enforceCap] of the merged
    or extended list (a call that raises on an unreadable chunk leaves
    the store as it was).  When that list is longer than 100 it is sorted
    descending by [useCount] and cut to its first 100 patterns: the
    patterns kept and the patterns removed are together a permutation of
    the list, and no removed pattern has a larger [useCount] than a kept
    one.  A list of at most 100 patterns is left as it is. *)
Theorem store_capacity :
  (forall calls st,
      (List.length (learnedPatterns st) <= 100)%nat ->
      (List.length (learnedPatterns (learnAll calls st)) <= 100)%nat)
  /\ (forall env input cr st,
         match learnedNames cr with
         | Ok names =>
             fst (learnFromClaudeResponse env input cr st) = Ok tt
             /\ learnedPatterns
                  (snd (learnFromClaudeResponse env input cr st))
                = enforceCap
                    (insertOrMerge
                       (newPattern env (ids env (idCount st)) input cr names)
                       (learnedPatterns st))
         | Raised e =>
             fst (learnFromClaudeResponse env input cr st) = Raised e
             /\ learnedPatterns
                  (snd (learnFromClaudeResponse env input cr st))
                = learnedPatterns st
         end)
  /\ (forall ps,
         (100 < List.length ps)%nat ->
         enforceCap ps = firstn 100 (sortByUse ps)
         /\ descending (sortByUse ps)
         /\ Permutation ps (enforceCap ps ++ skipn 100 (sortByUse ps))
         /\ forall kept gone,
              In kept (enforceCap ps) ->
              In gone (skipn 100 (sortByUse ps)) ->
              (useCount gone <= useCount kept)%Z)
  /\ (forall ps, (List.length ps <= 100)%nat -> enforceCap ps = ps).
Proof.
  split; [| split; [| split]].
  - intros calls. induction calls as [| c calls IH]; intros st H; simpl.
    + exact H.
    + apply IH. apply learn_keeps_cap. exact H.
  - intros. apply learn_patterns.
  - intros ps H.
    assert (E : enforceCap ps = firstn 100 (sortByUse ps)).
    { unfold enforceCap. apply Nat.ltb_lt in H. rewrite H. reflexivity. }
    rewrite E. split; [reflexivity |]. split; [apply sortByUse_sorted |].
    split.
    + rewrite firstn_skipn. apply sortByUse_perm.
    + apply descending_split. apply sortByUse_sorted.
  - intros ps H. unfold enforceCap.
    destruct (100 <? List.length ps)%nat eqn:E; [| reflexivity].
    apply Nat.ltb_lt in E. lia.
Qed.

Lemma store_capacity_witness :
  (List.length
     (learnedPatterns
        (learnAll [(sampleEnv, groceriesInput, groceriesObj)] freshState))
   <= 100)%nat
  /\ enforceCap (repeat samplePattern 101)
     = firstn 100 (sortByUse (repeat samplePattern 101))
  /\ enforceCap [samplePattern] = [samplePattern].
Proof.
  split; [| split].
  - apply (proj1 store_capacity). simpl. lia.
  - apply (proj1 (proj2 (proj2 store_capacity))). rewrite repeat_length. lia.
  - apply (proj2 (proj2 (proj2 store_capacity))). simpl. lia.
Defined.

(** Below 2^53 in magnitude the increment of a count is exact. *)
Lemma increment_safe (x : Z) :
  (Z.abs x < 2 ^ 53)%Z -> Double.increment x = (x + 1)%Z.
Proof.
  intros H. unfold Double.increment, Double.roundInt.
  destruct (Z.log2 (Z.abs (x + 1)) - 52 <=? 0)%Z eqn:E; [reflexivity |].
  apply Z.leb_gt in E.
  assert (Hy : (2 ^ 53 <= Z.abs (x + 1))%Z).
  { destruct (Z.lt_ge_cases (Z.abs (x + 1)) (2 ^ 53)) as [Hlt | Hge];
      [| exact Hge].
    destruct (Z.eq_dec (Z.abs (x + 1)) 0) as [H0 | H0].
    - rewrite H0 in E. simpl in E. lia.
    - apply Z.log2_lt_pow2 in Hlt; lia. }
  assert (Hx : x = (2 ^ 53 - 1)%Z) by lia.
  subst x. vm_compute. reflexivity.
Qed.




(** ** Pattern matcher *)

Lemma splitSpace_nonempty (s : string) : splitSpace s <> [].
Proof.
  induction s as [| c s IH]; simpl; [discriminate |].
  destruct (Ascii.eqb c " "); [discriminate |].
  destruct (splitSpace s); discriminate.
Qed.

Lemma countMatches_filter (wordsA wordsB : list string) :
  countMatches wordsA wordsB
  = Z.of_nat (List.length (filter (fun w => arrIncludes w wordsB) wordsA)).
Proof.
  unfold countMatches.
  assert (G : forall acc,
             fold_left (fun matches word =>
                          if arrIncludes word wordsB then (matches + 1)%Z
                          else matches) wordsA acc
             = (acc + Z.of_nat (List.length
                 (filter (fun w => arrIncludes w wordsB) wordsA)))%Z).
  { induction wordsA as [| w ws IH]; intros acc; simpl.
    - lia.
    - destruct (arrIncludes w wordsB); rewrite IH; simpl List.length; lia. }
  rewrite G. lia.
Qed.

Lemma ratio_ge_seven_tenths (m M : Z) :
  (0 < M)%Z ->
  Qle_bool (7 # 10) (inject_Z m / inject_Z M) = true <-> (7 * M <= 10 * m)%Z.
Proof.
  intros HM. rewrite Qle_bool_iff.
  destruct M as [| P | P]; try lia.
  unfold Qle, Qdiv, Qmult, Qinv, inject_Z. cbn [Qnum Qden].
  rewrite Pos.mul_1_l. lia.
Qed.

Lemma findMatchingPatternIn_first (n : string) (ps : list Pattern) :
  match findMatchingPatternIn n ps with
  | Some (p, c) =>
      exists before after,
        ps = before ++ p :: after
        /\ Forall (fun q => patternsMatch n (normalized q) = false) before
        /\ patternsMatch n (normalized p) = true
        /\ c = orDefault (successRate p) (8 # 10)
  | None => Forall (fun q => patternsMatch n (normalized q) = false) ps
  end.
Proof.
  induction ps as [| q ps IH]; simpl.
  - constructor.
  - destruct (patternsMatch n (normalized q)) eqn:E.
    + exists [], ps. repeat split; auto.
    + destruct (findMatchingPatternIn n ps) as [[p c] |].
      * destruct IH as (before & after & -> & Hb & Hp & Hc).
        exists (q :: before), after. repeat split; auto.
      * constructor; auto.
Qed.

(** C3, as the code has it.  [patternsMatch a b] splits both strings on
    single spaces and accepts exactly when the number of words of [a]
    that occur among the words of [b], every occurrence in [a] counted,
    is at least 0.7 times the larger of the two word counts.
    [findMatchingPattern] returns the first pattern of the store, in store
    order, whose key the normalized input matches, with the pattern's
    [successRate] (0.8 when it is 0) as confidence; it finds none exactly
    when no pattern matches. *)
Theorem patternsMatch_rule :
  (forall a b,
      patternsMatch a b = true <->
      (7 * Z.max (Z.of_nat (List.length (splitSpace a)))
                 (Z.of_nat (List.length (splitSpace b)))
       <= 10 * Z.of_nat
                 (List.length
                    (filter (fun w => arrIncludes w (splitSpace b))
                            (splitSpace a))))%Z)
  /\ (forall st input,
         match findMatchingPattern st input with
         | Some (p, c) =>
             exists before after,
               learnedPatterns st = before ++ p :: after
               /\ Forall (fun q => patternsMatch (normalizeForMatching input)
                                                 (normalized q) = false)
                         before
               /\ patternsMatch (normalizeForMatching input) (normalized p)
                  = true
               /\ c = orDefault (successRate p) (8 # 10)
         | None =>
             Forall (fun q => patternsMatch (normalizeForMatching input)
                                            (normalized q) = false)
                    (learnedPatterns st)
         end).
Proof.
  split.
  - intros a b. unfold patternsMatch, similarity.
    rewrite countMatches_filter. apply ratio_ge_seven_tenths.
    pose proof (splitSpace_nonempty a).
    destruct (splitSpace a); [congruence |]. simpl List.length. lia.
  - intros st input. apply findMatchingPatternIn_first.
Qed.

(** C3 as stated fails: the words of ["x x x"] all occur in ["x y z"], so
    the code accepts the pair, while the two token multisets share one
    token out of three. *)
Lemma patternsMatch_not_multiset :
  normalizeForMatching "x x x" = "x x x"
  /\ normalizeForMatching "x y z" = "x y z"
  /\ patternsMatch "x x x" "x y z" = true
  /\ specAccepts "x x x" "x y z" = false.
Proof. vm_compute. repeat split; reflexivity. Qed.

(** ** Learning round trip *)

Lemma findMatchingPatternIn_skip (n : string) (ps rest : list Pattern) :
  Forall (fun q => patternsMatch n (normalized q) = false) ps ->
  findMatchingPatternIn n (ps ++ rest) = findMatchingPatternIn n rest.
Proof.
  induction 1 as [| q ps Hq _ IH]; simpl; [reflexivity |].
  rewrite Hq. exact IH.
Qed.

(** C1 as stated fails: the learning loop reads [c.name] of every remote
    chunk, and a chunk given as the bare string ["Go to store"] has no
    such property, so the pattern found afterwards carries the list
    [[undefined]]. *)
Lemma roundtrip_text_chunks :
  option_map (fun r => (chunks (fst r), snd r))
    (findMatchingPattern
       (snd (learnFromClaudeResponse sampleEnv groceriesInput groceriesText
               freshState))
       groceriesInput)
  = Some ([None], 1%Q).
Proof. vm_compute. reflexivity. Qed.

(** C1, as the code has it.  Let the remote result be
    [{project: "Groceries", chunks: [{name: "Go to store"}]}] and let the
    store hold fewer than 100 patterns, none of which matches the key of
    ["buy milk for groceries project"] in either argument order (the
    empty store of a fresh engine is one).  After
    [learnFromClaudeResponse] on that input and result,
    [findMatchingPattern] on the same input returns a pattern with
    confidence 1, which is at least 0.7, and with the chunk list
    [["Go to store"]]. *)
Theorem roundtrip_learned :
  forall env st,
    (List.length (learnedPatterns st) < 100)%nat ->
    Forall (fun q =>
              patternsMatch (normalized q)
                            (normalizeForMatching groceriesInput) = false
              /\ patternsMatch (normalizeForMatching groceriesInput)
                               (normalized q) = false)
           (learnedPatterns st) ->
    exists p,
      findMatchingPattern
        (snd (learnFromClaudeResponse env groceriesInput groceriesObj st))
        groceriesInput
      = Some (p, 1%Q)
      /\ (7 # 10 <= 1)%Q
      /\ chunks p = [Some "Go to store"].
Proof.
  intros env st Hlen Hall.
  exists (newPattern env (ids env (idCount st)) groceriesInput groceriesObj
            [Some "Go to store"]).
  split; [| split; [discriminate | reflexivity]].
  unfold findMatchingPattern.
  pose proof (learn_patterns env groceriesInput groceriesObj st) as L.
  change (learnedNames groceriesObj)
    with (@Ok (list (option string)) [Some "Go to store"]) in L.
  cbv beta iota in L. destruct L as [_ L]. rewrite L.
  assert (E : insertOrMerge
                (newPattern env (ids env (idCount st)) groceriesInput
                   groceriesObj [Some "Go to store"]) (learnedPatterns st)
              = learnedPatterns st
                ++ [newPattern env (ids env (idCount st)) groceriesInput
                      groceriesObj [Some "Go to store"]]).
  { unfold insertOrMerge.
    replace (findIndex _ (learnedPatterns st)) with (@None nat);
      [reflexivity |].
    symmetry. apply findIndex_None.
    eapply Forall_impl; [| exact Hall]. simpl. intros q [H _]. exact H. }
  rewrite E. unfold enforceCap.
  replace (100 <? List.length (learnedPatterns st ++ _))%nat with false.
  2:{ symmetry. apply Nat.ltb_ge. rewrite length_app. simpl. lia. }
  rewrite findMatchingPatternIn_skip.
  2:{ eapply Forall_impl; [| exact Hall]. simpl. intros q [_ H]. exact H. }
  vm_compute. reflexivity.
Qed.

Lemma roundtrip_learned_witness :
  exists p,
    findMatchingPattern
      (snd (learnFromClaudeResponse sampleEnv groceriesInput groceriesObj
              freshState))
      groceriesInput
    = Some (p, 1%Q)
    /\ (7 # 10 <= 1)%Q
    /\ chunks p = [Some "Go to store"].
Proof.
  apply (roundtrip_learned sampleEnv freshState).
  - simpl. lia.
  - simpl. constructor.
Defined.

(** ** Deadline extractor *)

Lemma MonthFromDay_range (d : Z) : (0 <= MonthFromDay d <= 11)%Z.
Proof.
  unfold MonthFromDay.
  repeat match goal with
         | |- context [if ?b then _ else _] => destruct b
         end; lia.
Qed.

Lemma MakeDay_DateFromDay (d k : Z) :
  MakeDay (YearFromDay d) (MonthFromDay d) (DateFromDay d + k) = (d + k)%Z.
Proof.
  pose proof (MonthFromDay_range d) as Hm.
  unfold MakeDay.
  rewrite (Z.div_small (MonthFromDay d) 12) by lia.
  rewrite (Z.mod_small (MonthFromDay d) 12) by lia.
  rewrite Z.add_0_r. unfold DateFromDay, DayWithinYear. lia.
Qed.

Lemma Day_shift (t k : Z) : Day (t + k * msPerDay) = (Day t + k)%Z.
Proof. unfold Day. apply Z.div_add. discriminate. Qed.

Lemma TimeWithinDay_shift (t k : Z) :
  TimeWithinDay (t + k * msPerDay) = TimeWithinDay t.
Proof. unfold TimeWithinDay. apply Z.mod_add. discriminate. Qed.

Lemma time_split (t : Z) : t = (Day t * msPerDay + TimeWithinDay t)%Z.
Proof.
  unfold Day, TimeWithinDay.
  rewrite (Z.mul_comm (t / msPerDay)). apply Z.div_mod. discriminate.
Qed.

(** [setDate] with today's day of the month plus [k], on a date in the
    month of today [j] days ahead, lands [k] days after today. *)
Lemma setDate_in_month (nowT j k : Z) :
  YearFromDay (Day nowT + j) = YearFromDay (Day nowT) ->
  MonthFromDay (Day nowT + j) = MonthFromDay (Day nowT) ->
  setDate (Some (nowT + j * msPerDay)) (getDate nowT + k)
  = TimeClip (nowT + k * msPerDay).
Proof.
  intros Hy Hm. unfold setDate, getFullYear, getMonth, getDate.
  rewrite Day_shift, TimeWithinDay_shift, Hy, Hm, MakeDay_DateFromDay.
  f_equal. unfold MakeDate. rewrite (time_split nowT) at 3. lia.
Qed.

Lemma TimeClip_in_range (nowT k : Z) :
  clockInRange nowT -> (0 <= k <= 7)%Z ->
  TimeClip (nowT + k * msPerDay) = Some (nowT + k * msPerDay)%Z.
Proof.
  unfold clockInRange, TimeClip, msPerDay. intros H Hk.
  destruct (Z.abs _ >? _)%Z eqn:E; [| reflexivity].
  apply Z.gtb_lt in E. lia.
Qed.

Lemma firstRule_In (rules : list (regex * DeadlineRule)) (text : string)
    (dp : DeadlineRule) (m : found) :
  firstRule rules text = Some (dp, m) -> In dp (map snd rules).
Proof.
  induction rules as [| [r d] rules IH]; simpl; [discriminate |].
  destruct (exec false r text).
  - intros H. inversion H; subst. left. reflexivity.
  - intros H. right. apply IH. exact H.
Qed.

Lemma weekday_rule_range (text : string) (w : Z) (m : found) :
  firstRule deadlinePatterns text = Some (Weekday w, m) -> (0 <= w <= 6)%Z.
Proof.
  intros H. apply firstRule_In in H. simpl in H.
  repeat (destruct H as [H | H]; [try discriminate; inversion H; lia |]).
  destruct H.
Qed.

Lemma weekday_days (nowT w : Z) (m : found) :
  (0 <= w <= 6)%Z ->
  (1 <= ruleDays nowT (Weekday w) m <= 7)%Z
  /\ ((Day nowT + ruleDays nowT (Weekday w) m + 4) mod 7 = w)%Z.
Proof.
  intros Hw. unfold ruleDays, getDay.
  pose proof (Z.mod_pos_bound (Day nowT + 4) 7 eq_refl) as Hc.
  pose proof (Z.div_mod (Day nowT + 4) 7) as Hd.
  destruct (w - (Day nowT + 4) mod 7 <=? 0)%Z eqn:E;
    [apply Z.leb_le in E | apply Z.leb_gt in E].
  - split; [lia |].
    replace (Day nowT + (w - (Day nowT + 4) mod 7 + 7) + 4)%Z
      with (w + ((Day nowT + 4) / 7 + 1) * 7)%Z by lia.
    rewrite Z.mod_add by discriminate. apply Z.mod_small. lia.
  - split; [lia |].
    replace (Day nowT + (w - (Day nowT + 4) mod 7) + 4)%Z
      with (w + ((Day nowT + 4) / 7) * 7)%Z by lia.
    rewrite Z.mod_add by discriminate. apply Z.mod_small. lia.
Qed.

(** A text with a weekday name and a numeric date gets the numeric date.
    On Monday 2 November 2026, ["call on friday 11/2"] matches the rule
    of [on friday] first, and the deadline is 2 November 2026 at 00:00,
    which is today and a Monday. *)
Example weekday_overridden_by_date :
  option_map fst (firstRule deadlinePatterns "call on friday 11/2")
  = Some (Weekday 5)
  /\ extractDeadline sampleEnv "call on friday 11/2"
     = Ok (20759 * msPerDay)%Z
  /\ Day (20759 * msPerDay) = Day (now sampleEnv)
  /\ getDay (20759 * msPerDay) = 1%Z.
Proof. vm_compute. repeat split; reflexivity. Qed.

(** The weekday rule where it works.  When the first matching entry of
    the rule list is a weekday entry ([on] with any of the seven names,
    or a bare [monday] to [friday]), the text holds no numeric date, and
    tomorrow falls in the month of today, [extractDeadline] returns the
    next occurrence of that weekday strictly after today, at the current
    time of day: between one and seven days ahead, never today. *)
Theorem weekday_deadline :
  forall env text w m,
    firstRule deadlinePatterns text = Some (Weekday w, m) ->
    exec false reDate text = None ->
    tomorrowSameMonth (now env) ->
    clockInRange (now env) ->
    exists t,
      extractDeadline env text = Ok t /\ nextOccurrence (now env) w t.
Proof.
  intros env text w m Hrule Hdate [Hy Hm] Hclock.
  pose proof (weekday_rule_range _ _ _ Hrule) as Hw.
  destruct (weekday_days (now env) w m Hw) as [Hk Hday].
  exists (now env + ruleDays (now env) (Weekday w) m * msPerDay)%Z.
  split.
  - unfold extractDeadline, ruleDeadline. rewrite Hdate, Hrule.
    replace (Some (now env)) with (Some (now env + 0 * msPerDay)%Z)
      by (f_equal; lia).
    rewrite (setDate_in_month (now env) 0 1)
      by (rewrite Z.add_0_r; reflexivity).
    rewrite TimeClip_in_range by (assumption || lia).
    rewrite (setDate_in_month (now env) 1 _ Hy Hm).
    rewrite TimeClip_in_range by (assumption || lia).
    reflexivity.
  - unfold nextOccurrence, getDay.
    rewrite Day_shift, TimeWithinDay_shift.
    split; [lia |]. split; [| reflexivity].
    etransitivity; [| exact Hday]. f_equal.
Qed.

Lemma weekday_deadline_witness :
  exists t,
    extractDeadline sampleEnv "call on friday" = Ok t
    /\ nextOccurrence (now sampleEnv) 5 t.
Proof.
  apply (weekday_deadline sampleEnv "call on friday" 5%Z
           {| index := 5%nat; text := "on friday"; groups := [] |}).
  - vm_compute. reflexivity.
  - vm_compute. reflexivity.
  - vm_compute. split; reflexivity.
  - vm_compute. split; discriminate.
Defined.

(** C7 at the failing input.  The rules set the day of the month on a
    date already moved to tomorrow, so on the last day of a month the
    result lands a month late.  On Saturday 31 January 2026 the first
    rule that ["call on friday"] matches is the one of [on friday] and
    the text holds no numeric date; [extractDeadline] yields Monday
    9 March 2026, which is not the next Friday after today (6 February):
    it is 37 days ahead and not a Friday. *)
Theorem weekday_at_month_end :
  option_map fst (firstRule deadlinePatterns "call on friday")
  = Some (Weekday 5)
  /\ exec false reDate "call on friday" = None
  /\ getDay saturday31Jan2026 = 6%Z
  /\ extractDeadline (offlineAt saturday31Jan2026) "call on friday"
     = Ok (20521 * msPerDay + 43200000)%Z
  /\ getDay (20521 * msPerDay + 43200000) = 1%Z
  /\ (YearFromDay 20521, MonthFromDay 20521, DateFromDay 20521)
     = (2026, 2, 9)%Z
  /\ (Day (20521 * msPerDay + 43200000) - Day saturday31Jan2026 = 37)%Z
  /\ ~ nextOccurrence saturday31Jan2026 5 (20521 * msPerDay + 43200000).
Proof.
  repeat (split; [vm_compute; reflexivity |]).
  intros [_ [H _]]. vm_compute in H. discriminate H.
Qed.

(** A bare [saturday] or [sunday] is not in the rule list: the deadline
    stays tomorrow. *)
Example bare_saturday_unmatched :
  firstRule deadlinePatterns "party saturday" = None
  /\ extractDeadline sampleEnv "party saturday"
     = Ok (now sampleEnv + msPerDay)%Z.
Proof. vm_compute. split; reflexivity. Qed.

(** *** The groups of the date pattern *)

Lemma orElse_Some {A} (a b : option A) (r : A) :
  orElse a b = Some r -> a = Some r \/ b = Some r.
Proof. destruct a; simpl; auto. Qed.

(** What a repetition of a class consumed when the match went through. *)
Lemma many_inv (t : string) :
  forall ic g p lo hi cs pv k r,
    many ic g p lo hi cs pv t k = Some r ->
    exists n pv',
      (lo <= n)%nat
      /\ (forall h, hi = Some h -> (n <= h)%nat)
      /\ String.length (takeStr n t) = n
      /\ allChars (clsTest ic p) (takeStr n t) = true
      /\ k {| prev := pv'; rest := skipStr n t; caps := cs |} = Some r.
Proof.
  induction t as [| c t IH]; intros ic g p lo hi cs pv k r H.
  - cbn [many] in H.
    assert (Hs : (if (lo =? 0)%nat
                  then k {| prev := pv; rest := ""; caps := cs |}
                  else None) = Some r).
    { destruct g, hi as [[| h] |]; cbn [orElse] in H;
        try exact H; destruct (if (lo =? 0)%nat then _ else _); exact H. }
    destruct (lo =? 0)%nat eqn:E; [| discriminate].
    apply Nat.eqb_eq in E. exists O, pv.
    split; [lia |]. split; [intros; lia |]. split; [reflexivity |].
    split; [reflexivity | exact Hs].
  - cbn [many] in H.
    set (stop := if (lo =? 0)%nat
                 then k {| prev := pv; rest := String c t; caps := cs |}
                 else None) in H.
    set (take := match hi with
                 | Some O => None
                 | _ => if clsTest ic p c
                        then many ic g p (Nat.pred lo) (option_map Nat.pred hi)
                               cs (Some c) t k
                        else None
                 end) in H.
    assert (Hc : take = Some r \/ stop = Some r).
    { destruct g; apply orElse_Some in H; tauto. }
    destruct Hc as [Ht | Hs].
    + subst take.
      assert (Hh : hi <> Some O) by (intros ->; discriminate).
      assert (Hm : clsTest ic p c = true
                   /\ many ic g p (Nat.pred lo) (option_map Nat.pred hi)
                        cs (Some c) t k = Some r).
      { destruct hi as [[| h] |]; [congruence | |];
          destruct (clsTest ic p c); try discriminate; auto. }
      destruct Hm as [Hp Hm].
      destruct (IH _ _ _ _ _ _ _ _ _ Hm) as (n & pv' & H1 & H2 & H3 & H4 & H5).
      exists (S n), pv'. cbn [takeStr skipStr String.length allChars].
      rewrite Hp, H3, H4.
      split; [lia |]. split; [| split; [reflexivity | split; [reflexivity | exact H5]]].
      intros h Eh. subst hi. destruct h as [| h]; [congruence |].
      specialize (H2 h eq_refl). lia.
    + subst stop. destruct (lo =? 0)%nat eqn:E; [| discriminate].
      apply Nat.eqb_eq in E. exists O, pv.
      split; [lia |]. split; [intros; lia |]. split; [reflexivity |].
      split; [reflexivity | exact Hs].
Qed.

Lemma take_skip_length (t : string) (n : nat) :
  String.length t
  = (String.length (takeStr n t) + String.length (skipStr n t))%nat.
Proof.
  revert t. induction n as [| n IH]; intros t; [destruct t; reflexivity |].
  destruct t as [| c t]; [reflexivity |].
  cbn [takeStr skipStr String.length]. rewrite (IH t) at 1. reflexivity.
Qed.

Lemma capture_text (t : string) (n : nat) :
  String.length (takeStr n t) = n ->
  takeStr (String.length t - String.length (skipStr n t)) t = takeStr n t.
Proof.
  intros H. pose proof (take_skip_length t n) as L. rewrite H in L.
  replace (String.length t - String.length (skipStr n t))%nat with n by lia.
  reflexivity.
Qed.

Lemma reDate_groups (pv : option ascii) (t : string) (len : nat)
    (cs : list (nat * string)) :
  matchAt false reDate pv t = Some (len, cs) ->
  exists m d,
    group 1 cs = Some m /\ digits 1 2 m
    /\ group 2 cs = Some d /\ digits 1 2 d
    /\ (group 3 cs = None
        \/ exists y, group 3 cs = Some y /\ digits 2 4 y).
Proof.
  unfold matchAt, reDate. cbn [run prev rest caps].
  destruct (xorb _ _); [| discriminate].
  destruct (many false true isDigit 1 (Some 2%nat) [] pv t _)
    as [st |] eqn:E; [| discriminate].
  intros H. inversion H; subst len cs. clear H.
  apply many_inv in E.
  destruct E as (n1 & pv1 & L1 & U1 & T1 & D1 & K1).
  specialize (U1 _ eq_refl).
  unfold wordBefore, wordAfter, capture, advance in K1; cbn [prev rest caps] in K1.
  rewrite (capture_text t n1 T1) in K1.
  destruct (skipStr n1 t) as [| x t2] eqn:E2; [discriminate |].
  cbn [clsTest] in K1. destruct (isDateSep x); [| discriminate].
  unfold wordBefore, wordAfter, capture, advance in K1; cbn [prev rest caps] in K1.
  apply many_inv in K1.
  destruct K1 as (n2 & pv2 & L2 & U2 & T2 & D2 & K2).
  specialize (U2 _ eq_refl).
  unfold wordBefore, wordAfter, capture, advance in K2; cbn [prev rest caps] in K2.
  rewrite (capture_text t2 n2 T2) in K2.
  exists (takeStr n1 t), (takeStr n2 t2).
  assert (G1 : digits 1 2 (takeStr n1 t)) by (split; [exact D1 | lia]).
  assert (G2 : digits 1 2 (takeStr n2 t2)) by (split; [exact D2 | lia]).
  apply orElse_Some in K2. destruct K2 as [K3 | K3].
  - destruct (skipStr n2 t2) as [| y t3] eqn:E3; [discriminate |].
    cbn [clsTest] in K3. destruct (isDateSep y); [| discriminate].
    unfold wordBefore, wordAfter, capture, advance in K3; cbn [prev rest caps] in K3.
    apply many_inv in K3.
    destruct K3 as (n3 & pv3 & L3 & U3 & T3 & D3 & K4).
    specialize (U3 _ eq_refl).
    unfold wordBefore, wordAfter, capture, advance in K4; cbn [prev rest caps] in K4.
    rewrite (capture_text t3 n3 T3) in K4.
    destruct (xorb _ _); [| discriminate].
    inversion K4; subst st. cbn [caps group Nat.eqb].
    split; [reflexivity |]. split; [exact G1 |].
    split; [reflexivity |]. split; [exact G2 |].
    right. exists (takeStr n3 t3).
    split; [reflexivity |]. split; [exact D3 | lia].
  - unfold wordBefore, wordAfter, capture, advance in K3; cbn [prev rest caps] in K3.
    destruct (xorb _ _); [| discriminate].
    inversion K3; subst st. cbn [caps group Nat.eqb].
    split; [reflexivity |]. split; [exact G1 |].
    split; [reflexivity |]. split; [exact G2 |]. left. reflexivity.
Qed.

Lemma execFrom_matchAt (r : regex) (s : string) :
  forall i pv m,
    execFrom false r i pv s = Some m ->
    exists pv' t len, matchAt false r pv' t = Some (len, groups m).
Proof.
  induction s as [| c s IH]; intros i pv m H; cbn [execFrom] in H.
  - destruct (matchAt false r pv "") as [[n cs] |] eqn:E; [| discriminate].
    inversion H; subst. exists pv, "", n. exact E.
  - destruct (matchAt false r pv (String c s)) as [[n cs] |] eqn:E.
    + inversion H; subst. exists pv, (String c s), n. exact E.
    + apply (IH _ _ _ H).
Qed.

(** *** Numbers and dates in range *)

Lemma isDigit_code (c : ascii) :
  isDigit c = true -> (48 <= code c <= 57)%nat.
Proof.
  unfold isDigit, between. intros H. apply andb_true_iff in H.
  destruct H as [H1 H2]. apply Nat.leb_le in H1, H2. lia.
Qed.

Lemma parseDigits_bound (s : string) :
  allChars isDigit s = true ->
  forall acc,
    (0 <= acc)%Z ->
    (acc * 10 ^ Z.of_nat (String.length s)
     <= parseDigits acc s
     < (acc + 1) * 10 ^ Z.of_nat (String.length s))%Z.
Proof.
  induction s as [| c s IH]; intros H acc Hacc.
  - cbn [parseDigits String.length]. change (10 ^ Z.of_nat 0)%Z with 1%Z. lia.
  - cbn [allChars] in H. apply andb_true_iff in H. destruct H as [Hc H].
    pose proof (isDigit_code c Hc) as Hd.
    cbn [parseDigits String.length].
    rewrite Nat2Z.inj_succ, Z.pow_succ_r by lia.
    specialize (IH H (10 * acc + Z.of_nat (code c - 48))%Z ltac:(lia)).
    assert (0 < 10 ^ Z.of_nat (String.length s))%Z
      by (apply Z.pow_pos_nonneg; lia).
    nia.
Qed.

Lemma parseInt_digits (lo hi : nat) (s : string) :
  digits lo hi s -> (0 <= parseInt s < 10 ^ Z.of_nat hi)%Z.
Proof.
  intros [Hd Hl]. unfold parseInt.
  pose proof (parseDigits_bound s Hd 0%Z ltac:(lia)) as B.
  assert (10 ^ Z.of_nat (String.length s) <= 10 ^ Z.of_nat hi)%Z
    by (apply Z.pow_le_mono_r; lia).
  lia.
Qed.

Lemma monthStart_range (m : Z) (leap : bool) : 0 <= monthStart m leap <= 335.
Proof.
  unfold monthStart.
  repeat match goal with
         | |- context [if ?b then _ else _] => destruct b
         end; lia.
Qed.

Lemma newDate_valid (year month day : Z) :
  0 <= year <= 9999 -> -1 <= month <= 98 -> 0 <= day <= 99 ->
  exists t, newDate year month day = Some t.
Proof.
  intros Hy Hm Hd. unfold newDate.
  set (yr := if (0 <=? year) && (year <=? 99) then 1900 + year else year).
  assert (Hyr : 100 <= yr <= 9999).
  { unfold yr. destruct ((0 <=? year) && (year <=? 99)) eqn:E.
    - apply andb_true_iff in E. destruct E as [E1 E2].
      apply Z.leb_le in E1, E2. lia.
    - apply andb_false_iff in E. destruct E as [E | E];
        apply Z.leb_gt in E; lia. }
  unfold TimeClip, MakeDate, MakeDay, msPerDay.
  pose proof (monthStart_range (month mod 12) (isLeap (yr + month / 12))) as Hs.
  assert (Hb : -1000000 <= DayFromYear (yr + month / 12) <= 4000000).
  { unfold DayFromYear. Z.to_euclidean_division_equations. lia. }
  destruct (Z.abs _ >? _) eqn:E; [| eexists; reflexivity].
  apply Z.gtb_lt in E. lia.
Qed.

Lemma numeric_date_returns (env : Env) (text : string) (m : found) :
  exec false reDate text = Some m ->
  0 <= getFullYear (now env) <= 9999 ->
  exists t, numericDate (now env) m = Some t.
Proof.
  intros H Hy. unfold exec in H.
  destruct (execFrom_matchAt _ _ _ _ _ H) as (pv & t & len & Hm).
  destruct (reDate_groups _ _ _ _ Hm)
    as (mo & d & G1 & D1 & G2 & D2 & G3).
  unfold numericDate, group1, group2. rewrite G1, G2.
  pose proof (parseInt_digits _ _ _ D1) as B1.
  pose proof (parseInt_digits _ _ _ D2) as B2.
  change (10 ^ Z.of_nat 2) with 100 in B1, B2.
  apply newDate_valid; try lia.
  destruct G3 as [-> | (y & -> & D3)]; [exact Hy |].
  pose proof (parseInt_digits _ _ _ D3) as B3.
  change (10 ^ Z.of_nat 4) with 10000 in B3. lia.
Qed.



(** ** Main entry point *)

(** The downgrade itself: when the strategy is cloud and the quota is
    used up, [parseTask] is [parseLocally] with the result tagged
    [local_fallback] and rate-limited; it raises exactly when
    [parseLocally] does. *)
Lemma quota_downgrade (cfg : Config) (env : Env) (input : string)
    (options : Options) (st : State) :
  strategy (decideParsingStrategy cfg (counted st) input
              (voiceDurationSeconds options) (forceCloud options)
              (isCoachMode options)) = Cloud ->
  canMakeApiCall cfg (counted st) = false ->
  parseTask cfg env input options st
  = match parseLocally env input (counted st) with
    | (Ok r, st') =>
        (Ok (tagged "local_fallback" None true r), saveUserStats st')
    | (Raised e, st') => (Raised e, st')
    end.
Proof.
  intros Hs Hq. unfold parseTask, bind, update, reading, ret.
  fold (counted st). rewrite Hs. rewrite Hq. cbn [negb]. cbv beta iota.
  destruct (parseLocally env input (counted st)) as [[r | e] st'];
    reflexivity.
Qed.

(** C6 at the failing input.  With [forceCloud] set and the daily quota
    used up, the strategy is cloud and no remote call is allowed, so
    [parseTask] parses locally; for ["pay rent in 100000000 days"] the
    deadline extractor sets a day of the month that puts the date beyond
    the last time value, and rendering it raises [RangeError], which
    [parseTask] lets through. *)
Lemma quota_downgrade_raises :
  strategy (decideParsingStrategy defaultConfig (counted exhaustedState)
              "pay rent in 100000000 days" 0 true false) = Cloud
  /\ canMakeApiCall defaultConfig (counted exhaustedState) = false
  /\ extractDeadline sampleEnv "pay rent in 100000000 days"
     = Raised RangeError
  /\ fst (parseTask defaultConfig sampleEnv "pay rent in 100000000 days"
            forceCloudOptions exhaustedState)
     = Raised RangeError.
Proof. vm_compute. repeat split; reflexivity. Qed.

(** Local parsing makes no remote call. *)

Lemma quiet_ret {A} (a : A) : quiet (ret a).
Proof. intros st. reflexivity. Qed.

Lemma quiet_lift {A} (o : Outcome A) : quiet (lift o).
Proof. intros st. reflexivity. Qed.

Lemma quiet_reading {A} (f : State -> A) : quiet (reading f).
Proof. intros st. reflexivity. Qed.

Lemma quiet_bind {A B} (m : M A) (k : A -> M B) :
  quiet m -> (forall a, quiet (k a)) -> quiet (bind m k).
Proof.
  intros Hm Hk st. unfold bind. specialize (Hm st).
  destruct (m st) as [[a | e] st']; simpl in *.
  - rewrite Hk. exact Hm.
  - exact Hm.
Qed.

Lemma quiet_total {A} (f : State -> A * State) :
  (forall st, fetches (snd (f st)) = fetches st) -> quiet (total f).
Proof.
  intros H st. unfold total. specialize (H st).
  destruct (f st) as [a st']. exact H.
Qed.

Lemma quiet_update (f : State -> State) :
  (forall st, fetches (f st) = fetches st) -> quiet (update f).
Proof. intros H st. apply H. Qed.

Lemma generateId_fetches (env : Env) (st : State) :
  fetches (snd (generateId env st)) = fetches st.
Proof. reflexivity. Qed.

Lemma makeChunks_fetches (env : Env) (names : list (option string)) :
  forall i st, fetches (snd (makeChunks env i names st)) = fetches st.
Proof.
  induction names as [| n names IH]; intros i st; simpl; [reflexivity |].
  specialize (IH (i + 1) (snd (generateId env st))).
  destruct (makeChunks env (i + 1) names _) as [cs st2] eqn:E.
  simpl in *. exact IH.
Qed.

Lemma generateChunks_fetches (env : Env) (taskName : string) (st : State) :
  fetches (snd (generateChunks env taskName st)) = fetches st.
Proof. unfold generateChunks. apply makeChunks_fetches. Qed.

Lemma learnProject_fetches (env : Env) (proj : string) (st : State) :
  fetches (learnProject env proj st) = fetches st.
Proof.
  unfold learnProject. destruct (existsb _ _); reflexivity.
Qed.

Lemma quiet_formatTaskResult (env : Env) (data : TaskData) :
  quiet (formatTaskResult env data).
Proof.
  unfold formatTaskResult.
  apply quiet_bind; [apply quiet_total, generateId_fetches |]. intros ident.
  apply quiet_bind.
  - destruct (truthyDeadline (dDeadline data)); [apply quiet_ret |].
    apply quiet_bind; [apply quiet_lift | intros; apply quiet_ret].
  - intros due. apply quiet_bind.
    + destruct (dChunks data); [apply quiet_ret |].
      apply quiet_total. intros st. apply generateChunks_fetches.
    + intros cs. apply quiet_ret.
Qed.

Lemma quiet_ruleBasedParse (env : Env) (text : string) :
  quiet (ruleBasedParse env text).
Proof.
  unfold ruleBasedParse.
  apply quiet_bind; [apply quiet_reading |]. intros proj.
  apply quiet_bind; [apply quiet_lift |]. intros due.
  apply quiet_bind;
    [apply quiet_total; intros st; apply generateChunks_fetches |].
  intros cs. apply quiet_bind.
  - destruct (String.eqb proj "Inbox"); [apply quiet_ret |].
    apply quiet_update. intros st. apply learnProject_fetches.
  - intros _. apply quiet_formatTaskResult.
Qed.

Lemma quiet_parseLocally (env : Env) (input : string) :
  quiet (parseLocally env input).
Proof.
  unfold parseLocally. apply quiet_bind.
  - unfold applyLearnedPatterns.
    apply quiet_bind; [apply quiet_reading |]. intros [[p c] |].
    + apply quiet_bind; [apply quiet_lift | intros; apply quiet_ret].
    + apply quiet_ret.
  - intros [data |]; [apply quiet_formatTaskResult |].
    apply quiet_ruleBasedParse.
Qed.

(** Under the downgrade no remote call is made, whether the local parse
    returns or raises. *)
Lemma quota_downgrade_quiet (cfg : Config) (env : Env) (input : string)
    (options : Options) (st : State) :
  strategy (decideParsingStrategy cfg (counted st) input
              (voiceDurationSeconds options) (forceCloud options)
              (isCoachMode options)) = Cloud ->
  canMakeApiCall cfg (counted st) = false ->
  fetches (snd (parseTask cfg env input options st)) = fetches st.
Proof.
  intros Hs Hq. rewrite (quota_downgrade _ _ _ _ _ Hs Hq).
  pose proof (quiet_parseLocally env input (counted st)) as H.
  destruct (parseLocally env input (counted st)) as [[r | e] st'];
    simpl in *; exact H.
Qed.

(** ** Input validation *)

Lemma trimStart_allSpace (s : string) :
  allSpace s = true -> trimStart s = "".
Proof.
  induction s as [| c s IH]; simpl; [reflexivity |].
  destruct (isSpace c); simpl; [exact IH | discriminate].
Qed.

Lemma trimEnd_empty (s : string) : trimEnd s = "" -> allSpace s = true.
Proof.
  destruct s as [| c s]; [reflexivity |].
  unfold trimEnd; fold trimEnd.
  destruct (allSpace (String c s)); [reflexivity | discriminate].
Qed.

Lemma allSpace_trimStart (s : string) :
  allSpace (trimStart s) = true -> allSpace s = true.
Proof.
  induction s as [| c s IH]; simpl; [reflexivity |].
  destruct (isSpace c) eqn:E; simpl.
  - exact IH.
  - rewrite E. simpl. discriminate.
Qed.

Lemma trim_blank (s : string) : trim s = "" <-> allSpace s = true.
Proof.
  unfold trim. split.
  - intros H. apply allSpace_trimStart, trimEnd_empty. exact H.
  - intros H. rewrite (trimStart_allSpace s H). reflexivity.
Qed.

Lemma invalid_blank (t : option string) :
  match t with
  | None => true
  | Some s => String.eqb s "" || (String.length (trim s) =? 0)%nat
  end = true <-> blank t.
Proof.
  destruct t as [s |]; simpl; [| tauto].
  rewrite <- trim_blank. split.
  - intros H. apply orb_true_iff in H. destruct H as [H | H].
    + apply String.eqb_eq in H. subst. reflexivity.
    + apply Nat.eqb_eq in H. destruct (trim s); [reflexivity | discriminate].
  - intros H. rewrite H. apply orb_true_r.
Qed.


(** A text that matches no deadline rule and holds no numeric date is
    due tomorrow at the current time of day. *)
Lemma extractDeadline_none (env : Env) (text : string) :
  firstRule deadlinePatterns text = None ->
  exec false reDate text = None ->
  clockInRange (now env) ->
  extractDeadline env text = Ok (now env + msPerDay)%Z.
Proof.
  intros Hr Hd Hc. unfold extractDeadline, ruleDeadline. rewrite Hd, Hr.
  replace (Some (now env)) with (Some (now env + 0 * msPerDay)%Z)
    by (f_equal; lia).
  rewrite (setDate_in_month (now env) 0 1)
    by (rewrite Z.add_0_r; reflexivity).
  rewrite TimeClip_in_range by (assumption || lia).
  unfold toISOString. f_equal; lia.
Qed.

(** [formatTaskResult] on a draft of the local parser. *)
Lemma formatTaskResult_draft (env : Env) (n p : string) (due : Z)
    (cs : list JsChunk) (st : State) :
  formatTaskResult env
    {| dTaskName := Some n; dName := None; dProject := Some p;
       dDeadline := Some (DueAt due); dChunks := Some cs |} st
  = (Ok {| taskId := ids env (idCount st);
           taskName := orStr (Some n) "Untitled Task";
           taskProject := orStr (Some p) "Inbox";
           deadline := DueAt due; taskChunks := cs; completed := false;
           taskCreatedAt := now env; parsedBy := None; confidence := None;
           rateLimited := false |},
     snd (generateId env st)).
Proof. reflexivity. Qed.

(** The local parser trims its input, so on a blank text it parses the
    empty text: whatever the state holds, it returns a task named
    [Untitled Task]. *)
Lemma parseLocally_blank (env : Env) (s : string) (st : State) :
  allSpace s = true ->
  clockInRange (now env) ->
  exists t st',
    parseLocally env s st = (Ok t, st') /\ taskName t = "Untitled Task".
Proof.
  intros Hs Hc. apply trim_blank in Hs.
  assert (Hd : extractDeadline env "" = Ok (now env + msPerDay)%Z).
  { apply extractDeadline_none; [reflexivity | reflexivity | exact Hc]. }
  unfold parseLocally. rewrite Hs.
  unfold applyLearnedPatterns, bind, reading, lift, ret.
  destruct (findMatchingPattern st "") as [[pattern c] |].
  - change (toLowerCase "") with "". rewrite Hd.
    change (applyPatternTemplate "" (taskNameTemplate pattern)) with "".
    rewrite formatTaskResult_draft. eexists. eexists.
    split; reflexivity.
  - unfold ruleBasedParse, bind, reading, lift, total, ret.
    change (toLowerCase "") with "". rewrite Hd.
    change (extractTaskName "") with "".
    change (extractProject st "") with "Inbox".
    destruct (generateChunks env "" st) as [cs st1].
    cbn [String.eqb Ascii.eqb Bool.eqb andb].
    rewrite formatTaskResult_draft. eexists. eexists.
    split; reflexivity.
Qed.

(** When the strategy is local, [parseTask] is [parseLocally] with the
    result tagged and counted; it raises exactly when [parseLocally]
    does. *)
Lemma parseTask_local (cfg : Config) (env : Env) (input : string)
    (options : Options) (st : State) :
  strategy (decideParsingStrategy cfg (counted st) input
              (voiceDurationSeconds options) (forceCloud options)
              (isCoachMode options)) = Local ->
  parseTask cfg env input options st
  = match parseLocally env input (counted st) with
    | (Ok r, st') =>
        (Ok (tagged "local"
               (Some (decConfidence
                        (decideParsingStrategy cfg (counted st) input
                           (voiceDurationSeconds options)
                           (forceCloud options) (isCoachMode options))))
               false r),
         saveUserStats (countedLocal st'))
    | (Raised e, st') => (Raised e, st')
    end.
Proof.
  intros Hs. unfold parseTask, bind, update, reading, ret.
  fold (counted st). rewrite Hs.
  destruct (parseLocally env input (counted st)) as [[r | e] st'];
    reflexivity.
Qed.

Lemma parseTask_blank (cfg : Config) (env : Env) (s : string)
    (options : Options) (st : State) :
  allSpace s = true ->
  clockInRange (now env) ->
  strategy (decideParsingStrategy cfg (counted st) s
              (voiceDurationSeconds options) (forceCloud options)
              (isCoachMode options)) = Local
  \/ canMakeApiCall cfg (counted st) = false ->
  exists t st',
    parseTask cfg env s options st = (Ok t, st')
    /\ taskName t = "Untitled Task".
Proof.
  intros Hs Hc Hpath.
  destruct (parseLocally_blank env s (counted st) Hs Hc)
    as (t & st' & Ht & Hn).
  destruct (strategy (decideParsingStrategy cfg (counted st) s
              (voiceDurationSeconds options) (forceCloud options)
              (isCoachMode options))) eqn:E.
  - rewrite (parseTask_local _ _ _ _ _ E), Ht.
    eexists. eexists. split; [reflexivity | exact Hn].
  - destruct Hpath as [Hl | Hq]; [discriminate |].
    rewrite (quota_downgrade _ _ _ _ _ E Hq), Ht.
    eexists. eexists. split; [reflexivity | exact Hn].
Qed.



(** ** Normalizer *)

(** C4 as stated fails: a placeholder is not left alone by a second
    pass, which lower-cases it and turns its brackets into spaces; and
    the words [next] and [week], apart by two spaces on the first pass,
    are side by side on the second. *)
Lemma normalize_not_idempotent :
  normalizeForMatching "call monday" = "call [DAY]"
  /\ normalizeForMatching (normalizeForMatching "call monday") = "call day"
  /\ normalizeForMatching "next  week" = "next week"
  /\ normalizeForMatching (normalizeForMatching "next  week") = "[TIME]".
Proof. vm_compute. repeat split; reflexivity. Qed.

Local Close Scope Z_scope.

(** *** The matcher on the patterns of the normalizer *)

Lemma mstate_eta (st : mstate) :
  {| prev := prev st; rest := rest st; caps := caps st |} = st.
Proof. destruct st; reflexivity. Qed.

Lemma run_Str (w : string) :
  forall st k,
    run false (Str w) st k
    = if startsWith w (rest st) then k (stepOver w st) else None.
Proof.
  induction w as [| c w IH]; intros st k.
  - simpl. unfold stepOver. simpl. rewrite mstate_eta. reflexivity.
  - destruct w as [| d w'].
    + simpl. destruct (rest st) as [| x s'] eqn:E; [reflexivity |].
      unfold chrEq. destruct (Ascii.eqb_spec c x); [subst x | reflexivity].
      simpl. unfold stepOver, advance. rewrite E. reflexivity.
    + change (Str (String c (String d w')))
        with (Seq (Chr c) (Str (String d w'))).
      cbn [run]. destruct (rest st) as [| x s'] eqn:E.
      * reflexivity.
      * unfold chrEq. cbn [startsWith].
        destruct (Ascii.eqb_spec c x); [subst x | reflexivity].
        rewrite IH. unfold advance. cbn [rest andb].
        unfold stepOver. cbn [prev rest caps lastOr String.length skipStr].
        rewrite E. reflexivity.
Qed.

Lemma run_anyOf (ws : list string) :
  forall st k,
    run false (anyOf ws) st k
    = firstSome (fun w => run false (Str w) st k) ws.
Proof.
  unfold anyOf. induction ws as [| w ws IH]; intros st k.
  - simpl. destruct (rest st); reflexivity.
  - destruct ws as [| w' ws'].
    + simpl. destruct (run false (Str w) st k); reflexivity.
    + change (alts (map Str (w :: w' :: ws')))
        with (Alt (Str w) (alts (map Str (w' :: ws')))).
      cbn [run firstSome]. rewrite IH. reflexivity.
Qed.

Lemma startsWith_split (w t : string) :
  startsWith w t = true ->
  String.length t
  = (String.length w + String.length (skipStr (String.length w) t))%nat.
Proof.
  revert t. induction w as [| c w IH]; intros t H.
  - reflexivity.
  - destruct t as [| x t]; [discriminate |].
    cbn [startsWith] in H. apply andb_true_iff in H. destruct H as [_ H].
    cbn [String.length skipStr]. rewrite (IH t H) at 1. reflexivity.
Qed.

Lemma startsWith_length (w t : string) :
  startsWith w t = true ->
  (String.length t - String.length (skipStr (String.length w) t))%nat
  = String.length w.
Proof. intros H. rewrite (startsWith_split w t H) at 1. lia. Qed.

Lemma lenAt_wordOf (ws : list string) (pv : option ascii) (t : string) :
  lenAt (wordOf ws) pv t = option_map String.length (hit ws pv t).
Proof.
  unfold lenAt, matchAt, wordOf, hit. cbn [run].
  unfold wordBefore, wordAfter. cbn [prev rest].
  change (match pv with Some c => isWord c | None => false end)
    with (wordBeforeO pv).
  change (match t with String c _ => isWord c | EmptyString => false end)
    with (wordHead t).
  destruct (xorb (wordBeforeO pv) (wordHead t)); [| reflexivity].
  rewrite run_anyOf.
  induction ws as [| w ws IH]; [reflexivity |].
  cbn [firstSome]. rewrite run_Str. cbn [rest].
  destruct (startsWith w t) eqn:Hs; cbn [andb].
  - unfold stepOver, capture. cbn [prev rest caps].
    change (match lastOr pv w with Some c => isWord c | None => false end)
      with (wordBeforeO (lastOr pv w)).
    change (match skipStr (String.length w) t with
            | String c _ => isWord c | EmptyString => false end)
      with (wordHead (skipStr (String.length w) t)).
    destruct (xorb _ _); cbn [orElse].
    + cbn [option_map fst rest]. rewrite (startsWith_length w t Hs).
      reflexivity.
    + exact IH.
  - cbn [orElse]. exact IH.
Qed.

Lemma isDigit_isWord (c : ascii) : isDigit c = true -> isWord c = true.
Proof.
  unfold isWord. intros ->. rewrite orb_true_r. reflexivity.
Qed.

Lemma head_eq (w : string) :
  allChars isWord w = true ->
  forall t,
    startsWith w t && negb (wordHead (skipStr (String.length w) t))
    = String.eqb w (headWord t).
Proof.
  induction w as [| c w IH]; intros Hw t.
  - simpl. destruct t as [| x t]; simpl; [reflexivity |].
    destruct (isWord x); reflexivity.
  - simpl in Hw. apply andb_true_iff in Hw. destruct Hw as [Hc Hw].
    destruct t as [| x t]; [reflexivity |].
    cbn [startsWith String.length skipStr headWord].
    destruct (Ascii.eqb_spec c x) as [-> | Hne].
    + rewrite Hc. cbn [andb String.eqb]. rewrite Ascii.eqb_refl.
      apply IH. exact Hw.
    + cbn [andb]. destruct (isWord x); cbn [String.eqb].
      * destruct (Ascii.eqb_spec c x); [contradiction | reflexivity].
      * reflexivity.
Qed.

Lemma lastOr_word (w : string) (pv : option ascii) :
  allChars isWord w = true -> w <> EmptyString ->
  wordBeforeO (lastOr pv w) = true.
Proof.
  revert pv. induction w as [| c w IH]; intros pv Hw Hne; [congruence |].
  simpl in Hw. apply andb_true_iff in Hw. destruct Hw as [Hc Hw].
  destruct w as [| d w'].
  - simpl. exact Hc.
  - cbn [lastOr]. apply (IH (Some c)); [exact Hw | discriminate].
Qed.

Lemma startsWith_nonword (w t : string) :
  allChars isWord w = true -> w <> EmptyString -> wordHead t = false ->
  startsWith w t = false.
Proof.
  intros Hw Hne Ht. destruct w as [| c w]; [congruence |].
  destruct t as [| x t]; [reflexivity |]. simpl in *.
  apply andb_true_iff in Hw. destruct Hw as [Hc _].
  destruct (Ascii.eqb_spec c x); [subst; congruence | reflexivity].
Qed.

Lemma wordOf_tokenRegex (ws : list string) :
  simpleWords ws -> tokenRegex (fun w => arrIncludes w ws) (wordOf ws).
Proof.
  intros Hs pv t. rewrite lenAt_wordOf. unfold hit.
  destruct (wordHead t) eqn:Ht.
  - destruct (wordBeforeO pv); cbn [xorb negb andb]; [reflexivity |].
    unfold arrIncludes.
    induction Hs as [| w ws [Hw Hne] _ IH]; [reflexivity |].
    cbn [firstSome existsb].
    rewrite (lastOr_word w pv Hw Hne). cbn [xorb].
    replace (if wordHead (skipStr (String.length w) t) then false else true)
      with (negb (wordHead (skipStr (String.length w) t))) by reflexivity.
    rewrite (head_eq w Hw t). rewrite (String.eqb_sym (headWord t) w).
    destruct (String.eqb_spec w (headWord t)) as [-> | Hne'].
    + reflexivity.
    + cbn [orElse orb]. exact IH.
  - rewrite andb_false_r. cbn [andb].
    destruct (xorb (wordBeforeO pv) false); [| reflexivity].
    induction Hs as [| w ws [Hw Hne] _ IH]; [reflexivity |].
    cbn [firstSome]. rewrite (startsWith_nonword w t Hw Hne Ht).
    cbn [andb orElse]. exact IH.
Qed.

Lemma many_digits (t : string) :
  forall lo pv cs,
    (lo <= 1)%nat ->
    (lo = O -> wordBeforeO pv = true) ->
    many false true isDigit lo None cs pv t boundaryThen
    = if allChars isDigit (headWord t) && ((lo =? 0)%nat || wordHead t)
      then Some {| prev := lastOr pv (headWord t);
                   rest := skipStr (String.length (headWord t)) t;
                   caps := cs |}
      else None.
Proof.
  induction t as [| c t IH]; intros lo pv cs Hlo Hpv.
  - cbn [many headWord allChars wordHead lastOr skipStr String.length andb].
    rewrite orb_false_r.
    destruct lo as [| lo]; cbn [Nat.eqb orElse]; [| reflexivity].
    unfold boundaryThen, wordBefore, wordAfter. cbn [prev rest].
    change (match pv with Some c => isWord c | None => false end)
      with (wordBeforeO pv).
    rewrite (Hpv eq_refl). reflexivity.
  - cbn [many clsTest option_map headWord wordHead].
    destruct (isDigit c) eqn:Hd.
    + rewrite (isDigit_isWord c Hd).
      rewrite IH; [| destruct lo; simpl; lia
                   | intros _; simpl; apply isDigit_isWord; exact Hd].
      replace (Nat.pred lo =? 0)%nat with true
        by (destruct lo as [| [| lo]]; simpl; [reflexivity | reflexivity | lia]).
      cbn [orb allChars lastOr String.length skipStr].
      rewrite Hd, orb_true_r, !andb_true_r. cbn [andb].
      destruct (allChars isDigit (headWord t)); cbn [orElse]; [reflexivity |].
      destruct lo as [| lo]; cbn [Nat.eqb]; [| reflexivity].
      unfold boundaryThen, wordBefore, wordAfter. cbn [prev rest].
      change (match pv with Some c => isWord c | None => false end)
        with (wordBeforeO pv).
      rewrite (Hpv eq_refl), (isDigit_isWord c Hd). reflexivity.
    + cbn [orElse]. destruct (isWord c) eqn:Hw.
      * cbn [allChars]. rewrite Hd. cbn [andb].
        destruct lo as [| lo]; cbn [Nat.eqb]; [| reflexivity].
        unfold boundaryThen, wordBefore, wordAfter. cbn [prev rest].
        change (match pv with Some c => isWord c | None => false end)
          with (wordBeforeO pv).
        rewrite (Hpv eq_refl), Hw. reflexivity.
      * cbn [allChars lastOr String.length skipStr andb]. rewrite orb_false_r.
        destruct lo as [| lo]; cbn [Nat.eqb]; [| reflexivity].
        unfold boundaryThen, wordBefore, wordAfter. cbn [prev rest].
        change (match pv with Some c => isWord c | None => false end)
          with (wordBeforeO pv).
        rewrite (Hpv eq_refl), Hw. reflexivity.
Qed.

Lemma headWord_skip_length (t : string) :
  (String.length t
   - String.length (skipStr (String.length (headWord t)) t))%nat
  = String.length (headWord t).
Proof.
  assert (H : String.length t
              = (String.length (headWord t)
                 + String.length (skipStr (String.length (headWord t)) t))%nat).
  { induction t as [| c t IH]; [reflexivity |].
    cbn [headWord]. destruct (isWord c); cbn [String.length skipStr].
    - rewrite IH at 1. reflexivity.
    - reflexivity. }
  rewrite H at 1. lia.
Qed.

Lemma reNumber_tokenRegex :
  tokenRegex (fun w => allChars isDigit w) reNumber.
Proof.
  intros pv t. unfold lenAt, matchAt, reNumber, plus. cbn [run].
  unfold wordBefore at 1, wordAfter at 1. cbn [prev rest caps].
  change (match pv with Some c => isWord c | None => false end)
    with (wordBeforeO pv).
  change (match t with String c _ => isWord c | EmptyString => false end)
    with (wordHead t).
  change (fun st' : mstate =>
            if xorb (wordBefore st') (wordAfter st') then Some st' else None)
    with boundaryThen.
  destruct (wordBeforeO pv) eqn:Hp, (wordHead t) eqn:Ht; cbn [xorb negb andb];
    try reflexivity.
  - (* before a non-word character, after a word character *)
    rewrite many_digits by (lia || discriminate).
    rewrite Ht. cbn [Nat.eqb orb]. rewrite andb_false_r. reflexivity.
  - rewrite many_digits by (lia || discriminate).
    rewrite Ht. cbn [Nat.eqb orb]. rewrite andb_true_r.
    destruct (allChars isDigit (headWord t)); [| reflexivity].
    cbn [option_map fst rest]. rewrite headWord_skip_length. reflexivity.
Qed.

Lemma many_spaces (t : string) :
  forall lo pv cs,
    option_map rest (many false true isSpace lo None cs pv t Some)
    = if (lo <=? leadSpaces t)%nat
      then Some (skipStr (leadSpaces t) t) else None.
Proof.
  induction t as [| c t IH]; intros lo pv cs.
  - cbn [many leadSpaces skipStr]. destruct lo; reflexivity.
  - cbn [many clsTest option_map leadSpaces].
    destruct (isSpace c) eqn:Hc.
    + specialize (IH (Nat.pred lo) (Some c) cs).
      destruct (many false true isSpace (Nat.pred lo) None cs (Some c) t Some)
        as [st |] eqn:E; cbn [orElse option_map] in *.
      * destruct (Nat.pred lo <=? leadSpaces t)%nat eqn:L; [| discriminate].
        apply Nat.leb_le in L.
        replace (lo <=? S (leadSpaces t))%nat with true
          by (symmetry; apply Nat.leb_le; lia).
        cbn [skipStr]. exact IH.
      * destruct (Nat.pred lo <=? leadSpaces t)%nat eqn:L; [discriminate |].
        apply Nat.leb_gt in L.
        replace (lo <=? S (leadSpaces t))%nat with false
          by (symmetry; apply Nat.leb_gt; lia).
        destruct lo as [| lo]; [simpl in L; lia | reflexivity].
    + cbn [orElse skipStr]. destruct lo; reflexivity.
Qed.

Lemma leadSpaces_le (t : string) :
  (leadSpaces t <= String.length t)%nat
  /\ String.length (skipStr (leadSpaces t) t)
     = (String.length t - leadSpaces t)%nat.
Proof.
  induction t as [| c t [IH1 IH2]]; simpl; [split; reflexivity |].
  destruct (isSpace c); simpl; split; lia.
Qed.

Lemma lenAt_reSpaces (pv : option ascii) (t : string) :
  lenAt reSpaces pv t
  = if (1 <=? leadSpaces t)%nat then Some (leadSpaces t) else None.
Proof.
  unfold lenAt, matchAt, reSpaces, plus. cbn [run prev rest caps].
  pose proof (many_spaces t 1 pv []) as H.
  destruct (many false true isSpace 1 None [] pv t Some) as [st |];
    cbn [option_map fst] in *.
  - destruct (1 <=? leadSpaces t)%nat; [| discriminate].
    inversion H as [H1]. rewrite H1.
    destruct (leadSpaces_le t) as [L1 L2]. rewrite L2. f_equal. lia.
  - destruct (1 <=? leadSpaces t)%nat; [discriminate | reflexivity].
Qed.

Lemma lenAt_rePunct (pv : option ascii) (t : string) :
  lenAt rePunct pv t
  = match t with
    | String c _ =>
        if negb (isWord c || isSpace c) then Some 1%nat else None
    | EmptyString => None
    end.
Proof.
  unfold lenAt, matchAt, rePunct. cbn [run rest clsTest].
  destruct t as [| c t]; [reflexivity |].
  destruct (negb (isWord c || isSpace c)); [| reflexivity].
  cbn [advance option_map fst rest String.length]. f_equal.
  lia.
Qed.

(** *** Global replacement, stage by stage *)

Lemma replaceFrom_step (r : regex) (rep : string) (pv : option ascii)
    (s : string) :
  replaceFrom false r rep 0 pv s
  = match lenAt r pv s with
    | Some len =>
        (rep ++ match s, len with
                | EmptyString, _ => EmptyString
                | String c s', O =>
                    String c (replaceFrom false r rep 0 (Some c) s')
                | String c s', S n => replaceFrom false r rep n (Some c) s'
                end)%string
    | None =>
        match s with
        | EmptyString => EmptyString
        | String c s' => String c (replaceFrom false r rep 0 (Some c) s')
        end
    end.
Proof.
  unfold lenAt. destruct s as [| c s']; cbn [replaceFrom];
    destruct (matchAt false r pv _) as [[len cs] |]; reflexivity.
Qed.

Lemma replace_tokenRegex (sel : string -> bool) (r : regex) (rep : string) :
  tokenRegex sel r ->
  forall s,
    (forall pv, wordBeforeO pv = false ->
                replaceFrom false r rep 0 pv s = wordMap sel rep Out s)
    /\ (forall pv, wordBeforeO pv = true ->
                   replaceFrom false r rep 0 pv s = wordMap sel rep Keep s)
    /\ (forall pv, wordBeforeO pv = true ->
                   replaceFrom false r rep (String.length (headWord s)) pv s
                   = wordMap sel rep Drop s).
Proof.
  intros Hr. induction s as [| c s (IH1 & IH2 & IH3)].
  - repeat split; intros pv Hp; cbn [headWord String.length];
      rewrite replaceFrom_step, Hr; cbn [wordHead];
      rewrite andb_false_r; reflexivity.
  - repeat split; intros pv Hp.
    + rewrite replaceFrom_step, Hr, Hp. cbn [negb andb wordHead wordMap].
      destruct (isWord c) eqn:Hc; cbn [andb].
      * destruct (sel (headWord (String c s))) eqn:Hsel.
        -- cbn [headWord]. rewrite Hc. cbn [String.length].
           rewrite IH3 by exact Hc. reflexivity.
        -- rewrite IH2 by exact Hc. reflexivity.
      * rewrite IH1 by exact Hc. reflexivity.
    + rewrite replaceFrom_step, Hr, Hp. cbn [negb andb wordMap].
      destruct (isWord c) eqn:Hc.
      * rewrite IH2 by exact Hc. reflexivity.
      * rewrite IH1 by exact Hc. reflexivity.
    + cbn [headWord wordMap]. destruct (isWord c) eqn:Hc.
      * cbn [String.length replaceFrom]. apply IH3. exact Hc.
      * cbn [String.length]. rewrite replaceFrom_step, Hr, Hp.
        cbn [negb andb]. rewrite IH1 by exact Hc. reflexivity.
Qed.

Lemma replaceAll_tokenRegex (sel : string -> bool) (r : regex)
    (rep s : string) :
  tokenRegex sel r -> replaceAll false r rep s = wordMap sel rep Out s.
Proof.
  intros Hr. unfold replaceAll.
  apply (proj1 (replace_tokenRegex sel r rep Hr s)). reflexivity.
Qed.

Lemma replace_reSpaces (s : string) :
  (forall pv, replaceFrom false reSpaces " " 0 pv s = collapseMap false s)
  /\ (forall pv, replaceFrom false reSpaces " " (leadSpaces s) pv s
                 = collapseMap true s).
Proof.
  induction s as [| c s [IH1 IH2]].
  - split; intros pv; cbn [leadSpaces];
      rewrite replaceFrom_step, lenAt_reSpaces; reflexivity.
  - assert (H1 : forall pv,
               replaceFrom false reSpaces " " 0 pv (String c s)
               = collapseMap false (String c s)).
    { intros pv. rewrite replaceFrom_step, lenAt_reSpaces.
      cbn [leadSpaces collapseMap]. destruct (isSpace c).
      - cbn [Nat.leb]. rewrite IH2. reflexivity.
      - cbn [Nat.leb]. rewrite IH1. reflexivity. }
    split; [exact H1 |]. intros pv. cbn [leadSpaces collapseMap].
    destruct (isSpace c) eqn:Hc.
    + cbn [replaceFrom]. apply IH2.
    + rewrite H1. cbn [collapseMap]. rewrite Hc. reflexivity.
Qed.

Lemma replaceAll_reSpaces (s : string) :
  replaceAll false reSpaces " " s = collapseMap false s.
Proof. apply (proj1 (replace_reSpaces s)). Qed.

Lemma replaceAll_rePunct (s : string) :
  replaceAll false rePunct " " s = mapStr clean s.
Proof.
  unfold replaceAll. generalize (@None ascii).
  induction s as [| c s IH]; intros pv;
    rewrite replaceFrom_step, lenAt_rePunct; [reflexivity |].
  cbn [mapStr]. unfold clean.
  destruct (negb (isWord c || isSpace c)).
  - cbn [replaceFrom]. rewrite IH. reflexivity.
  - rewrite IH. reflexivity.
Qed.

Lemma noMatchFrom_lenAt (r : regex) (pv : option ascii) (s : string) :
  noMatchFrom r pv s -> lenAt r pv s = None.
Proof.
  unfold lenAt. destruct s; cbn [noMatchFrom]; intros [-> _]; reflexivity.
Qed.

Lemma replace_noMatch (r : regex) (rep : string) (s : string) :
  forall pv, noMatchFrom r pv s -> replaceFrom false r rep 0 pv s = s.
Proof.
  induction s as [| c s IH]; intros pv H;
    rewrite replaceFrom_step, (noMatchFrom_lenAt _ _ _ H); [reflexivity |].
  cbn [noMatchFrom] in H. destruct H as [_ H]. rewrite (IH _ H). reflexivity.
Qed.

Lemma hasChar_app (x : ascii) (a b : string) :
  hasChar x (a ++ b) = hasChar x a || hasChar x b.
Proof.
  induction a as [| c a IH]; cbn [append hasChar]; [reflexivity |].
  rewrite IH. apply orb_assoc.
Qed.

(** A replacement that carries a mark shows in the result, unless no
    match was found and the text is as it was. *)
Lemma replace_same_or_marked (x : ascii) (r : regex) (rep : string)
    (s : string) :
  hasChar x rep = true ->
  forall pv,
    (replaceFrom false r rep 0 pv s = s /\ noMatchFrom r pv s)
    \/ hasChar x (replaceFrom false r rep 0 pv s) = true.
Proof.
  intros Hrep. induction s as [| c s IH]; intros pv;
    rewrite replaceFrom_step; unfold lenAt;
    destruct (matchAt false r pv _) as [[len cs] |] eqn:E; cbn [option_map fst].
  - right. rewrite hasChar_app, Hrep. reflexivity.
  - left. split; [reflexivity |]. cbn [noMatchFrom]. split; [exact E | exact I].
  - right. rewrite hasChar_app, Hrep. reflexivity.
  - destruct (IH (Some c)) as [[H1 H2] | H].
    + left. split; [rewrite H1; reflexivity |].
      cbn [noMatchFrom]. split; [exact E | exact H2].
    + right. cbn [hasChar]. rewrite H. apply orb_true_r.
Qed.

(** A mark in the text survives a replacement whose matches hold none. *)
Lemma replace_keeps_mark (x : ascii) (r : regex) (rep : string) :
  (forall pv t len, lenAt r pv t = Some len ->
                    hasChar x (takeStr len t) = false) ->
  forall s skip pv,
    hasChar x (skipStr skip s) = true ->
    hasChar x (replaceFrom false r rep skip pv s) = true.
Proof.
  intros Hm. induction s as [| c s IH]; intros skip pv H.
  - destruct skip; discriminate.
  - destruct skip as [| n].
    + rewrite replaceFrom_step. cbn [skipStr] in H.
      destruct (lenAt r pv (String c s)) as [len |] eqn:E.
      * rewrite hasChar_app. apply orb_true_iff. right.
        specialize (Hm _ _ _ E). destruct len as [| len].
        -- cbn [hasChar] in *. apply orb_true_iff in H.
           destruct H as [H | H]; [rewrite H; reflexivity |].
           rewrite (IH O (Some c) H). apply orb_true_r.
        -- cbn [takeStr hasChar] in Hm. apply orb_false_iff in Hm.
           destruct Hm as [Hc Hm]. cbn [hasChar] in H. rewrite Hc in H.
           cbn [orb] in H. apply IH.
           clear - H Hm. revert len Hm. induction s as [| d s IHs];
             intros len Hm; [destruct len; exact H |].
           destruct len as [| len]; [exact H |].
           cbn [takeStr hasChar] in Hm. apply orb_false_iff in Hm.
           destruct Hm as [Hd Hm]. cbn [hasChar] in H. rewrite Hd in H.
           cbn [skipStr]. apply IHs; assumption.
      * cbn [hasChar] in *. apply orb_true_iff in H.
        destruct H as [H | H]; [rewrite H; reflexivity |].
        rewrite (IH O (Some c) H). apply orb_true_r.
    + cbn [replaceFrom]. apply IH. exact H.
Qed.

(** *** Characters *)

Lemma isSpace_not_word (c : ascii) : isSpace c = true -> isWord c = false.
Proof.
  destruct c as [[] [] [] [] [] [] [] []]; vm_compute; congruence.
Qed.

Lemma lowPlain_clean_lower (c : ascii) : lowPlain (clean (lowerChar c)) = true.
Proof. destruct c as [[] [] [] [] [] [] [] []]; reflexivity. Qed.

Lemma lowPlain_fixed (c : ascii) :
  lowPlain c = true -> clean (lowerChar c) = c.
Proof.
  destruct c as [[] [] [] [] [] [] [] []]; vm_compute; congruence.
Qed.

Lemma lowPlain_not_mark (c : ascii) :
  lowPlain c = true -> Ascii.eqb mark c = false.
Proof.
  destruct c as [[] [] [] [] [] [] [] []]; vm_compute; congruence.
Qed.

Lemma word_not_mark (c : ascii) : isWord c = true -> Ascii.eqb mark c = false.
Proof.
  destruct c as [[] [] [] [] [] [] [] []]; vm_compute; congruence.
Qed.

Lemma space_not_mark (c : ascii) :
  isSpace c = true -> Ascii.eqb mark c = false.
Proof.
  destruct c as [[] [] [] [] [] [] [] []]; vm_compute; congruence.
Qed.

(** *** Replacing words *)

Lemma wordMap_keeps_mark (sel : string -> bool) (rep : string) (s : string) :
  forall m, hasChar mark s = true -> hasChar mark (wordMap sel rep m s) = true.
Proof.
  induction s as [| c s IH]; intros m H; [discriminate |].
  cbn [hasChar] in H. cbn [wordMap].
  destruct (isWord c) eqn:Hc.
  - rewrite (word_not_mark c Hc) in H. cbn [orb] in H.
    destruct m.
    + destruct (sel _).
      * rewrite hasChar_app, (IH Drop H). apply orb_true_r.
      * cbn [hasChar]. rewrite (IH Keep H). apply orb_true_r.
    + cbn [hasChar]. rewrite (IH Keep H). apply orb_true_r.
    + apply IH. exact H.
  - cbn [hasChar]. apply orb_true_iff in H. destruct H as [H | H].
    + rewrite H. reflexivity.
    + rewrite (IH Out H). apply orb_true_r.
Qed.

Lemma wordMap_same_or_marked (sel : string -> bool) (rep : string)
    (s : string) :
  hasChar mark rep = true ->
  forall m, m <> Drop ->
    (wordMap sel rep m s = s
     /\ Forall (fun w => sel w = false) (toksFrom (inWordOf m) s))
    \/ hasChar mark (wordMap sel rep m s) = true.
Proof.
  intros Hrep. induction s as [| c s IH]; intros m Hm.
  - left. split; [reflexivity | constructor].
  - cbn [wordMap toksFrom]. destruct (isWord c) eqn:Hc.
    + destruct m; [| | congruence].
      * destruct (sel (headWord (String c s))) eqn:Hsel.
        -- right. rewrite hasChar_app, Hrep. reflexivity.
        -- destruct (IH Keep) as [[H1 H2] | H]; [discriminate | |].
           ++ left. rewrite H1. split; [reflexivity |].
              constructor; assumption.
           ++ right. cbn [hasChar]. rewrite H. apply orb_true_r.
      * destruct (IH Keep) as [[H1 H2] | H]; [discriminate | |].
        -- left. rewrite H1. split; [reflexivity | exact H2].
        -- right. cbn [hasChar]. rewrite H. apply orb_true_r.
    + destruct (IH Out) as [[H1 H2] | H]; [discriminate | |].
      * left. rewrite H1. split; [reflexivity | exact H2].
      * right. cbn [hasChar]. rewrite H. apply orb_true_r.
Qed.

Lemma wordMap_same (sel : string -> bool) (rep : string) (s : string) :
  forall m, m <> Drop ->
    Forall (fun w => sel w = false) (toksFrom (inWordOf m) s) ->
    wordMap sel rep m s = s.
Proof.
  induction s as [| c s IH]; intros m Hm H; [reflexivity |].
  cbn [wordMap toksFrom] in *. destruct (isWord c) eqn:Hc.
  - destruct m; [| | congruence]; cbn [inWordOf] in H.
    + inversion H as [| ? ? Hh Ht]; subst.
      replace (sel (headWord (String c s))) with false
        by (symmetry; exact Hh).
      rewrite (IH Keep); [reflexivity | discriminate | exact Ht].
    + rewrite (IH Keep); [reflexivity | discriminate | exact H].
  - rewrite (IH Out); [reflexivity | discriminate | exact H].
Qed.

Lemma headWord_keep (sel : string -> bool) (rep : string) (s : string) :
  headWord (wordMap sel rep Keep s) = headWord s.
Proof.
  induction s as [| c s IH]; [reflexivity |].
  cbn [wordMap headWord]. destruct (isWord c) eqn:Hc.
  - cbn [headWord]. rewrite Hc, IH. reflexivity.
  - cbn [headWord]. rewrite Hc. reflexivity.
Qed.

(** After the words that [sel] picks are deleted, none is left. *)
Lemma wordMap_deleted (sel : string -> bool) (s : string) :
  Forall (fun w => sel w = false) (toksFrom false (wordMap sel "" Out s))
  /\ Forall (fun w => sel w = false) (toksFrom true (wordMap sel "" Keep s))
  /\ forall b,
       Forall (fun w => sel w = false) (toksFrom b (wordMap sel "" Drop s)).
Proof.
  induction s as [| c s (IH1 & IH2 & IH3)].
  - repeat split; try intros b; constructor.
  - cbn [wordMap]. destruct (isWord c) eqn:Hc.
    + repeat split.
      * destruct (sel (headWord (String c s))) eqn:Hsel.
        -- cbn [append]. apply IH3.
        -- cbn [toksFrom]. rewrite Hc. constructor; [| exact IH2].
           cbn [headWord]. rewrite Hc, headWord_keep.
           cbn [headWord] in Hsel. rewrite Hc in Hsel. exact Hsel.
      * cbn [toksFrom]. rewrite Hc. exact IH2.
      * exact IH3.
    + repeat split; try intros b; cbn [toksFrom]; rewrite Hc; exact IH1.
Qed.

Lemma wordMap_allChars (p : ascii -> bool) (sel : string -> bool)
    (s : string) :
  forall m, allChars p s = true -> allChars p (wordMap sel "" m s) = true.
Proof.
  induction s as [| c s IH]; intros m H; [reflexivity |].
  cbn [allChars] in H. apply andb_true_iff in H. destruct H as [Hc H].
  cbn [wordMap]. destruct (isWord c).
  - destruct m.
    + destruct (sel _); cbn [append allChars]; [apply IH; exact H |].
      rewrite Hc. apply IH. exact H.
    + cbn [allChars]. rewrite Hc. apply IH. exact H.
    + apply IH. exact H.
  - cbn [allChars]. rewrite Hc. apply IH. exact H.
Qed.

(** *** Collapsing white space *)

Lemma collapseMap_toks (s : string) :
  (forall b, toksFrom b (collapseMap false s) = toksFrom b s)
  /\ toksFrom false (collapseMap true s) = toksFrom false s.
Proof.
  induction s as [| c s [IH1 IH2]]; [split; reflexivity |].
  cbn [collapseMap]. destruct (isSpace c) eqn:Hc.
  - pose proof (isSpace_not_word c Hc) as Hw. split.
    + intros b. cbn [toksFrom]. rewrite Hw.
      change (isWord " ") with false. cbn iota. exact IH2.
    + cbn [toksFrom]. rewrite Hw. exact IH2.
  - assert (Hh : headWord (String c (collapseMap false s))
                 = headWord (String c s)).
    { cbn [headWord]. destruct (isWord c); [| reflexivity]. f_equal.
      clear. induction s as [| d s IHs]; [reflexivity |].
      cbn [collapseMap]. destruct (isSpace d) eqn:Hd.
      - cbn [headWord]. rewrite (isSpace_not_word d Hd). reflexivity.
      - cbn [headWord]. destruct (isWord d); [f_equal; exact IHs | reflexivity]. }
    assert (G : forall b, toksFrom b (String c (collapseMap false s))
                          = toksFrom b (String c s)).
    { intros b. cbn [toksFrom]. destruct (isWord c).
      - destruct b; [apply IH1 |]. rewrite Hh, IH1. reflexivity.
      - apply IH1. }
    split; [exact G | apply G].
Qed.

Lemma collapseMap_keeps_mark (s : string) :
  forall r, hasChar mark s = true -> hasChar mark (collapseMap r s) = true.
Proof.
  induction s as [| c s IH]; intros r H; [discriminate |].
  cbn [hasChar] in H. cbn [collapseMap]. destruct (isSpace c) eqn:Hc.
  - rewrite (space_not_mark c Hc) in H. cbn [orb] in H.
    destruct r; [apply IH; exact H |].
    cbn [hasChar]. rewrite (IH true H). apply orb_true_r.
  - cbn [hasChar]. apply orb_true_iff in H. destruct H as [H | H].
    + rewrite H. reflexivity.
    + rewrite (IH false H). apply orb_true_r.
Qed.

Lemma collapseMap_allChars (p : ascii -> bool) (s : string) :
  p " "%char = true ->
  forall r, allChars p s = true -> allChars p (collapseMap r s) = true.
Proof.
  intros Hp. induction s as [| c s IH]; intros r H; [reflexivity |].
  cbn [allChars] in H. apply andb_true_iff in H. destruct H as [Hc H].
  cbn [collapseMap]. destruct (isSpace c).
  - destruct r; [apply IH; exact H |].
    cbn [allChars]. rewrite Hp. apply IH. exact H.
  - cbn [allChars]. rewrite Hc. apply IH. exact H.
Qed.

Lemma collapseMap_spaced (s : string) :
  forall r, spacedFrom r (collapseMap r s) = true.
Proof.
  induction s as [| c s IH]; intros r; [destruct r; reflexivity |].
  cbn [collapseMap]. destruct (isSpace c) eqn:Hc.
  - destruct r; [apply IH |].
    cbn [spacedFrom]. change (isSpace " ") with true. cbn iota.
    rewrite IH. reflexivity.
  - cbn [spacedFrom]. rewrite Hc. destruct r; apply IH.
Qed.

Lemma collapseMap_same (s : string) :
  forall r, spacedFrom r s = true -> collapseMap r s = s.
Proof.
  induction s as [| c s IH]; intros r H; [reflexivity |].
  cbn [spacedFrom collapseMap] in *. destruct (isSpace c).
  - destruct r; [discriminate |]. cbn [negb andb] in H.
    apply andb_true_iff in H. destruct H as [Hc H].
    apply Ascii.eqb_eq in Hc. subst c. rewrite (IH true H). reflexivity.
  - rewrite (IH false H). reflexivity.
Qed.

(** *** Trimming *)

Lemma allSpace_toks (s : string) :
  allSpace s = true -> forall b, toksFrom b s = [].
Proof.
  induction s as [| c s IH]; intros H b; [reflexivity |].
  cbn [allSpace] in H. apply andb_true_iff in H. destruct H as [Hc H].
  cbn [toksFrom]. rewrite (isSpace_not_word c Hc). apply IH. exact H.
Qed.

Lemma trimStart_toks (s : string) :
  toksFrom false (trimStart s) = toksFrom false s.
Proof.
  induction s as [| c s IH]; [reflexivity |].
  cbn [trimStart]. destruct (isSpace c) eqn:Hc; [| reflexivity].
  cbn [toksFrom]. rewrite (isSpace_not_word c Hc). exact IH.
Qed.

Lemma headWord_trimEnd (s : string) : headWord (trimEnd s) = headWord s.
Proof.
  induction s as [| c s IH]; [reflexivity |].
  unfold trimEnd; fold trimEnd. destruct (allSpace (String c s)) eqn:Ha.
  - cbn [allSpace] in Ha. apply andb_true_iff in Ha. destruct Ha as [Hc _].
    cbn [headWord]. rewrite (isSpace_not_word c Hc). reflexivity.
  - cbn [headWord]. rewrite IH. reflexivity.
Qed.

Lemma trimEnd_toks (s : string) :
  forall b, toksFrom b (trimEnd s) = toksFrom b s.
Proof.
  induction s as [| c s IH]; intros b; [reflexivity |].
  unfold trimEnd; fold trimEnd. destruct (allSpace (String c s)) eqn:Ha.
  - rewrite (allSpace_toks _ Ha). reflexivity.
  - cbn [toksFrom]. destruct (isWord c); [| apply IH].
    destruct b; [apply IH |]. rewrite IH.
    cbn [headWord]. rewrite headWord_trimEnd. reflexivity.
Qed.

Lemma trim_toks (s : string) : toksFrom false (trim s) = toksFrom false s.
Proof. unfold trim. rewrite trimEnd_toks. apply trimStart_toks. Qed.

Lemma trimStart_keeps_mark (s : string) :
  hasChar mark (trimStart s) = hasChar mark s.
Proof.
  induction s as [| c s IH]; [reflexivity |].
  cbn [trimStart]. destruct (isSpace c) eqn:Hc; [| reflexivity].
  cbn [hasChar]. rewrite (space_not_mark c Hc). exact IH.
Qed.

Lemma allSpace_no_mark (s : string) :
  allSpace s = true -> hasChar mark s = false.
Proof.
  induction s as [| c s IH]; intros H; [reflexivity |].
  cbn [allSpace] in H. apply andb_true_iff in H. destruct H as [Hc H].
  cbn [hasChar]. rewrite (space_not_mark c Hc). apply IH. exact H.
Qed.

Lemma trimEnd_keeps_mark (s : string) :
  hasChar mark (trimEnd s) = hasChar mark s.
Proof.
  induction s as [| c s IH]; [reflexivity |].
  unfold trimEnd; fold trimEnd. destruct (allSpace (String c s)) eqn:Ha.
  - rewrite (allSpace_no_mark _ Ha). reflexivity.
  - cbn [hasChar]. rewrite IH. reflexivity.
Qed.

Lemma trim_keeps_mark (s : string) : hasChar mark (trim s) = hasChar mark s.
Proof. unfold trim. rewrite trimEnd_keeps_mark. apply trimStart_keeps_mark. Qed.

Lemma trimStart_allChars (p : ascii -> bool) (s : string) :
  allChars p s = true -> allChars p (trimStart s) = true.
Proof.
  induction s as [| c s IH]; intros H; [reflexivity |].
  cbn [trimStart]. destruct (isSpace c); [| exact H].
  cbn [allChars] in H. apply andb_true_iff in H. apply IH. apply H.
Qed.

Lemma trimEnd_allChars (p : ascii -> bool) (s : string) :
  allChars p s = true -> allChars p (trimEnd s) = true.
Proof.
  induction s as [| c s IH]; intros H; [reflexivity |].
  unfold trimEnd; fold trimEnd. destruct (allSpace (String c s)); [reflexivity |].
  cbn [allChars] in *. apply andb_true_iff in H. destruct H as [Hc H].
  rewrite Hc. apply IH. exact H.
Qed.

Lemma trim_allChars (p : ascii -> bool) (s : string) :
  allChars p s = true -> allChars p (trim s) = true.
Proof. intros H. apply trimEnd_allChars, trimStart_allChars, H. Qed.

Lemma trimStart_spaced (s : string) :
  forall b, spacedFrom b s = true -> spacedFrom false (trimStart s) = true.
Proof.
  induction s as [| c s IH]; intros b H; [reflexivity |].
  cbn [trimStart]. cbn [spacedFrom] in H. destruct (isSpace c) eqn:Hc.
  - apply andb_true_iff in H. destruct H as [_ H]. apply (IH true H).
  - cbn [spacedFrom]. rewrite Hc. exact H.
Qed.

Lemma trimEnd_spaced (s : string) :
  forall b, spacedFrom b s = true -> spacedFrom b (trimEnd s) = true.
Proof.
  induction s as [| c s IH]; intros b H; [reflexivity |].
  unfold trimEnd; fold trimEnd. destruct (allSpace (String c s)); [reflexivity |].
  cbn [spacedFrom] in *. destruct (isSpace c).
  - apply andb_true_iff in H. destruct H as [H1 H]. rewrite H1.
    apply (IH true H).
  - apply (IH false H).
Qed.

Lemma trimStart_noLead (s : string) : noLead (trimStart s).
Proof.
  induction s as [| c s IH]; [exact I |].
  cbn [trimStart]. destruct (isSpace c) eqn:Hc; [exact IH | exact Hc].
Qed.

Lemma trimEnd_noLead (s : string) : noLead s -> noLead (trimEnd s).
Proof.
  destruct s as [| c s]; intros H; [exact I |].
  unfold trimEnd; fold trimEnd. simpl in H.
  cbn [allSpace]. rewrite H. exact H.
Qed.

Lemma noLead_trimStart (s : string) : noLead s -> trimStart s = s.
Proof.
  destruct s as [| c s]; intros H; [reflexivity |].
  simpl in *. rewrite H. reflexivity.
Qed.

Lemma trimEnd_cons (c : ascii) (s : string) :
  trimEnd (String c s)
  = if allSpace (String c s) then EmptyString else String c (trimEnd s).
Proof. reflexivity. Qed.

Lemma allSpace_trimEnd (s : string) :
  allSpace s = false -> allSpace (trimEnd s) = false.
Proof.
  induction s as [| c s IH]; intros H; [discriminate |].
  rewrite trimEnd_cons, H.
  cbn [allSpace] in *. destruct (isSpace c); [| reflexivity].
  cbn [andb] in *. apply IH. exact H.
Qed.

Lemma trimEnd_idem (s : string) : trimEnd (trimEnd s) = trimEnd s.
Proof.
  induction s as [| c s IH]; [reflexivity |].
  pose proof (allSpace_trimEnd (String c s)) as Hb.
  rewrite trimEnd_cons in *.
  destruct (allSpace (String c s)) eqn:Ha; [reflexivity |].
  rewrite trimEnd_cons, (Hb eq_refl), IH. reflexivity.
Qed.

Lemma trim_idem (s : string) : trim (trim s) = trim s.
Proof.
  unfold trim.
  rewrite (noLead_trimStart (trimEnd (trimStart s)))
    by (apply trimEnd_noLead, trimStart_noLead).
  apply trimEnd_idem.
Qed.

(** *** Lower-casing and punctuation *)

Lemma clean_lower_plain (s : string) :
  allChars lowPlain (mapStr clean (toLowerCase s)) = true.
Proof.
  induction s as [| c s IH]; [reflexivity |].
  cbn [toLowerCase mapStr allChars]. rewrite lowPlain_clean_lower. exact IH.
Qed.

Lemma clean_lower_same (s : string) :
  allChars lowPlain s = true -> mapStr clean (toLowerCase s) = s.
Proof.
  induction s as [| c s IH]; intros H; [reflexivity |].
  cbn [allChars] in H. apply andb_true_iff in H. destruct H as [Hc H].
  cbn [toLowerCase mapStr]. rewrite (lowPlain_fixed c Hc).
  f_equal. apply IH. exact H.
Qed.

Lemma lowPlain_no_mark (s : string) :
  allChars lowPlain s = true -> hasChar mark s = false.
Proof.
  induction s as [| c s IH]; intros H; [reflexivity |].
  cbn [allChars] in H. apply andb_true_iff in H. destruct H as [Hc H].
  cbn [hasChar]. rewrite (lowPlain_not_mark c Hc). apply IH. exact H.
Qed.

(** *** Substrings *)

Lemma includes_avoids (p s : string) : includes p s = false -> avoids p s.
Proof.
  unfold includes. induction s as [| c s IH]; cbn [indexOf avoids].
  - destruct (startsWith p ""); [discriminate | auto].
  - destruct (startsWith p (String c s)); [discriminate |].
    intros H. split; [reflexivity |]. apply IH.
    destruct (indexOf p s); [discriminate | reflexivity].
Qed.

Lemma avoids_mark (s : string) : avoids "[" s -> hasChar mark s = false.
Proof.
  induction s as [| c s IH]; cbn [avoids]; [reflexivity |].
  intros [H1 H2]. cbn [hasChar]. cbn [startsWith] in H1.
  rewrite andb_true_r in H1. unfold mark. rewrite H1. apply IH. exact H2.
Qed.

(** *** Relative-time words *)

Lemma hit_time (pv : option ascii) (t : string) :
  hit timeWords pv t
  = if xorb (wordBeforeO pv) (wordHead t) then
      if String.eqb "today" (headWord t) then Some "today"
      else if String.eqb "tomorrow" (headWord t) then Some "tomorrow"
      else if startsWith "next week" t
              && negb (wordHead (skipStr 9 t)) then Some "next week"
      else None
    else None.
Proof.
  unfold hit, timeWords. destruct (xorb _ _); [| reflexivity].
  cbn [firstSome].
  rewrite !lastOr_word by (reflexivity || discriminate).
  cbn [xorb].
  change (String.length "today") with 5%nat.
  change (String.length "tomorrow") with 8%nat.
  change (String.length "next week") with 9%nat.
  pose proof (head_eq "today" eq_refl t) as H1.
  pose proof (head_eq "tomorrow" eq_refl t) as H2.
  change (String.length "today") with 5%nat in H1.
  change (String.length "tomorrow") with 8%nat in H2.
  replace (startsWith "today" t
           && (if wordHead (skipStr 5 t) then false else true))
    with (String.eqb "today" (headWord t)) by (rewrite <- H1; reflexivity).
  replace (startsWith "tomorrow" t
           && (if wordHead (skipStr 8 t) then false else true))
    with (String.eqb "tomorrow" (headWord t)) by (rewrite <- H2; reflexivity).
  destruct (String.eqb "today" (headWord t)); [reflexivity |].
  destruct (String.eqb "tomorrow" (headWord t)); [reflexivity |].
  cbn [orElse].
  destruct (startsWith "next week" t && _); reflexivity.
Qed.

Lemma hit_In (ws : list string) (pv : option ascii) (t w : string) :
  hit ws pv t = Some w -> In w ws /\ startsWith w t = true.
Proof.
  unfold hit. destruct (xorb _ _); [| discriminate].
  induction ws as [| v ws IH]; cbn [firstSome]; [discriminate |].
  destruct (startsWith v t) eqn:Hs; cbn [andb].
  - destruct (xorb _ _); cbn [orElse].
    + intros H. inversion H; subst. split; [left; reflexivity | exact Hs].
    + intros H. destruct (IH H). split; [right |]; assumption.
  - cbn [orElse]. intros H. destruct (IH H). split; [right |]; assumption.
Qed.

Lemma startsWith_take (w t : string) :
  startsWith w t = true -> takeStr (String.length w) t = w.
Proof.
  revert t. induction w as [| c w IH]; intros t H; [reflexivity |].
  destruct t as [| x t]; [discriminate |]. cbn [startsWith] in H.
  apply andb_true_iff in H. destruct H as [Hc H].
  apply Ascii.eqb_eq in Hc. subst x.
  cbn [String.length takeStr]. rewrite (IH t H). reflexivity.
Qed.

Lemma time_match_unmarked (pv : option ascii) (t : string) (len : nat) :
  lenAt (wordOf timeWords) pv t = Some len ->
  hasChar mark (takeStr len t) = false.
Proof.
  rewrite lenAt_wordOf. destruct (hit timeWords pv t) as [w |] eqn:E;
    [| discriminate].
  cbn [option_map]. intros H. inversion H; subst.
  destruct (hit_In _ _ _ _ E) as [Hin Hs].
  rewrite (startsWith_take w t Hs).
  simpl in Hin. destruct Hin as [<- | [<- | [<- | []]]]; reflexivity.
Qed.

Lemma lenAt_None (r : regex) (pv : option ascii) (t : string) :
  lenAt r pv t = None <-> matchAt false r pv t = None.
Proof.
  unfold lenAt. destruct (matchAt false r pv t); simpl; split; congruence.
Qed.

Lemma headWord_wordHead (t : string) :
  headWord t <> EmptyString -> wordHead t = true.
Proof.
  destruct t as [| c t]; cbn [headWord wordHead]; [congruence |].
  destruct (isWord c); congruence.
Qed.

Lemma toksFrom_tail (P : string -> Prop) (b : bool) (c : ascii) (s : string) :
  Forall P (toksFrom b (String c s)) -> Forall P (toksFrom (isWord c) s).
Proof.
  cbn [toksFrom]. destruct (isWord c); [| auto].
  destruct b; [auto |]. intros H. inversion H; assumption.
Qed.

Lemma toksFrom_head (P : string -> Prop) (pv : option ascii) (t : string) :
  Forall P (toksFrom (wordBeforeO pv) t) ->
  xorb (wordBeforeO pv) (wordHead t) = true ->
  headWord t <> EmptyString ->
  P (headWord t).
Proof.
  intros H Hx Hne. rewrite (headWord_wordHead t Hne) in Hx.
  destruct (wordBeforeO pv); [discriminate |].
  destruct t as [| c t]; [exfalso; apply Hne; reflexivity |].
  cbn [toksFrom] in H. cbn [headWord] in Hne.
  destruct (isWord c) eqn:Hc; [| exfalso; apply Hne; reflexivity].
  inversion H as [| ? ? Hh _]; subst. rewrite Hc in Hh.
  cbn [headWord]. rewrite Hc. exact Hh.
Qed.

(** A text in which the pattern of relative-time words matches nowhere
    has no word [today] or [tomorrow]. *)
Lemma time_noMatch_toks (s : string) :
  forall pv,
    noMatchFrom (wordOf timeWords) pv s ->
    Forall (fun w => isTimeWord w = false) (toksFrom (wordBeforeO pv) s).
Proof.
  induction s as [| c s IH]; intros pv H; [constructor |].
  cbn [noMatchFrom] in H. destruct H as [H0 H].
  specialize (IH (Some c) H). cbn [wordBeforeO] in IH.
  cbn [toksFrom]. destruct (isWord c) eqn:Hc; [| exact IH].
  destruct (wordBeforeO pv) eqn:Hp; [exact IH |].
  constructor; [| exact IH].
  apply lenAt_None in H0. rewrite lenAt_wordOf, hit_time in H0.
  rewrite Hp in H0. cbn [wordHead] in H0. rewrite Hc in H0. cbn [xorb] in H0.
  unfold isTimeWord, arrIncludes. cbn [existsb].
  rewrite (String.eqb_sym _ "today"), (String.eqb_sym _ "tomorrow").
  destruct (String.eqb "today" _); [discriminate |].
  destruct (String.eqb "tomorrow" _); [discriminate |]. reflexivity.
Qed.

(** Conversely, in a text without the words [today] and [tomorrow] and
    without the text [next week], the pattern matches nowhere. *)
Lemma time_toks_noMatch (s : string) :
  forall pv,
    Forall (fun w => isTimeWord w = false) (toksFrom (wordBeforeO pv) s) ->
    avoids "next week" s ->
    noMatchFrom (wordOf timeWords) pv s.
Proof.
  assert (Here : forall pv t,
             Forall (fun w => isTimeWord w = false)
                    (toksFrom (wordBeforeO pv) t) ->
             startsWith "next week" t = false ->
             matchAt false (wordOf timeWords) pv t = None).
  { intros pv t Ht Hn. apply lenAt_None. rewrite lenAt_wordOf, hit_time.
    destruct (xorb (wordBeforeO pv) (wordHead t)) eqn:Hx; [| reflexivity].
    rewrite Hn. cbn [andb].
    destruct (String.eqb_spec "today" (headWord t)) as [E | _].
    { pose proof (toksFrom_head _ pv t Ht Hx) as P.
      rewrite <- E in P. specialize (P ltac:(discriminate)). discriminate. }
    destruct (String.eqb_spec "tomorrow" (headWord t)) as [E | _].
    { pose proof (toksFrom_head _ pv t Ht Hx) as P.
      rewrite <- E in P. specialize (P ltac:(discriminate)). discriminate. }
    reflexivity. }
  induction s as [| c s IH]; intros pv Ht Ha.
  - cbn [noMatchFrom]. split; [| exact I]. apply Here; [exact Ht | apply Ha].
  - cbn [noMatchFrom avoids] in *. destruct Ha as [Ha1 Ha2]. split.
    + apply Here; assumption.
    + apply IH; [| exact Ha2]. cbn [wordBeforeO].
      eapply toksFrom_tail. exact Ht.
Qed.

(** *** The stages, and the second pass *)

Lemma simple_stopwords : simpleWords stopwords.
Proof. repeat constructor; discriminate. Qed.

Lemma simple_dayNames : simpleWords dayNames.
Proof. repeat constructor; discriminate. Qed.

Lemma normalize_stages (x : string) :
  normalizeForMatching x
  = trim
      (collapseMap false
      (wordMap isNumber "[NUM]" Out
      (replaceAll false (wordOf timeWords) "[TIME]"
      (wordMap isDay "[DAY]" Out
      (wordMap isStop "" Out
      (mapStr clean (toLowerCase x))))))).
Proof.
  unfold normalizeForMatching.
  rewrite replaceAll_rePunct.
  rewrite (replaceAll_tokenRegex _ _ _ _ (wordOf_tokenRegex _ simple_stopwords)).
  rewrite (replaceAll_tokenRegex _ _ _ _ (wordOf_tokenRegex _ simple_dayNames)).
  rewrite (replaceAll_tokenRegex _ _ _ _ reNumber_tokenRegex).
  rewrite replaceAll_reSpaces. reflexivity.
Qed.

(** C4, as the code has it.  Normalizing a normalized text yields the same
    text whenever the normalized text holds no placeholder (no ["["]) and
    not the text ["next week"]: for every [x] whose normal form is such,
    [normalizeForMatching (normalizeForMatching x)] is
    [normalizeForMatching x]. *)
Theorem normalize_fixed :
  forall x,
    includes "[" (normalizeForMatching x) = false ->
    includes "next week" (normalizeForMatching x) = false ->
    normalizeForMatching (normalizeForMatching x) = normalizeForMatching x.
Proof.
  intros x Hmark Hnext.
  apply includes_avoids, avoids_mark in Hmark.
  apply includes_avoids in Hnext.
  rewrite (normalize_stages x) in Hmark, Hnext |- *.
  set (s1 := mapStr clean (toLowerCase x)) in *.
  set (s2 := wordMap isStop "" Out s1) in *.
  assert (P1 : allChars lowPlain s1 = true) by apply clean_lower_plain.
  assert (P2 : allChars lowPlain s2 = true) by (apply wordMap_allChars, P1).
  (* the three placeholder stages changed nothing *)
  rewrite trim_keeps_mark in Hmark.
  destruct (wordMap_same_or_marked isDay "[DAY]" s2 eq_refl Out
              ltac:(discriminate)) as [[E3 T3] | M3].
  2:{ exfalso.
      pose proof (replace_keeps_mark mark (wordOf timeWords) "[TIME]"
                    time_match_unmarked _ O None M3) as M4.
      apply (wordMap_keeps_mark isNumber "[NUM]" _ Out) in M4.
      apply (collapseMap_keeps_mark _ false) in M4.
      unfold replaceAll in Hmark. congruence. }
  rewrite E3 in *.
  destruct (replace_same_or_marked mark (wordOf timeWords) "[TIME]" s2 eq_refl
              None) as [[E4 T4] | M4].
  2:{ exfalso.
      apply (wordMap_keeps_mark isNumber "[NUM]" _ Out) in M4.
      apply (collapseMap_keeps_mark _ false) in M4.
      unfold replaceAll in Hmark. congruence. }
  unfold replaceAll in *. rewrite E4 in *.
  destruct (wordMap_same_or_marked isNumber "[NUM]" s2 eq_refl Out
              ltac:(discriminate)) as [[E5 T5] | M5].
  2:{ exfalso. apply (collapseMap_keeps_mark _ false) in M5. congruence. }
  rewrite E5 in *.
  set (n := trim (collapseMap false s2)) in *.
  (* what the result is made of *)
  assert (Pn : allChars lowPlain n = true).
  { apply trim_allChars, collapseMap_allChars; [reflexivity | exact P2]. }
  assert (Tn : toksFrom false n = toksFrom false s2).
  { unfold n. rewrite trim_toks. apply collapseMap_toks. }
  assert (Sn : spacedFrom false n = true).
  { unfold n, trim. apply trimEnd_spaced.
    apply (trimStart_spaced _ false). apply collapseMap_spaced. }
  (* the second pass *)
  rewrite (normalize_stages n).
  rewrite (clean_lower_same n Pn).
  rewrite (wordMap_same isStop "" n Out) by
    (discriminate || (cbn [inWordOf]; rewrite Tn;
                      apply (proj1 (wordMap_deleted isStop s1)))).
  rewrite (wordMap_same isDay "[DAY]" n Out) by
    (discriminate || (cbn [inWordOf]; rewrite Tn; exact T3)).
  unfold replaceAll.
  rewrite (replace_noMatch (wordOf timeWords) "[TIME]" n None).
  2:{ apply time_toks_noMatch; [| exact Hnext].
      cbn [wordBeforeO]. rewrite Tn.
      apply (time_noMatch_toks s2 None T4). }
  rewrite (wordMap_same isNumber "[NUM]" n Out) by
    (discriminate || (cbn [inWordOf]; rewrite Tn; exact T5)).
  rewrite (collapseMap_same n false Sn).
  unfold n. apply trim_idem.
Qed.

Lemma normalize_fixed_witness :
  normalizeForMatching "Buy  the milk, please!" = "buy milk please"
  /\ normalizeForMatching (normalizeForMatching "Buy  the milk, please!")
     = normalizeForMatching "Buy  the milk, please!".
Proof.
  split.
  - vm_compute. reflexivity.
  - apply (normalize_fixed "Buy  the milk, please!").
    + vm_compute. reflexivity.
    + vm_compute. reflexivity.
Defined.

Local Open Scope Z_scope.
Local Open Scope list_scope.

(** * Further properties *)

(** ** Learning and lookup *)

Lemma arrIncludes_In (w : string) (l : list string) :
  In w l -> arrIncludes w l = true.
Proof.
  intros H. unfold arrIncludes. apply existsb_exists.
  exists w. split; [exact H | apply String.eqb_refl].
Qed.

Lemma filter_all {A} (f : A -> bool) (l : list A) :
  (forall x, In x l -> f x = true) -> filter f l = l.
Proof.
  induction l as [| a l IH]; intros H; simpl; [reflexivity |].
  rewrite (H a) by (left; reflexivity).
  f_equal. apply IH. intros x Hx. apply H. right. exact Hx.
Qed.

(** Every key matches itself. *)
Lemma patternsMatch_same (a : string) : patternsMatch a a = true.
Proof.
  unfold patternsMatch, similarity. rewrite countMatches_filter.
  rewrite filter_all by (intros x Hx; apply arrIncludes_In; exact Hx).
  pose proof (splitSpace_nonempty a) as Hne.
  apply ratio_ge_seven_tenths.
  - destruct (splitSpace a); [congruence |]. simpl List.length. lia.
  - lia.
Qed.

Lemma enforceCap_bound (ps : list Pattern) :
  (List.length (enforceCap ps) <= 100)%nat.
Proof.
  unfold enforceCap. destruct (100 <? List.length ps)%nat eqn:E.
  - rewrite length_firstn. lia.
  - apply Nat.ltb_ge in E. exact E.
Qed.

Lemma enforceCap_small (ps : list Pattern) :
  (List.length ps <= 100)%nat -> enforceCap ps = ps.
Proof.
  intros H. unfold enforceCap.
  destruct (100 <? List.length ps)%nat eqn:E; [| reflexivity].
  apply Nat.ltb_lt in E. lia.
Qed.

Lemma findMatchingPatternIn_hit (n : string) (ps rest : list Pattern)
    (p : Pattern) :
  Forall (fun q => patternsMatch n (normalized q) = false) ps ->
  patternsMatch n (normalized p) = true ->
  findMatchingPatternIn n (ps ++ p :: rest)
  = Some (p, orDefault (successRate p) (8 # 10)).
Proof.
  intros Hps Hp. rewrite findMatchingPatternIn_skip by exact Hps.
  simpl. rewrite Hp. reflexivity.
Qed.

(** The store after a learning call that returns, when the store is
    below the cap and matching is symmetric between the new key and the
    stored keys: the pattern the matcher finds for the same input. *)
Lemma lookup_after_learn (env : Env) (input : string) (cr : ClaudeResult)
    (names : list (option string)) (st : State) :
  (List.length (learnedPatterns st) < 100)%nat ->
  (forall q, In q (learnedPatterns st) ->
             patternsMatch (normalizeForMatching input) (normalized q)
             = patternsMatch (normalized q) (normalizeForMatching input)) ->
  learnedNames cr = Ok names ->
  exists p,
    findMatchingPattern (snd (learnFromClaudeResponse env input cr st)) input
    = Some (p, orDefault (successRate p) (8 # 10))
    /\ chunks p = names
    /\ (p = newPattern env (ids env (idCount st)) input cr names
        \/ exists q, In q (learnedPatterns st) /\ p = mergeInto names q).
Proof.
  intros Hlen Hsym Hn.
  set (new := newPattern env (ids env (idCount st)) input cr names).
  unfold findMatchingPattern.
  pose proof (learn_patterns env input cr st) as L. rewrite Hn in L.
  destruct L as [_ L]. rewrite L. fold new. clear L.
  unfold insertOrMerge.
  destruct (findIndex _ (learnedPatterns st)) as [i |] eqn:E.
  - apply findIndex_Some in E.
    destruct E as (l1 & x & l2 & Hps & Hi & Hx & Hl1).
    exists (mergeInto names x).
    assert (Hin : forall q, In q l1 \/ q = x -> In q (learnedPatterns st)).
    { intros q Hq. rewrite Hps. apply in_or_app.
      destruct Hq as [Hq | ->]; [left; exact Hq | right; left; reflexivity]. }
    change (chunks new) with names.
    replace (updateAt i (mergeInto names) (learnedPatterns st))
      with (l1 ++ mergeInto names x :: l2)
      by (rewrite Hps, <- Hi, updateAt_app; reflexivity).
    rewrite enforceCap_small.
    2:{ rewrite Hps in Hlen. rewrite length_app in *. simpl in *. lia. }
    split; [| split; [reflexivity |]].
    + apply findMatchingPatternIn_hit.
      * rewrite Forall_forall in *. intros q Hq.
        rewrite Hsym by (apply Hin; left; exact Hq).
        apply Hl1. exact Hq.
      * cbn [mergeInto normalized].
        rewrite Hsym by (apply Hin; right; reflexivity).
        exact Hx.
    + right. exists x. split; [apply Hin; right; reflexivity | reflexivity].
  - apply findIndex_None in E. exists new.
    rewrite enforceCap_small by (rewrite length_app; simpl; lia).
    split; [| split; [reflexivity | left; reflexivity]].
    apply findMatchingPatternIn_hit.
    + rewrite Forall_forall in *. intros q Hq.
      rewrite Hsym by exact Hq. apply E. exact Hq.
    + apply patternsMatch_same.
Qed.

(** X1.  Learning round trip, for every input and every remote result
    whose chunk names can be read.  Let the store hold fewer than 100
    patterns and let matching be symmetric between the key of the input
    and every stored key.  After [learnFromClaudeResponse],
    [findMatchingPattern] on the same input finds a pattern whose chunk
    list is the list of names read off the remote result; its confidence
    is the pattern's success rate (0.8 when that is 0).  The pattern is
    the new one when no stored key matched, and else a stored pattern,
    merged. *)
Theorem learn_then_find :
  forall env input cr names st,
    (List.length (learnedPatterns st) < 100)%nat ->
    (forall q, In q (learnedPatterns st) ->
               patternsMatch (normalizeForMatching input) (normalized q)
               = patternsMatch (normalized q) (normalizeForMatching input)) ->
    learnedNames cr = Ok names ->
    exists p,
      findMatchingPattern (snd (learnFromClaudeResponse env input cr st))
        input
      = Some (p, orDefault (successRate p) (8 # 10))
      /\ chunks p = names
      /\ (p = newPattern env (ids env (idCount st)) input cr names
          \/ exists q, In q (learnedPatterns st) /\ p = mergeInto names q).
Proof. intros. apply lookup_after_learn; assumption. Qed.

Lemma learn_then_find_witness :
  exists p,
    findMatchingPattern
      (snd (learnFromClaudeResponse sampleEnv groceriesInput groceriesObj
              groceriesState)) groceriesInput
    = Some (p, orDefault (successRate p) (8 # 10))
    /\ chunks p = [Some "Go to store"]
    /\ (p = newPattern sampleEnv "k3x9q2m7a" groceriesInput groceriesObj
              [Some "Go to store"]
        \/ exists q, In q [samplePattern]
                     /\ p = mergeInto [Some "Go to store"] q).
Proof.
  apply (learn_then_find sampleEnv groceriesInput groceriesObj
           [Some "Go to store"] groceriesState).
  - vm_compute. lia.
  - intros q [<- | []]. vm_compute. reflexivity.
  - reflexivity.
Defined.

Lemma decide_counted (cfg : Config) (st : State) (input : string) (v : Q)
    (force coach : bool) :
  decideParsingStrategy cfg (counted st) input v force coach
  = decideParsingStrategy cfg st input v force coach.
Proof. reflexivity. Qed.

(** X2.  What learning buys.  Let the store hold fewer than 100 patterns,
    each with success rate 1 as the engine creates them, let matching be
    symmetric between the key of the input and every stored key, and let
    the chunk names of the remote result be readable.  After
    [learnFromClaudeResponse] on an input, the strategy for the same
    input, not forced to the cloud, not in coach mode and with a voice
    duration within the threshold, is local with reason
    [learned_pattern] and confidence 1, whenever the configured minimum
    is at most 1; and [parseTask] on it makes no remote call and tags
    the task it returns [local] with confidence 1. *)
Theorem learned_input_stays_local :
  forall cfg env env' input cr names st v,
    (List.length (learnedPatterns st) < 100)%nat ->
    (forall q, In q (learnedPatterns st) ->
               patternsMatch (normalizeForMatching input) (normalized q)
               = patternsMatch (normalized q) (normalizeForMatching input)) ->
    Forall (fun q => successRate q = 1%Q) (learnedPatterns st) ->
    learnedNames cr = Ok names ->
    Qle_bool (minConfidenceForLocal cfg) 1 = true ->
    Qle_bool v (voiceLengthThresholdSeconds cfg) = true ->
    let st1 := snd (learnFromClaudeResponse env input cr st) in
    decideParsingStrategy cfg st1 input v false false
    = {| strategy := Local; decConfidence := 1; reason := "learned_pattern" |}
    /\ fetches (snd (parseTask cfg env' input (plainOptions v) st1))
       = fetches st
    /\ match fst (parseTask cfg env' input (plainOptions v) st1) with
       | Ok t => parsedBy t = Some "local" /\ confidence t = Some 1%Q
       | Raised _ => True
       end.
Proof.
  intros cfg env env' input cr names st v Hlen Hsym Hrate Hn Hmin Hv st1.
  destruct (lookup_after_learn env input cr names st Hlen Hsym Hn)
    as (p & Hfind & _ & Hp).
  fold st1 in Hfind.
  assert (Hs : successRate p = 1%Q).
  { destruct Hp as [-> | (q & Hq & ->)]; [reflexivity |].
    rewrite Forall_forall in Hrate. apply (Hrate q Hq). }
  rewrite Hs in Hfind. change (orDefault 1 (8 # 10)) with 1%Q in Hfind.
  assert (Hd : decideParsingStrategy cfg st1 input v false false
               = {| strategy := Local; decConfidence := 1;
                    reason := "learned_pattern" |}).
  { unfold decideParsingStrategy. rewrite Hv, Hfind, Hmin. reflexivity. }
  split; [exact Hd |].
  assert (Hl : strategy (decideParsingStrategy cfg (counted st1) input
                 (voiceDurationSeconds (plainOptions v))
                 (forceCloud (plainOptions v))
                 (isCoachMode (plainOptions v))) = Local).
  { rewrite decide_counted. cbn [plainOptions voiceDurationSeconds forceCloud
                                 isCoachMode]. rewrite Hd. reflexivity. }
  rewrite (parseTask_local _ _ _ _ _ Hl).
  pose proof (quiet_parseLocally env' input (counted st1)) as Hq.
  destruct (parseLocally env' input (counted st1)) as [[r | e] st2];
    cbn [fst snd] in *.
  - split.
    + transitivity (fetches st2); [reflexivity |]. rewrite Hq.
      unfold st1, learnFromClaudeResponse, bind, total, lift, update,
        generateId. rewrite Hn. reflexivity.
    + rewrite decide_counted. cbn [plainOptions voiceDurationSeconds
                                   forceCloud isCoachMode]. rewrite Hd.
      repeat split; reflexivity.
  - split; [| exact I]. rewrite Hq.
    unfold st1, learnFromClaudeResponse, bind, total, lift, update,
      generateId. rewrite Hn. reflexivity.
Qed.

Lemma learned_input_stays_local_witness :
  decideParsingStrategy defaultConfig
    (snd (learnFromClaudeResponse sampleEnv groceriesInput groceriesObj
            freshState)) groceriesInput 0 false false
  = {| strategy := Local; decConfidence := 1; reason := "learned_pattern" |}
  /\ fetches
       (snd (parseTask defaultConfig sampleEnv groceriesInput (plainOptions 0)
               (snd (learnFromClaudeResponse sampleEnv groceriesInput
                       groceriesObj freshState))))
     = fetches freshState
  /\ match fst (parseTask defaultConfig sampleEnv groceriesInput
                  (plainOptions 0)
                  (snd (learnFromClaudeResponse sampleEnv groceriesInput
                          groceriesObj freshState))) with
     | Ok t => parsedBy t = Some "local" /\ confidence t = Some 1%Q
     | Raised _ => True
     end.
Proof.
  apply (learned_input_stays_local defaultConfig sampleEnv sampleEnv
           groceriesInput groceriesObj [Some "Go to store"] freshState 0).
  - vm_compute. lia.
  - intros q [].
  - constructor.
  - reflexivity.
  - reflexivity.
  - reflexivity.
Defined.

(** ** Backup and restore *)

Lemma learnProject_patterns (env : Env) (n : string) (st : State) :
  learnedPatterns (learnProject env n st) = learnedPatterns st.
Proof. unfold learnProject. destruct (existsb _ _); reflexivity. Qed.

Lemma learnProjects_patterns (env : Env) (ps : list Project) :
  forall st,
    learnedPatterns
      (fold_left (fun st p => learnProject env (name p) st) ps st)
    = learnedPatterns st.
Proof.
  induction ps as [| p ps IH]; intros st; simpl; [reflexivity |].
  rewrite IH. apply learnProject_patterns.
Qed.

Lemma import_patterns (env : Env) (data : Backup) (st : State) :
  learnedPatterns (importPatterns env data st)
  = learnedPatterns st ++ imported data.
Proof.
  unfold importPatterns, imported.
  destruct (projects data) as [ps |];
    [rewrite learnProjects_patterns |];
    destruct (patterns data); simpl; try rewrite app_nil_r; reflexivity.
Qed.

(** X3.  [importPatterns] appends the imported patterns to the store as
    they are: nothing is merged and the cap of 100 is not enforced, so
    the store can hold more than 100 patterns after an import.  The next
    [learnFromClaudeResponse] that returns brings it back to at most
    100. *)
Theorem import_bypasses_cap :
  forall env data st,
    learnedPatterns (importPatterns env data st)
    = learnedPatterns st ++ imported data
    /\ (forall env' input cr names,
           learnedNames cr = Ok names ->
           (List.length
              (learnedPatterns
                 (snd (learnFromClaudeResponse env' input cr
                         (importPatterns env data st))))
            <= 100)%nat).
Proof.
  intros env data st. split; [apply import_patterns |].
  intros env' input cr names Hn.
  pose proof (learn_patterns env' input cr (importPatterns env data st)) as L.
  rewrite Hn in L. destruct L as [_ ->]. apply enforceCap_bound.
Qed.

Lemma import_bypasses_cap_witness :
  (List.length
     (learnedPatterns
        (snd (learnFromClaudeResponse sampleEnv groceriesInput groceriesObj
                (importPatterns sampleEnv
                   {| patterns := Some (repeat samplePattern 150);
                      projects := None; exportedAt := None |}
                   freshState))))
   <= 100)%nat.
Proof.
  apply (proj2 (import_bypasses_cap sampleEnv
                  {| patterns := Some (repeat samplePattern 150);
                     projects := None; exportedAt := None |} freshState)
           sampleEnv groceriesInput groceriesObj [Some "Go to store"]).
  reflexivity.
Defined.

(** ** Project store *)

Lemma usageOf_bump (k key : string) (ps : list Project) :
  existsb (fun p => String.eqb (projNormalized p) key) ps = true ->
  usageOf k (bumpProject key ps)
  = if String.eqb k key then Double.increment (usageOf k ps)
    else usageOf k ps.
Proof.
  induction ps as [| p ps IH]; intros H; simpl in *; [discriminate |].
  destruct (String.eqb_spec (projNormalized p) key) as [E | E].
  - simpl. destruct (String.eqb_spec (projNormalized p) k) as [E' | E'].
    + rewrite <- E, <- E', String.eqb_refl. reflexivity.
    + destruct (String.eqb_spec k key); [congruence | reflexivity].
  - simpl in H. simpl.
    destruct (String.eqb_spec (projNormalized p) k) as [E' | E'].
    + destruct (String.eqb_spec k key); [congruence | reflexivity].
    + apply IH. exact H.
Qed.

Lemma usageOf_new (k key : string) (p : Project) (ps : list Project) :
  existsb (fun p => String.eqb (projNormalized p) key) ps = false ->
  projNormalized p = key ->
  usageOf k (ps ++ [p])
  = if String.eqb k key then usageCount p else usageOf k ps.
Proof.
  intros H Hp. induction ps as [| q ps IH]; simpl in *.
  - rewrite Hp, (String.eqb_sym key k). destruct (String.eqb k key); reflexivity.
  - apply orb_false_iff in H. destruct H as [Hq H].
    destruct (String.eqb_spec (projNormalized q) k) as [E | E].
    + destruct (String.eqb_spec k key) as [E2 | E2]; [| reflexivity].
      rewrite E, E2, String.eqb_refl in Hq. discriminate.
    + apply IH. exact H.
Qed.

Lemma usageOf_absent (key : string) (ps : list Project) :
  existsb (fun p => String.eqb (projNormalized p) key) ps = false ->
  usageOf key ps = 0%Z.
Proof.
  induction ps as [| q ps IH]; simpl; [reflexivity |].
  intros H. apply orb_false_iff in H. destruct H as [Hq H].
  rewrite Hq. apply IH. exact H.
Qed.

Lemma bumpProject_Forall (P : Project -> Prop) (key : string)
    (ps : list Project) :
  (forall p, P p -> P (used p)) ->
  Forall P ps -> Forall P (bumpProject key ps).
Proof.
  intros Hu H. induction H as [| p ps Hp Hps IH]; simpl; [constructor |].
  destruct (String.eqb (projNormalized p) key).
  - constructor; [apply (Hu p Hp) | exact Hps].
  - constructor; [exact Hp | exact IH].
Qed.

Lemma bumpProject_map {A} (f : Project -> A) (key : string)
    (ps : list Project) :
  (forall p, f (used p) = f p) ->
  map f (bumpProject key ps) = map f ps.
Proof.
  intros Hf. induction ps as [| p ps IH]; simpl; [reflexivity |].
  destruct (String.eqb (projNormalized p) key); simpl.
  - f_equal. apply (Hf p).
  - f_equal. exact IH.
Qed.

(** X4.  [learnProject] counts uses by key, the name in lower case and
    trimmed.  The count kept for the key of the name goes up by one (a
    new project starts at 1) and no other count moves; a project the
    store holds keeps its name, its key and its place, whatever the
    spelling of the new name; a project is appended only when the key
    is new; and a store in which every key is the key of its name and
    no key occurs twice stays so. *)
Theorem learnProject_counts :
  forall env projectName st k,
    let known :=
      existsb (fun p => String.eqb (projNormalized p) (keyOf projectName))
              (userProjects st) in
    let st' := learnProject env projectName st in
    usageOf k (userProjects st')
    = (if String.eqb k (keyOf projectName)
       then Double.increment (usageOf k (userProjects st))
       else usageOf k (userProjects st))
    /\ map name (userProjects st')
       = map name (userProjects st) ++ (if known then [] else [projectName])
    /\ map projNormalized (userProjects st')
       = map projNormalized (userProjects st)
         ++ (if known then [] else [keyOf projectName])
    /\ (keyed (userProjects st) -> keyed (userProjects st')).
Proof.
  intros env projectName st k known st'.
  unfold st', learnProject. fold (keyOf projectName). fold known.
  destruct known eqn:E; unfold known in E;
    cbn [userProjects emit withProjects].
  - split; [apply usageOf_bump; exact E |].
    rewrite !app_nil_r.
    split; [apply bumpProject_map; reflexivity |].
    split; [apply bumpProject_map; reflexivity |].
    intros [Hk Hnd]. split.
    + apply bumpProject_Forall; [intros p Hp; exact Hp | exact Hk].
    + rewrite (bumpProject_map projNormalized) by reflexivity. exact Hnd.
  - split.
    + rewrite (usageOf_new k (keyOf projectName)) by (exact E || reflexivity).
      cbn [usageCount].
      destruct (String.eqb_spec k (keyOf projectName)) as [-> |];
        [| reflexivity].
      rewrite (usageOf_absent _ _ E). reflexivity.
    + rewrite !map_app. cbn [map name projNormalized].
      split; [reflexivity |]. split; [reflexivity |].
      intros [Hk Hnd]. split.
      { apply Forall_app. split; [exact Hk |].
        constructor; [reflexivity | constructor]. }
      rewrite map_app. cbn [map projNormalized].
      apply NoDup_app; [exact Hnd | constructor; [intros [] | constructor] |].
      intros x Hx [<- | []].
      apply in_map_iff in Hx. destruct Hx as (p & Hp & Hin).
      assert (existsb (fun p => String.eqb (projNormalized p)
                                           (keyOf projectName))
                      (userProjects st) = true).
      { apply existsb_exists. exists p. split; [exact Hin |].
        rewrite Hp. apply String.eqb_refl. }
      congruence.
Qed.

(** ** Restoring a backup into the engine it came from *)

Lemma bumpProject_at (key : string) (l1 : list Project) (p : Project)
    (l2 : list Project) :
  Forall (fun q => projNormalized q <> key) l1 ->
  projNormalized p = key ->
  bumpProject key (l1 ++ p :: l2) = l1 ++ used p :: l2.
Proof.
  intros H Hp. subst key. induction H as [| q l1 Hq _ IH]; simpl.
  - rewrite String.eqb_refl. reflexivity.
  - destruct (String.eqb_spec (projNormalized q) (projNormalized p));
      [contradiction |].
    rewrite IH. reflexivity.
Qed.

Lemma relearn_projects (env : Env) (todo : list Project) :
  forall done st,
    keyed (done ++ todo) ->
    userProjects st = map used done ++ todo ->
    userProjects (fold_left (fun st p => learnProject env (name p) st)
                            todo st)
    = map used (done ++ todo).
Proof.
  induction todo as [| p todo IH]; intros done st Hk Hst.
  - cbn [fold_left]. rewrite Hst, !app_nil_r. reflexivity.
  - cbn [fold_left].
    replace (done ++ p :: todo) with ((done ++ [p]) ++ todo) in *
      by (rewrite <- app_assoc; reflexivity).
    apply IH; [exact Hk |].
    destruct Hk as [Hkey Hnd].
    assert (Hp : projNormalized p = keyOf (name p)).
    { rewrite Forall_forall in Hkey. apply Hkey.
      apply in_or_app. left. apply in_or_app. right. left. reflexivity. }
    assert (Hd : Forall (fun q => projNormalized q <> keyOf (name p))
                        (map used done)).
    { apply Forall_forall. intros q Hq. apply in_map_iff in Hq.
      destruct Hq as (q0 & <- & Hq0). cbn [used projNormalized].
      rewrite <- Hp. intros Heq.
      rewrite <- app_assoc, map_app in Hnd. cbn [app map] in Hnd.
      apply NoDup_remove_2 in Hnd. apply Hnd.
      apply in_or_app. left. rewrite <- Heq.
      apply in_map. exact Hq0. }
    unfold learnProject. fold (keyOf (name p)). rewrite Hst.
    replace (existsb _ (map used done ++ p :: todo)) with true.
    2:{ symmetry. apply existsb_exists. exists p.
        split; [apply in_or_app; right; left; reflexivity |].
        rewrite Hp. apply String.eqb_refl. }
    cbn [userProjects emit withProjects].
    rewrite (bumpProject_at _ _ _ _ Hd Hp).
    rewrite map_app. cbn [map]. rewrite <- app_assoc. reflexivity.
Qed.

(** X5.  Restoring a backup into the engine it was taken from.  When
    every stored key is the key of its project's name and no key occurs
    twice, as in a store that [learnProject] built, [importPatterns] of
    the result of [exportPatterns] leaves every pattern in the store
    twice and every project in its place with its use count incremented;
    no project is added. *)
Theorem restore_own_backup :
  forall env env' st,
    keyed (userProjects st) ->
    let st' := importPatterns env' (exportPatterns env st) st in
    learnedPatterns st' = learnedPatterns st ++ learnedPatterns st
    /\ userProjects st' = map used (userProjects st).
Proof.
  intros env env' st Hk st'. unfold st'. split.
  - rewrite import_patterns. reflexivity.
  - unfold importPatterns, exportPatterns. cbn [patterns projects].
    apply (relearn_projects env' (userProjects st) []); [exact Hk |].
    reflexivity.
Qed.

Lemma restore_own_backup_witness :
  List.length
    (learnedPatterns
       (importPatterns sampleEnv (exportPatterns sampleEnv acmeState)
          acmeState)) = 2%nat
  /\ map usageCount
       (userProjects
          (importPatterns sampleEnv (exportPatterns sampleEnv acmeState)
             acmeState)) = [2%Z].
Proof.
  destruct (restore_own_backup sampleEnv sampleEnv acmeState) as [H1 H2].
  - split.
    + constructor; [vm_compute; reflexivity | constructor].
    + vm_compute. constructor; [intros [] | constructor].
  - split; [rewrite H1; reflexivity | rewrite H2; reflexivity].
Defined.

(** ** What a parse leaves alone *)

Lemma keeps_ret {X A} (f : State -> X) (a : A) : keeps f (ret a).
Proof. intros st. reflexivity. Qed.

Lemma keeps_lift {X A} (f : State -> X) (o : Outcome A) : keeps f (lift o).
Proof. intros st. reflexivity. Qed.

Lemma keeps_reading {X A} (f : State -> X) (g : State -> A) :
  keeps f (reading g).
Proof. intros st. reflexivity. Qed.

Lemma keeps_bind {X A B} (f : State -> X) (m : M A) (k : A -> M B) :
  keeps f m -> (forall a, keeps f (k a)) -> keeps f (bind m k).
Proof.
  intros Hm Hk st. unfold bind. specialize (Hm st).
  destruct (m st) as [[a | e] st']; simpl in *.
  - rewrite Hk. exact Hm.
  - exact Hm.
Qed.

Lemma keeps_total {X A} (f : State -> X) (g : State -> A * State) :
  (forall st, f (snd (g st)) = f st) -> keeps f (total g).
Proof.
  intros H st. unfold total. specialize (H st).
  destruct (g st) as [a st']. exact H.
Qed.

Lemma keeps_update {X} (f : State -> X) (g : State -> State) :
  (forall st, f (g st) = f st) -> keeps f (update g).
Proof. intros H st. apply H. Qed.

Lemma keeps_tryCatch {X A} (f : State -> X) (m h : M A) :
  keeps f m -> keeps f h -> keeps f (tryCatch m h).
Proof.
  intros Hm Hh st. unfold tryCatch. specialize (Hm st).
  destruct (m st) as [[a | e] st']; simpl in *.
  - exact Hm.
  - rewrite Hh. exact Hm.
Qed.

Section Offside.

Context {X : Type} (f : State -> X) (Hf : offside f).

Lemma makeChunks_keeps (env : Env) (names : list (option string)) :
  forall i st, f (snd (makeChunks env i names st)) = f st.
Proof.
  induction names as [| n names IH]; intros i st; [reflexivity |].
  cbn [makeChunks]. pose proof (proj1 Hf env st) as Hg.
  destruct (generateId env st) as [ident st1]. cbn [snd] in Hg.
  specialize (IH (i + 1)%Z st1).
  destruct (makeChunks env (i + 1) names st1) as [cs st2].
  cbn [snd] in *. rewrite IH. exact Hg.
Qed.

Lemma generateChunks_keeps (env : Env) (taskName : string) (st : State) :
  f (snd (generateChunks env taskName st)) = f st.
Proof. unfold generateChunks. apply makeChunks_keeps. Qed.

Lemma keeps_formatTaskResult (env : Env) (data : TaskData) :
  keeps f (formatTaskResult env data).
Proof.
  unfold formatTaskResult.
  apply keeps_bind; [apply keeps_total; intros st; apply (proj1 Hf) |]. intros ident.
  apply keeps_bind.
  - destruct (truthyDeadline (dDeadline data)); [apply keeps_ret |].
    apply keeps_bind; [apply keeps_lift | intros; apply keeps_ret].
  - intros due. apply keeps_bind.
    + destruct (dChunks data); [apply keeps_ret |].
      apply keeps_total. intros st. apply generateChunks_keeps.
    + intros cs. apply keeps_ret.
Qed.

Lemma keeps_ruleBasedParse (env : Env) (text : string) :
  keeps f (ruleBasedParse env text).
Proof.
  unfold ruleBasedParse.
  apply keeps_bind; [apply keeps_reading |]. intros proj.
  apply keeps_bind; [apply keeps_lift |]. intros due.
  apply keeps_bind;
    [apply keeps_total; intros st; apply generateChunks_keeps |].
  intros cs. apply keeps_bind.
  - destruct (String.eqb proj "Inbox"); [apply keeps_ret |].
    apply keeps_update. intros st. apply (proj2 (proj2 Hf)).
  - intros _. apply keeps_formatTaskResult.
Qed.

Lemma keeps_parseLocally (env : Env) (input : string) :
  keeps f (parseLocally env input).
Proof.
  unfold parseLocally. apply keeps_bind.
  - unfold applyLearnedPatterns.
    apply keeps_bind; [apply keeps_reading |]. intros [[p c] |].
    + apply keeps_bind; [apply keeps_lift | intros; apply keeps_ret].
    + apply keeps_ret.
  - intros [data |]; [apply keeps_formatTaskResult |].
    apply keeps_ruleBasedParse.
Qed.

Lemma keeps_parseWithClaude (env : Env) (input : string) (coach : bool) :
  keeps f (parseWithClaude env input coach).
Proof.
  unfold parseWithClaude.
  apply keeps_bind; [apply keeps_update; intros st; apply (proj1 (proj2 Hf)) |].
  intros _. destruct (remote env input coach).
  - apply keeps_tryCatch;
      [apply keeps_formatTaskResult | apply keeps_ruleBasedParse].
  - apply keeps_ruleBasedParse.
Qed.

End Offside.

Lemma offside_apiCalls : offside apiCallsToday.
Proof.
  split; [| split]; try reflexivity.
  intros env n st. unfold learnProject. destruct (existsb _ _); reflexivity.
Qed.

Lemma offside_patterns : offside learnedPatterns.
Proof.
  split; [| split]; try reflexivity.
  intros env n st. unfold learnProject. destruct (existsb _ _); reflexivity.
Qed.

Lemma offside_stats : offside userStats.
Proof.
  split; [| split]; try reflexivity.
  intros env n st. unfold learnProject. destruct (existsb _ _); reflexivity.
Qed.

(** The remote adapter logs one remote call, before anything else. *)
Lemma parseWithClaude_fetches (env : Env) (input : string) (coach : bool)
    (st : State) :
  fetches (snd (parseWithClaude env input coach st))
  = EvFetch input coach :: fetches st.
Proof.
  unfold parseWithClaude, bind, update.
  change (fetches (emit (EvFetch input coach) st))
    with (fetches (emit (EvFetch input coach) st)).
  assert (Q : quiet (match remote env input coach with
                     | Some reply =>
                         tryCatch (formatTaskResult env reply)
                                  (ruleBasedParse env input)
                     | None => ruleBasedParse env input
                     end)).
  { destruct (remote env input coach).
    - intros s. unfold tryCatch.
      pose proof (quiet_formatTaskResult env t s) as H1.
      destruct (formatTaskResult env t s) as [[a | e] s']; simpl in *.
      + exact H1.
      + rewrite quiet_ruleBasedParse. exact H1.
    - apply quiet_ruleBasedParse. }
  cbn iota beta. rewrite Q. reflexivity.
Qed.

Lemma learn_frame (env : Env) (input : string) (cr : ClaudeResult)
    (st : State) :
  fetches (snd (learnFromClaudeResponse env input cr st)) = fetches st
  /\ apiCallsToday (snd (learnFromClaudeResponse env input cr st))
     = apiCallsToday st
  /\ userStats (snd (learnFromClaudeResponse env input cr st))
     = userStats st.
Proof.
  unfold learnFromClaudeResponse, bind, total, lift, update, generateId.
  destruct (learnedNames cr); repeat split; reflexivity.
Qed.

(** When the strategy is cloud and a remote call is left, [parseTask] is
    the remote adapter, the learning loop and the counters. *)
Lemma parseTask_cloud (cfg : Config) (env : Env) (input : string)
    (options : Options) (st : State) :
  strategy (decideParsingStrategy cfg (counted st) input
              (voiceDurationSeconds options) (forceCloud options)
              (isCoachMode options)) = Cloud ->
  canMakeApiCall cfg (counted st) = true ->
  parseTask cfg env input options st
  = match parseWithClaude env input (isCoachMode options) (counted st) with
    | (Ok r, st1) =>
        match learnFromClaudeResponse env input
                (asClaudeResult (tagged "claude" None false r)) st1 with
        | (Ok _, st2) =>
            (Ok (tagged "claude" None false r),
             saveUserStats (countedCloud (incrementApiCalls st2)))
        | (Raised e, st2) => (Raised e, st2)
        end
    | (Raised e, st1) => (Raised e, st1)
    end.
Proof.
  intros Hs Hq. unfold parseTask, bind, update, reading, ret.
  fold (counted st). rewrite Hs. rewrite Hq. cbn [negb]. cbv beta iota.
  destruct (parseWithClaude env input (isCoachMode options) (counted st))
    as [[r | e] st1]; [| reflexivity].
  destruct (learnFromClaudeResponse env input _ st1) as [[[] | e] st2];
    reflexivity.
Qed.

(** ** The tasks a parse returns *)

Lemma orStr_nonempty (a : option string) (b : string) :
  b <> "" -> orStr a b <> "".
Proof.
  intros Hb. destruct a as [[| c s] |]; simpl; [exact Hb | discriminate |
                                                 exact Hb].
Qed.

Lemma yields_bind {A B} (m : M A) (k : A -> M B) (P : B -> Prop) :
  (forall a, yields (k a) P) -> yields (bind m k) P.
Proof.
  intros Hk st b st' H. unfold bind in H.
  destruct (m st) as [[a | e] st1]; [| discriminate].
  exact (Hk a st1 b st' H).
Qed.

Lemma yields_tryCatch {A} (m h : M A) (P : A -> Prop) :
  yields m P -> yields h P -> yields (tryCatch m h) P.
Proof.
  intros Hm Hh st a st' H. unfold tryCatch in H.
  destruct (m st) as [[a1 | e] st1] eqn:E.
  - inversion H; subst. exact (Hm st a st' E).
  - exact (Hh st1 a st' H).
Qed.

Lemma fresh_formatTaskResult (env : Env) (data : TaskData) :
  yields (formatTaskResult env data) (fresh env).
Proof.
  unfold formatTaskResult.
  apply yields_bind. intros ident.
  apply yields_bind. intros due.
  apply yields_bind. intros cs.
  intros st t st' H. unfold ret in H. inversion H; subst. clear H.
  unfold fresh. cbn [taskName taskProject completed taskCreatedAt parsedBy
                     confidence rateLimited].
  split; [apply orStr_nonempty, orStr_nonempty; discriminate |].
  split; [apply orStr_nonempty; discriminate |].
  repeat split; reflexivity.
Qed.

Lemma fresh_ruleBasedParse (env : Env) (text : string) :
  yields (ruleBasedParse env text) (fresh env).
Proof.
  unfold ruleBasedParse.
  apply yields_bind. intros proj.
  apply yields_bind. intros due.
  apply yields_bind. intros cs.
  apply yields_bind. intros _.
  apply fresh_formatTaskResult.
Qed.

Lemma fresh_parseLocally (env : Env) (input : string) :
  yields (parseLocally env input) (fresh env).
Proof.
  unfold parseLocally. apply yields_bind. intros [data |].
  - apply fresh_formatTaskResult.
  - apply fresh_ruleBasedParse.
Qed.

Lemma fresh_parseWithClaude (env : Env) (input : string) (coach : bool) :
  yields (parseWithClaude env input coach) (fresh env).
Proof.
  unfold parseWithClaude. apply yields_bind. intros _.
  destruct (remote env input coach).
  - apply yields_tryCatch;
      [apply fresh_formatTaskResult | apply fresh_ruleBasedParse].
  - apply fresh_ruleBasedParse.
Qed.

(** X6.  Every task [parseTask] returns has a name and a project that
    are not empty, is not completed and is dated now; and its tags are
    one of three: [local] with the confidence of the decision,
    [claude] without a confidence, and [local_fallback] without a
    confidence and marked rate-limited.  No other task is marked
    rate-limited. *)
Theorem parsed_task_shape :
  forall cfg env input options st t st',
    parseTask cfg env input options st = (Ok t, st') ->
    taskName t <> "" /\ taskProject t <> "" /\ completed t = false
    /\ taskCreatedAt t = now env
    /\ ((parsedBy t = Some "local"
         /\ confidence t
            = Some (decConfidence
                      (decideParsingStrategy cfg st input
                         (voiceDurationSeconds options) (forceCloud options)
                         (isCoachMode options)))
         /\ rateLimited t = false)
        \/ (parsedBy t = Some "claude" /\ confidence t = None
            /\ rateLimited t = false)
        \/ (parsedBy t = Some "local_fallback" /\ confidence t = None
            /\ rateLimited t = true)).
Proof.
  intros cfg env input options st t st' H.
  destruct (strategy (decideParsingStrategy cfg (counted st) input
              (voiceDurationSeconds options) (forceCloud options)
              (isCoachMode options))) eqn:E.
  - rewrite (parseTask_local _ _ _ _ _ E) in H.
    destruct (parseLocally env input (counted st)) as [[r | e] st1] eqn:P;
      [| discriminate].
    inversion H; subst. clear H.
    destruct (fresh_parseLocally env input _ _ _ P)
      as (H1 & H2 & H3 & H4 & H5 & H6 & H7).
    cbn [tagged taskName taskProject completed taskCreatedAt parsedBy
         confidence rateLimited orb].
    repeat (split; [assumption |]). left.
    split; [reflexivity |]. split; [reflexivity | exact H7].
  - destruct (canMakeApiCall cfg (counted st)) eqn:Q.
    + rewrite (parseTask_cloud _ _ _ _ _ E Q) in H.
      destruct (parseWithClaude env input (isCoachMode options) (counted st))
        as [[r | e] st1] eqn:P; [| discriminate].
      destruct (learnFromClaudeResponse env input _ st1) as [[[] | e] st2];
        [| discriminate].
      inversion H; subst. clear H.
      destruct (fresh_parseWithClaude env input _ _ _ _ P)
        as (H1 & H2 & H3 & H4 & H5 & H6 & H7).
      cbn [tagged taskName taskProject completed taskCreatedAt parsedBy
           confidence rateLimited orb].
      repeat (split; [assumption |]). right. left.
      split; [reflexivity |]. split; assumption.
    + rewrite (quota_downgrade _ _ _ _ _ E Q) in H.
      destruct (parseLocally env input (counted st)) as [[r | e] st1] eqn:P;
        [| discriminate].
      inversion H; subst. clear H.
      destruct (fresh_parseLocally env input _ _ _ P)
        as (H1 & H2 & H3 & H4 & H5 & H6 & H7).
      cbn [tagged taskName taskProject completed taskCreatedAt parsedBy
           confidence rateLimited orb].
      repeat (split; [assumption |]). right. right.
      split; [reflexivity |]. split; [assumption | reflexivity].
Qed.

Lemma parsed_task_shape_witness :
  exists t st',
    parseTask defaultConfig sampleEnv "buy milk" noOptions freshState
    = (Ok t, st')
    /\ taskName t <> "" /\ taskProject t <> "" /\ completed t = false.
Proof.
  destruct (parseTask defaultConfig sampleEnv "buy milk" noOptions freshState)
    as [[t | e] st'] eqn:E.
  - exists t, st'. split; [reflexivity |].
    destruct (parsed_task_shape _ _ _ _ _ _ _ E) as (H1 & H2 & H3 & _).
    split; [exact H1 |]. split; [exact H2 | exact H3].
  - vm_compute in E. discriminate E.
Defined.

(** ** Remote calls and the counters *)

(** What [parseTask] does to the quota, the store and the log of remote
    calls, by the tag of the task it returns. *)
Lemma parseTask_meter (cfg : Config) (env : Env) (input : string)
    (options : Options) (st : State) :
  match parseTask cfg env input options st with
  | (Ok t, st') =>
      (parsedBy t = Some "claude"
       /\ canMakeApiCall cfg st = true
       /\ fetches st' = EvFetch input (isCoachMode options) :: fetches st
       /\ apiCallsToday st' = Double.increment (apiCallsToday st))
      \/ ((parsedBy t = Some "local" \/ parsedBy t = Some "local_fallback")
          /\ fetches st' = fetches st
          /\ apiCallsToday st' = apiCallsToday st
          /\ learnedPatterns st' = learnedPatterns st)
  | (Raised _, st') =>
      apiCallsToday st' = apiCallsToday st
      /\ learnedPatterns st' = learnedPatterns st
      /\ (fetches st' = fetches st
          \/ (canMakeApiCall cfg st = true
              /\ fetches st'
                 = EvFetch input (isCoachMode options) :: fetches st))
  end.
Proof.
  pose proof (quiet_parseLocally env input (counted st)) as Lf.
  pose proof (keeps_parseLocally apiCallsToday offside_apiCalls env input
                (counted st)) as La.
  pose proof (keeps_parseLocally learnedPatterns offside_patterns env input
                (counted st)) as Lp.
  destruct (strategy (decideParsingStrategy cfg (counted st) input
              (voiceDurationSeconds options) (forceCloud options)
              (isCoachMode options))) eqn:E.
  - rewrite (parseTask_local _ _ _ _ _ E).
    destruct (parseLocally env input (counted st)) as [[r | e] st1];
      cbn [snd] in *.
    + right. split; [left; reflexivity |].
      split; [exact Lf |]. split; [exact La | exact Lp].
    + split; [exact La |]. split; [exact Lp | left; exact Lf].
  - destruct (canMakeApiCall cfg (counted st)) eqn:Q.
    + rewrite (parseTask_cloud _ _ _ _ _ E Q).
      pose proof (parseWithClaude_fetches env input (isCoachMode options)
                    (counted st)) as Cf.
      pose proof (keeps_parseWithClaude apiCallsToday offside_apiCalls env
                    input (isCoachMode options) (counted st)) as Ca.
      pose proof (keeps_parseWithClaude learnedPatterns offside_patterns env
                    input (isCoachMode options) (counted st)) as Cp.
      destruct (parseWithClaude env input (isCoachMode options) (counted st))
        as [[r | e] st1]; cbn [snd] in *.
      * pose proof (learn_frame env input
                      (asClaudeResult (tagged "claude" None false r)) st1)
          as (Nf & Na & _).
        pose proof (learn_patterns env input
                      (asClaudeResult (tagged "claude" None false r)) st1)
          as Np.
        destruct (learnFromClaudeResponse env input _ st1)
          as [[[] | e] st2]; cbn [fst snd] in *.
        -- left. split; [reflexivity |]. split; [exact Q |].
           split; [transitivity (fetches st2); [reflexivity |];
                   rewrite Nf; exact Cf |].
           transitivity (Double.increment (apiCallsToday st2));
             [reflexivity |]. rewrite Na, Ca. reflexivity.
        -- split; [rewrite Na; exact Ca |].
           split; [| right; split; [exact Q | rewrite Nf; exact Cf]].
           destruct (learnedNames _); destruct Np as [Ne Np];
             [discriminate Ne |]. rewrite Np. exact Cp.
      * split; [exact Ca |]. split; [exact Cp |].
        right. split; [exact Q | exact Cf].
    + rewrite (quota_downgrade _ _ _ _ _ E Q).
      destruct (parseLocally env input (counted st)) as [[r | e] st1];
        cbn [snd] in *.
      * right. split; [right; reflexivity |].
        split; [exact Lf |]. split; [exact La | exact Lp].
      * split; [exact La |]. split; [exact Lp | left; exact Lf].
Qed.


(** X8.  The daily quota is never exceeded.  When the calls counted
    today are within the limit of the tier (and below 2^53), they still
    are after [parseTask], which never lowers them; the calls left, as
    [getRemainingApiCalls] reports them, never go below 0, never go up
    and go down by at most one; and with no call left nothing is sent
    to the remote endpoint. *)
Theorem quota_never_exceeded :
  forall cfg env input options st,
    (Z.abs (apiCallsToday st) < 2 ^ 53)%Z ->
    (apiCallsToday st <= dailyLimit cfg)%Z ->
    let st' := snd (parseTask cfg env input options st) in
    (apiCallsToday st <= apiCallsToday st' <= dailyLimit cfg)%Z
    /\ (0 <= getRemainingApiCalls cfg st' <= getRemainingApiCalls cfg st)%Z
    /\ (getRemainingApiCalls cfg st - 1 <= getRemainingApiCalls cfg st')%Z
    /\ (canMakeApiCall cfg st = false -> fetches st' = fetches st).
Proof.
  intros cfg env input options st Hsafe Hle st'. unfold st'.
  pose proof (parseTask_meter cfg env input options st) as H.
  unfold getRemainingApiCalls. fold (dailyLimit cfg).
  assert (Hq : canMakeApiCall cfg st = true ->
               (apiCallsToday st < dailyLimit cfg)%Z).
  { unfold canMakeApiCall. fold (dailyLimit cfg). apply Z.ltb_lt. }
  pose proof (increment_safe (apiCallsToday st) Hsafe) as Hi.
  destruct (parseTask cfg env input options st) as [[t | e] st1];
    cbn [snd].
  - destruct H as [(_ & Q & Hf & Ha) | (_ & Hf & Ha & _)].
    + rewrite Ha, Hi. specialize (Hq Q).
      repeat split; try lia. intros Q'. congruence.
    + rewrite Ha. repeat split; try lia. intros _. exact Hf.
  - destruct H as (Ha & _ & [Hf | [Q Hf]]).
    + rewrite Ha. repeat split; try lia. intros _. exact Hf.
    + rewrite Ha. repeat split; try lia. intros Q'. congruence.
Qed.

Lemma quota_never_exceeded_witness :
  (apiCallsToday exhaustedState
   <= apiCallsToday
        (snd (parseTask defaultConfig sampleEnv "plan the trip"
                forceCloudOptions exhaustedState))
   <= dailyLimit defaultConfig)%Z
  /\ fetches (snd (parseTask defaultConfig sampleEnv "plan the trip"
                     forceCloudOptions exhaustedState))
     = fetches exhaustedState.
Proof.
  destruct (quota_never_exceeded defaultConfig sampleEnv "plan the trip"
              forceCloudOptions exhaustedState) as (H1 & _ & _ & H4).
  - vm_compute. reflexivity.
  - vm_compute. discriminate.
  - split; [exact H1 | apply H4; reflexivity].
Defined.


(** ** Chunk generator *)

Lemma makeChunks_cons (env : Env) (i : Z) (n : option string)
    (names : list (option string)) (st : State) :
  makeChunks env i (n :: names) st
  = (ChunkObj {| chunkId := Some (ids env (idCount st)); chunkName := n;
                 chunkCompleted := false; chunkOrder := Some i |}
       :: fst (makeChunks env (i + 1) names (snd (generateId env st))),
     snd (makeChunks env (i + 1) names (snd (generateId env st)))).
Proof.
  cbn [makeChunks]. unfold generateId. cbn [snd].
  destruct (makeChunks env (i + 1) names _) as [cs st2]. reflexivity.
Qed.

Lemma makeChunks_shape (env : Env) (names : list (option string)) :
  forall i st,
    idCount (snd (makeChunks env i names st))
    = (idCount st + List.length names)%nat
    /\ List.length (fst (makeChunks env i names st)) = List.length names
    /\ forall k n,
         nth_error names k = Some n ->
         nth_error (fst (makeChunks env i names st)) k
         = Some (ChunkObj {| chunkId := Some (ids env (idCount st + k)%nat);
                             chunkName := n; chunkCompleted := false;
                             chunkOrder := Some (i + Z.of_nat k)%Z |}).
Proof.
  induction names as [| n0 names IH]; intros i st.
  - cbn [makeChunks fst snd List.length]. split; [lia |].
    split; [reflexivity |]. intros [| k] n H; discriminate.
  - rewrite makeChunks_cons. cbn [fst snd List.length].
    destruct (IH (i + 1)%Z (snd (generateId env st))) as (H1 & H2 & H3).
    cbn [generateId snd idCount] in *.
    split; [rewrite H1; lia |]. split; [rewrite H2; reflexivity |].
    intros [| k] n H; cbn [nth_error] in *.
    + replace n with n0 by congruence.
      rewrite Nat.add_0_r, Z.add_0_r. reflexivity.
    + rewrite (H3 k n H). do 4 f_equal.
      * f_equal. lia.
      * lia.
Qed.

Lemma getLearnedChunksIn_nonempty (n : string) (ps : list Pattern)
    (l : list (option string)) :
  getLearnedChunksIn n ps = Some l -> l <> [].
Proof.
  induction ps as [| p ps IH]; simpl; [discriminate |].
  destruct (patternsMatch n (normalized p) && (0 <? List.length (chunks p))%nat)
    eqn:E; [| exact IH].
  intros H. inversion H; subst. apply andb_true_iff in E.
  destruct E as [_ E]. apply Nat.ltb_lt in E.
  destruct (chunks p); [simpl in E; lia | discriminate].
Qed.

(** X15.  The chunks [generateChunks] returns.  There is at least one;
    each is an object that is not completed, the [k]-th with order [k]
    and with the [k]-th identifier drawn by the call, which draws as
    many as there are chunks; and their names are the chunk list of the
    first learned pattern that matches the task name and has chunks,
    or else, when there is none, the names of a template, none of which
    is undefined. *)
Theorem generateChunks_shape :
  forall env taskName st,
    exists names,
      names <> []
      /\ List.length (fst (generateChunks env taskName st))
         = List.length names
      /\ idCount (snd (generateChunks env taskName st))
         = (idCount st + List.length names)%nat
      /\ (forall k n,
             nth_error names k = Some n ->
             nth_error (fst (generateChunks env taskName st)) k
             = Some (chunkAt env (idCount st) k n))
      /\ (getLearnedChunksForTask st (toLowerCase taskName) = Some names
          \/ (getLearnedChunksForTask st (toLowerCase taskName) = None
              /\ Forall (fun n => n <> None) names)).
Proof.
  intros env taskName st. unfold generateChunks. cbv zeta.
  set (templates := match map Some (templateFor taskTypes
                                      (toLowerCase taskName)) with
                    | [] => [Some "Start task"; Some "Main work";
                             Some "Finish up"]
                    | _ :: _ =>
                        map Some (templateFor taskTypes
                                    (toLowerCase taskName))
                    end).
  assert (Hs : templates <> [] /\ Forall (fun n => n <> None) templates).
  { unfold templates.
    destruct (map Some (templateFor taskTypes (toLowerCase taskName)))
      as [| x l] eqn:E.
    - split; [discriminate | repeat constructor; discriminate].
    - split; [discriminate |]. rewrite <- E.
      apply Forall_forall. intros n Hn.
      apply in_map_iff in Hn. destruct Hn as (w & <- & _). discriminate. }
  destruct Hs as [Ht Hs].
  destruct (getLearnedChunksForTask st (toLowerCase taskName))
    as [learned |] eqn:L.
  - exists learned.
    destruct (makeChunks_shape env learned 0%Z st) as (H1 & H2 & H3).
    split; [eapply getLearnedChunksIn_nonempty; exact L |].
    split; [exact H2 |]. split; [exact H1 |].
    split; [| left; reflexivity].
    intros k n Hk. rewrite (H3 k n Hk). reflexivity.
  - exists templates.
    destruct (makeChunks_shape env templates 0%Z st) as (H1 & H2 & H3).
    split; [exact Ht |]. split; [exact H2 |]. split; [exact H1 |].
    split; [| right; split; [reflexivity | exact Hs]].
    intros k n Hk. rewrite (H3 k n Hk). reflexivity.
Qed.

(** ** A remote call that fails *)

Lemma makeChunks_names (env : Env) (names : list (option string)) :
  forall i st, chunkNames (fst (makeChunks env i names st)) = Ok names.
Proof.
  induction names as [| n names IH]; intros i st; [reflexivity |].
  rewrite makeChunks_cons. cbn [fst chunkNames chunkNameOf chunkName].
  rewrite IH. reflexivity.
Qed.

(** The chunks of a rule-based parse are chunk objects: their names can
    be read. *)
Lemma ruleBasedParse_names (env : Env) (text : string) (st : State)
    (r : Task) (st1 : State) :
  ruleBasedParse env text st = (Ok r, st1) ->
  exists names, chunkNames (taskChunks r) = Ok names.
Proof.
  unfold ruleBasedParse, bind, reading, lift, total, update, ret.
  destruct (extractDeadline env (toLowerCase text)) as [due | e];
    [| discriminate].
  pose proof (fun names i s => makeChunks_names env names i s) as N.
  unfold generateChunks.
  match goal with
  | |- context [makeChunks env 0 ?l st] =>
      specialize (N l 0%Z st); destruct (makeChunks env 0 l st) as [cs s1];
      exists l
  end.
  cbn [fst] in N.
  destruct (String.eqb (extractProject st text) "Inbox");
    rewrite formatTaskResult_draft in H; inversion H; subst; exact N.
Qed.

Lemma parseWithClaude_offline (env : Env) (input : string) (coach : bool)
    (st : State) :
  remote env input coach = None ->
  parseWithClaude env input coach st
  = ruleBasedParse env input (emit (EvFetch input coach) st).
Proof.
  intros Hr. unfold parseWithClaude, bind, update. rewrite Hr. reflexivity.
Qed.



(** ** Deadline rules in general *)

(** [setDate] on a date [j] days after [nowT], whatever its month. *)
Lemma setDate_shifted (nowT j dt : Z) :
  setDate (Some (nowT + j * msPerDay)) dt
  = TimeClip (nowT + (j + dt - DateFromDay (Day nowT + j)) * msPerDay).
Proof.
  unfold setDate, getFullYear, getMonth.
  rewrite Day_shift, TimeWithinDay_shift.
  replace dt with (DateFromDay (Day nowT + j)
                   + (dt - DateFromDay (Day nowT + j)))%Z at 1 by lia.
  rewrite MakeDay_DateFromDay. f_equal. unfold MakeDate.
  pose proof (time_split nowT) as T.
  set (d := Day nowT) in *. set (w := TimeWithinDay nowT) in *.
  set (x := DateFromDay (d + j)). lia.
Qed.

(** The deadline the rule list arrives at, on every day of the month. *)
Lemma ruleDeadline_value (nowT : Z) (text : string) :
  clockInRange nowT ->
  ruleDeadline nowT text
  = match firstRule deadlinePatterns text with
    | Some (dp, m) =>
        TimeClip (nowT + (ruleDays nowT dp m
                          + (getDate nowT + 1 - getDate (nowT + msPerDay)))
                         * msPerDay)
    | None => Some (nowT + msPerDay)%Z
    end.
Proof.
  intros Hc. unfold ruleDeadline.
  replace (Some nowT) with (Some (nowT + 0 * msPerDay)%Z) by (f_equal; lia).
  rewrite (setDate_in_month nowT 0 1) by (rewrite Z.add_0_r; reflexivity).
  rewrite TimeClip_in_range by (assumption || lia).
  destruct (firstRule deadlinePatterns text) as [[dp m] |];
    [| f_equal; lia].
  rewrite setDate_shifted. unfold getDate.
  replace (nowT + msPerDay)%Z with (nowT + 1 * msPerDay)%Z by lia.
  rewrite Day_shift. f_equal. lia.
Qed.

Lemma tomorrow_date (nowT : Z) :
  tomorrowSameMonth nowT -> getDate (nowT + msPerDay) = (getDate nowT + 1)%Z.
Proof.
  intros [Hy Hm]. unfold getDate.
  replace (nowT + msPerDay)%Z with (nowT + 1 * msPerDay)%Z by lia.
  rewrite Day_shift. unfold DateFromDay, DayWithinYear. rewrite Hy, Hm. lia.
Qed.







(** ** Rule order *)

Lemma matchAt_word (w : string) (pv : option ascii) (t : string) :
  matchAt false (word w) pv t
  = if xorb (wordBeforeO pv) (wordHead t)
       && startsWith w t
       && xorb (wordBeforeO (lastOr pv w))
               (wordHead (skipStr (String.length w) t))
    then Some (String.length w, []) else None.
Proof.
  unfold matchAt, word. cbn [run].
  unfold wordBefore, wordAfter. cbn [prev rest].
  change (match pv with Some c => isWord c | None => false end)
    with (wordBeforeO pv).
  change (match t with String c _ => isWord c | EmptyString => false end)
    with (wordHead t).
  destruct (xorb (wordBeforeO pv) (wordHead t)); [| reflexivity].
  rewrite run_Str. cbn [rest andb].
  destruct (startsWith w t) eqn:Hs; [| reflexivity].
  unfold stepOver. cbn [prev rest caps].
  change (match lastOr pv w with Some c => isWord c | None => false end)
    with (wordBeforeO (lastOr pv w)).
  change (match skipStr (String.length w) t with
          | String c _ => isWord c | EmptyString => false end)
    with (wordHead (skipStr (String.length w) t)).
  destruct (xorb _ _); [| reflexivity].
  cbn [rest caps]. rewrite (startsWith_length w t Hs). reflexivity.
Qed.

(** A pattern that matches wherever another one does is found by [exec]
    whenever the other is. *)
Lemma exec_implied (rA rB : regex) :
  (forall pv t j, matchAt false rA pv t <> None ->
                  execFrom false rB j pv t <> None) ->
  forall s i j pv,
    execFrom false rA i pv s <> None -> execFrom false rB j pv s <> None.
Proof.
  intros Hab. induction s as [| c s IH]; intros i j pv H.
  - cbn [execFrom] in H. apply Hab.
    destruct (matchAt false rA pv "") as [[n cs] |];
      [discriminate | exfalso; apply H; reflexivity].
  - destruct (matchAt false rA pv (String c s)) as [[n cs] |] eqn:E.
    + apply Hab. rewrite E. discriminate.
    + cbn [execFrom] in H. rewrite E in H.
      cbn [execFrom].
      destruct (matchAt false rB pv (String c s)) as [[n cs] |];
        [discriminate |].
      apply (IH (S i) (S j) (Some c)). exact H.
Qed.

(** [exec] finds a match that starts after the literal [a]. *)
Lemma execFrom_after (r : regex) (a : string) :
  forall t j pv,
    startsWith a t = true ->
    matchAt false r (lastOr pv a) (skipStr (String.length a) t) <> None ->
    execFrom false r j pv t <> None.
Proof.
  induction a as [| c a IH]; intros t j pv Hs Hm.
  - cbn [lastOr String.length skipStr] in Hm.
    destruct t as [| x t]; cbn [execFrom];
      destruct (matchAt false r pv _) as [[n cs] |];
      try discriminate; contradiction.
  - destruct t as [| x t]; [discriminate |].
    cbn [startsWith] in Hs. apply andb_true_iff in Hs. destruct Hs as [Hc Hs].
    apply Ascii.eqb_eq in Hc. subst x.
    cbn [execFrom].
    destruct (matchAt false r pv (String c t)) as [[n cs] |];
      [discriminate |].
    apply IH; [exact Hs | exact Hm].
Qed.

Lemma startsWith_app (a b t : string) :
  startsWith (a ++ b) t
  = startsWith a t && startsWith b (skipStr (String.length a) t).
Proof.
  revert t. induction a as [| c a IH]; intros t; [reflexivity |].
  destruct t as [| x t]; [reflexivity |].
  cbn [append startsWith String.length skipStr].
  rewrite IH. apply andb_assoc.
Qed.

Lemma skipStr_app (a b t : string) :
  skipStr (String.length (a ++ b)) t
  = skipStr (String.length b) (skipStr (String.length a) t).
Proof.
  revert t. induction a as [| c a IH]; intros t; [reflexivity |].
  destruct t as [| x t]; cbn [append String.length skipStr].
  - destruct (String.length b); reflexivity.
  - apply IH.
Qed.

Lemma lastOr_app (pv : option ascii) (a b : string) :
  lastOr pv (a ++ b) = lastOr (lastOr pv a) b.
Proof.
  revert pv. induction a as [| c a IH]; intros pv; [reflexivity |].
  cbn [append lastOr]. apply IH.
Qed.

(** Wherever [b] matches as a whole phrase behind the words [a], with
    [a] ending in a character that is not a word character, it matches
    as a whole phrase on its own. *)
Lemma word_suffix (a b : string) (sep : ascii) :
  (forall pv, lastOr pv a = Some sep) ->
  isWord sep = false ->
  wordHead b = true ->
  forall pv t j,
    matchAt false (word (a ++ b)) pv t <> None ->
    execFrom false (word b) j pv t <> None.
Proof.
  intros Hsep Hw Hb pv t j H.
  rewrite matchAt_word in H.
  destruct (xorb (wordBeforeO pv) (wordHead t)); [| contradiction].
  rewrite startsWith_app in H.
  destruct (startsWith a t) eqn:Ha; [| contradiction].
  destruct (startsWith b (skipStr (String.length a) t)) eqn:Hbt;
    [| contradiction].
  cbn [andb] in H.
  apply (execFrom_after _ a); [exact Ha |].
  rewrite matchAt_word, Hbt, Hsep. cbn [wordBeforeO]. rewrite Hw.
  assert (Hh : wordHead (skipStr (String.length a) t) = true).
  { destruct b as [| c b]; [discriminate |].
    destruct (skipStr (String.length a) t) as [| x u]; [discriminate |].
    cbn [startsWith] in Hbt. apply andb_true_iff in Hbt.
    destruct Hbt as [Hc _]. apply Ascii.eqb_eq in Hc. subst x. exact Hb. }
  rewrite Hh. cbn [xorb andb].
  rewrite lastOr_app, Hsep, skipStr_app in H.
  destruct (xorb _ _); [discriminate | contradiction].
Qed.

Lemma tomorrow_implied (text : string) :
  exec false (word "day after tomorrow") text <> None ->
  exec false (word "tomorrow") text <> None.
Proof.
  unfold exec.
  apply (exec_implied (word "day after tomorrow") (word "tomorrow")).
  apply (word_suffix "day after " "tomorrow" " "%char); reflexivity.
Qed.

(** X14.  The entry [day after tomorrow] of the rule list is never
    reached.  Every text in which it matches also matches the entry
    [tomorrow], which comes before it, so the first rule that matches
    is the one of [today] or the one of [tomorrow]; and for no text is
    the first matching rule the one that adds two days. *)
Theorem day_after_tomorrow_is_tomorrow :
  (forall text,
      exec false (word "day after tomorrow") text <> None ->
      exists dp m,
        firstRule deadlinePatterns text = Some (dp, m)
        /\ (dp = Days 0 \/ dp = Days 1))
  /\ (forall text dp m,
         firstRule deadlinePatterns text = Some (dp, m) -> dp <> Days 2).
Proof.
  split.
  - intros text H. apply tomorrow_implied in H.
    unfold deadlinePatterns. cbn [firstRule].
    destruct (exec false (word "today") text) as [m |].
    + exists (Days 0), m. split; [reflexivity | left; reflexivity].
    + destruct (exec false (word "tomorrow") text) as [m |];
        [| contradiction].
      exists (Days 1), m. split; [reflexivity | right; reflexivity].
  - intros text dp m. pose proof (tomorrow_implied text) as T.
    unfold deadlinePatterns. cbn [firstRule].
    destruct (exec false (word "today") text);
      [intros H; inversion H; discriminate |].
    destruct (exec false (word "tomorrow") text);
      [intros H; inversion H; discriminate |].
    destruct (exec false (word "day after tomorrow") text);
      [exfalso; apply T; [discriminate | reflexivity] |].
    intros H.
    repeat match type of H with
           | match exec false ?r text with _ => _ end = _ =>
               destruct (exec false r text);
                 [inversion H; discriminate |]
           end.
    discriminate H.
Qed.

Lemma day_after_tomorrow_is_tomorrow_witness :
  exists dp m,
    firstRule deadlinePatterns "ship it the day after tomorrow" = Some (dp, m)
    /\ (dp = Days 0 \/ dp = Days 1).
Proof.
  apply (proj1 day_after_tomorrow_is_tomorrow
           "ship it the day after tomorrow").
  vm_compute. discriminate.
Defined.

(** ** Questions *)

Lemma mapStr_app (f : ascii -> ascii) (a b : string) :
  mapStr f (a ++ b) = (mapStr f a ++ mapStr f b)%string.
Proof.
  induction a as [| c a IH]; [reflexivity |].
  cbn [append mapStr]. rewrite IH. reflexivity.
Qed.

Lemma lowerChar_space (c : ascii) : isSpace c = true -> lowerChar c = c.
Proof.
  intros H. unfold lowerChar.
  destruct (isUpper c) eqn:U; [| reflexivity].
  exfalso. unfold isSpace, isUpper, between in *.
  apply andb_true_iff in U. destruct U as [U1 U2].
  apply Nat.leb_le in U1. apply Nat.leb_le in U2.
  repeat (apply orb_true_iff in H; destruct H as [H | H]).
  - apply andb_true_iff in H. destruct H as [_ H].
    apply Nat.leb_le in H. lia.
  - apply Nat.eqb_eq in H. lia.
  - apply Nat.eqb_eq in H. lia.
Qed.

Lemma allSpace_lower (w : string) :
  allSpace w = true -> toLowerCase w = w.
Proof.
  induction w as [| c w IH]; [reflexivity |].
  cbn [allSpace]. intros H. apply andb_true_iff in H. destruct H as [Hc Hw].
  unfold toLowerCase in *. cbn [mapStr].
  rewrite (lowerChar_space c Hc), (IH Hw). reflexivity.
Qed.

Lemma startsWith_self (a t : string) : startsWith a (a ++ t) = true.
Proof.
  induction a as [| c a IH]; [reflexivity |].
  cbn [append startsWith]. rewrite Ascii.eqb_refl. exact IH.
Qed.

Lemma skipStr_self (a t : string) : skipStr (String.length a) (a ++ t) = t.
Proof. induction a as [| c a IH]; [reflexivity | exact IH]. Qed.

(** [\s*$] on a text that is white space to its end. *)
Lemma spaces_to_end (w : string) :
  allSpace w = true ->
  forall cs pv,
    many false true isSpace 0 None cs pv w
      (fun st => run false Eos st Some) <> None.
Proof.
  induction w as [| c w IH]; intros H cs pv.
  - cbn. discriminate.
  - cbn [allSpace] in H. apply andb_true_iff in H. destruct H as [Hc Hw].
    cbn [many Nat.eqb Nat.pred option_map]. unfold clsTest. rewrite Hc.
    specialize (IH Hw cs (Some c)).
    destruct (many false true isSpace 0 None cs (Some c) w _);
      [discriminate | contradiction].
Qed.

Lemma question_matches (s w : string) :
  allSpace w = true ->
  test false (Seq (Chr "?") (Seq (star isSpace) Eos))
       (toLowerCase (s ++ "?" ++ w)) = true.
Proof.
  intros Hw. unfold toLowerCase. rewrite !mapStr_app.
  fold toLowerCase. rewrite (allSpace_lower w Hw).
  change (toLowerCase "?") with "?".
  assert (H : execFrom false (Seq (Chr "?") (Seq (star isSpace) Eos)) 0 None
                (toLowerCase s ++ "?" ++ w) <> None).
  { apply (execFrom_after _ (toLowerCase s)); [apply startsWith_self |].
    rewrite skipStr_self. unfold matchAt. cbn [run rest append].
    unfold chrEq. rewrite Ascii.eqb_refl. unfold advance, star.
    cbn [prev rest caps].
    pose proof (spaces_to_end w Hw [] (Some "?"%char)) as M.
    match goal with
    | |- match ?x with _ => _ end <> None => destruct x eqn:E
    end; [discriminate | exfalso; apply M; exact E]. }
  unfold test, exec.
  destruct (execFrom false _ 0 None _); [reflexivity | contradiction].
Qed.

(** X16.  A text that ends in a question mark, white space after it or
    not, is ambiguous; so the strategy for it is never
    [short_simple_input] and never [uncertain], whatever the
    configuration, the state and the options. *)
Theorem question_is_ambiguous :
  forall s w,
    allSpace w = true ->
    isAmbiguous (s ++ "?" ++ w) = true
    /\ forall cfg st v force coach,
         reason (decideParsingStrategy cfg st (s ++ "?" ++ w) v force coach)
         <> "short_simple_input"
         /\ reason (decideParsingStrategy cfg st (s ++ "?" ++ w) v force
                      coach)
            <> "uncertain".
Proof.
  intros s w Hw.
  assert (Ha : isAmbiguous (s ++ "?" ++ w) = true).
  { unfold isAmbiguous, vaguePatterns. cbn [existsb].
    rewrite (question_matches s w Hw). rewrite !orb_true_r. reflexivity. }
  split; [exact Ha |].
  intros cfg st v force coach. unfold decideParsingStrategy. rewrite Ha.
  destruct coach; [split; discriminate |].
  destruct force; [split; discriminate |].
  destruct (negb _); [split; discriminate |].
  destruct (findMatchingPattern st (s ++ "?" ++ w)) as [[p c] |].
  - destruct (Qle_bool (minConfidenceForLocal cfg) c); [split; discriminate |].
    destruct (Qle_bool _ _); [split; discriminate |].
    destruct (detectsMultipleTasks _); split; discriminate.
  - destruct (Qle_bool _ _); [split; discriminate |].
    destruct (detectsMultipleTasks _); split; discriminate.
Qed.

Lemma question_is_ambiguous_witness :
  isAmbiguous "what next? " = true
  /\ reason (decideParsingStrategy defaultConfig freshState "what next? "
               0 false false) = "ambiguous".
Proof.
  destruct (question_is_ambiguous "what next" " " eq_refl) as [H1 H2].
  split; [exact H1 | vm_compute; reflexivity].
Defined.

(** ** The shape of a key *)

Lemma space_is_space (c : ascii) : Ascii.eqb c " " = true -> isSpace c = true.
Proof. intros H. apply Ascii.eqb_eq in H. subst c. reflexivity. Qed.

Lemma splitSpace_tidy (s : string) :
  spacedFrom false s = true -> trimEnd s = s ->
  exists w ws,
    splitSpace s = w :: ws
    /\ Forall (fun v => v <> "") ws
    /\ (w = "" -> s = "" \/ ~ noLead s).
Proof.
  induction s as [| c s IH]; intros Hs Ht.
  - exists "", []. repeat split; [constructor | left; reflexivity].
  - rewrite trimEnd_cons in Ht.
    destruct (allSpace (String c s)) eqn:Ha; [discriminate |].
    injection Ht as Ht.
    cbn [spacedFrom] in Hs. cbn [splitSpace].
    destruct (isSpace c) eqn:Hc.
    + cbn [negb andb] in Hs. apply andb_true_iff in Hs.
      destruct Hs as [Hsp Hs]. rewrite Hsp.
      destruct s as [| d s'].
      * cbn [allSpace] in Ha. rewrite Hc in Ha. discriminate.
      * assert (Hd : isSpace d = false).
        { cbn [spacedFrom] in Hs. destruct (isSpace d); [discriminate |].
          reflexivity. }
        assert (Hs' : spacedFrom false (String d s') = true).
        { cbn [spacedFrom] in *. rewrite Hd in *. exact Hs. }
        destruct (IH Hs' Ht) as (w & ws & E & Hws & Hw).
        exists "", (w :: ws). rewrite E. split; [reflexivity |].
        split.
        -- constructor; [| exact Hws]. intros Hw0.
           destruct (Hw Hw0) as [H0 | H0]; [discriminate |].
           apply H0. exact Hd.
        -- intros _. right. intros Hn. cbn [noLead] in Hn. congruence.
    + destruct (Ascii.eqb c " ") eqn:Hsp;
        [rewrite (space_is_space c Hsp) in Hc; discriminate |].
      destruct (IH Hs Ht) as (w & ws & E & Hws & _).
      rewrite E. exists (String c w), ws.
      split; [reflexivity |]. split; [exact Hws | discriminate].
Qed.

(** X17.  The key of every text is trimmed: it starts and ends with no
    white space, and its only white space is single spaces between
    words.  So the words [patternsMatch] splits a key into are never
    empty, unless the key is the empty text. *)
Theorem normalized_key_is_tidy :
  forall x,
    trim (normalizeForMatching x) = normalizeForMatching x
    /\ spacedFrom false (normalizeForMatching x) = true
    /\ noLead (normalizeForMatching x)
    /\ (normalizeForMatching x <> "" ->
        Forall (fun w => w <> "") (splitSpace (normalizeForMatching x))).
Proof.
  intros x. rewrite normalize_stages.
  set (y := collapseMap false _).
  assert (Hs : spacedFrom false (trim y) = true).
  { unfold trim. apply trimEnd_spaced.
    apply (trimStart_spaced y false). apply collapseMap_spaced. }
  assert (Hn : noLead (trim y))
    by (unfold trim; apply trimEnd_noLead, trimStart_noLead).
  split; [apply trim_idem |]. split; [exact Hs |]. split; [exact Hn |].
  intros Hne.
  destruct (splitSpace_tidy (trim y) Hs) as (w & ws & E & Hws & Hw).
  { unfold trim. apply trimEnd_idem. }
  rewrite E. constructor; [| exact Hws].
  intros Hw0. destruct (Hw Hw0) as [H0 | H0]; [contradiction |].
  apply H0. exact Hn.
Qed.

(** ** The confidence estimate *)

(** X18.  The confidence estimate lies strictly between 0 and 1 for every
    state and input: the bounds of its final clamp are never reached. *)
Theorem local_confidence_range :
  forall st input,
    (0 < estimateLocalConfidence st input)%Q
    /\ (estimateLocalConfidence st input < 1)%Q.
Proof.
  intros st input. unfold estimateLocalConfidence, clearPatterns.
  cbn [fold_left].
  repeat match goal with
         | |- context [test true ?r (toLowerCase input)] =>
             destruct (test true r (toLowerCase input))
         end;
    destruct (findKnownProject st (toLowerCase input)) as [[| c s] |];
    destruct (includes " and " (toLowerCase input)
              && includes " then " (toLowerCase input));
    destruct (20 <? List.length (splitSpace (toLowerCase input)))%nat;
    destruct (3 <? countAll false (Chr ",") (toLowerCase input))%nat;
    vm_compute; split; reflexivity.
Qed.

(** ** The rate limiter of the request handler *)

Module RateLimiter.
Import ParseTaskApi.

Lemma mapGet_set (k : string) (v : UserLimit) (m : RateLimitMap) :
  mapGet k (mapSet k v m) = Some v.
Proof.
  induction m as [| [k' v'] m IH]; simpl.
  - rewrite String.eqb_refl. reflexivity.
  - destruct (String.eqb k k') eqn:E; simpl.
    + rewrite String.eqb_refl. reflexivity.
    + rewrite E. exact IH.
Qed.

Lemma mapGet_set_other (k k' : string) (v : UserLimit) (m : RateLimitMap) :
  k' <> k -> mapGet k' (mapSet k v m) = mapGet k' m.
Proof.
  intros Hne. induction m as [| [k0 v0] m IH]; simpl.
  - destruct (String.eqb_spec k' k); [contradiction | reflexivity].
  - destruct (String.eqb_spec k k0) as [-> | Hk]; simpl.
    + destruct (String.eqb_spec k' k0); [contradiction | reflexivity].
    + destruct (String.eqb k' k0); [reflexivity | exact IH].
Qed.

(** Inside a window that has seen [c] requests: the next requests go
    through until the count is 30. *)
Lemma checksAt_window (u : string) (t0 : Z) (ts : list Z) :
  Forall (fun t => (t - t0 <= RATE_LIMIT_WINDOW)%Z) ts ->
  forall m c,
    mapGet u m = Some {| count := c; timestamp := t0 |} ->
    (forall k r,
        nth_error (fst (checksAt ts u m)) k = Some r ->
        r = if (c + Z.of_nat k <? RATE_LIMIT)%Z
            then {| allowed := true;
                    remaining := RATE_LIMIT - (c + Z.of_nat k + 1) |}
            else {| allowed := false; remaining := 0 |})
    /\ mapGet u (snd (checksAt ts u m))
       = Some {| count := if (c <? RATE_LIMIT)%Z
                          then Z.min RATE_LIMIT (c + Z.of_nat (List.length ts))
                          else c;
                 timestamp := t0 |}.
Proof.
  induction 1 as [| t ts Ht _ IH]; intros m c Hm.
  - cbn [checksAt fst snd List.length]. split.
    + intros [| k] r H; discriminate.
    + rewrite Hm. do 2 f_equal. unfold RATE_LIMIT.
      destruct (c <? 30)%Z eqn:E; [apply Z.ltb_lt in E; lia | reflexivity].
  - assert (Hc : checkRateLimit t u m
                 = if (30 <=? c)%Z
                   then ({| allowed := false; remaining := 0 |}, m)
                   else ({| allowed := true; remaining := 30 - (c + 1) |},
                         mapSet u {| count := c + 1; timestamp := t0 |} m)).
    { unfold checkRateLimit. rewrite Hm. cbn [timestamp count].
      destruct (t - t0 >? RATE_LIMIT_WINDOW)%Z eqn:G;
        [apply Z.gtb_lt in G; lia | clear G].
      unfold RATE_LIMIT. rewrite Z.geb_leb. reflexivity. }
    cbn [checksAt]. rewrite Hc. clear Hc. unfold RATE_LIMIT in *.
    destruct (30 <=? c)%Z eqn:E; [apply Z.leb_le in E | apply Z.leb_gt in E].
    + specialize (IH m c Hm). destruct (checksAt ts u m) as [rs m2].
      cbn [fst snd] in *. destruct IH as [IH1 IH2].
      replace (c <? 30)%Z with false in * by (symmetry; apply Z.ltb_ge; lia).
      split; [| exact IH2].
      intros [| k] r H.
      * cbn [nth_error] in H.
        replace r with {| allowed := false; remaining := 0 |} by congruence.
        replace (c + Z.of_nat 0 <? 30)%Z with false
          by (symmetry; apply Z.ltb_ge; lia). reflexivity.
      * cbn [nth_error] in H. rewrite (IH1 k r H).
        replace (c + Z.of_nat k <? 30)%Z with false
          by (symmetry; apply Z.ltb_ge; lia).
        replace (c + Z.of_nat (S k) <? 30)%Z with false
          by (symmetry; apply Z.ltb_ge; lia). reflexivity.
    + specialize (IH (mapSet u {| count := c + 1; timestamp := t0 |} m)
                     (c + 1)%Z (mapGet_set _ _ _)).
      destruct (checksAt ts u _) as [rs m2].
      cbn [fst snd] in *. destruct IH as [IH1 IH2].
      replace (c <? 30)%Z with true by (symmetry; apply Z.ltb_lt; lia).
      split.
      * intros [| k] r H.
        -- cbn [nth_error] in H.
           replace r with {| allowed := true; remaining := 30 - (c + 1) |}
             by congruence.
           replace (c + Z.of_nat 0 <? 30)%Z with true
             by (symmetry; apply Z.ltb_lt; lia).
           cbn [Z.of_nat]. f_equal. lia.
        -- cbn [nth_error] in H. rewrite (IH1 k r H).
           replace (c + 1 + Z.of_nat k)%Z with (c + Z.of_nat (S k))%Z by lia.
           reflexivity.
      * rewrite IH2. cbn [List.length].
        destruct (c + 1 <? 30)%Z eqn:E2;
          [apply Z.ltb_lt in E2 | apply Z.ltb_ge in E2];
          do 2 f_equal; lia.
Qed.

Lemma check_fresh (t : Z) (u : string) (m : RateLimitMap) :
  windowOver t u m ->
  checkRateLimit t u m
  = ({| allowed := true; remaining := RATE_LIMIT - 1 |},
     mapSet u {| count := 1; timestamp := t |} m).
Proof.
  unfold windowOver, checkRateLimit. destruct (mapGet u m) as [e |];
    [| reflexivity].
  intros H. apply Z.gt_lt, Z.gtb_lt in H. rewrite H. reflexivity.
Qed.

(** X19.  Thirty requests per window.  Let a user have no counter, or a
    counter whose window is over, at the time of a first request.  Of
    that request and the next ones, each at most 24 hours after the
    first, the first 30 are allowed, the [k]-th (from 0) with
    [29 - k] remaining, and every later one is refused with 0
    remaining; the counter holds their number, at most 30, and the time
    of the first request, which no later request moves. *)
Theorem thirty_per_window :
  forall u m t0 ts,
    windowOver t0 u m ->
    Forall (fun t => (t - t0 <= RATE_LIMIT_WINDOW)%Z) ts ->
    (forall k r,
        nth_error (fst (checksAt (t0 :: ts) u m)) k = Some r ->
        r = if (k <? 30)%nat
            then {| allowed := true; remaining := 29 - Z.of_nat k |}
            else {| allowed := false; remaining := 0 |})
    /\ mapGet u (snd (checksAt (t0 :: ts) u m))
       = Some {| count := Z.min 30 (1 + Z.of_nat (List.length ts));
                 timestamp := t0 |}.
Proof.
  intros u m t0 ts Hw Hts. cbn [checksAt]. rewrite (check_fresh _ _ _ Hw).
  destruct (checksAt_window u t0 ts Hts
              (mapSet u {| count := 1; timestamp := t0 |} m) 1%Z
              (mapGet_set _ _ _)) as [H1 H2].
  destruct (checksAt ts u _) as [rs m2]. cbn [fst snd] in *.
  unfold RATE_LIMIT in *. split; [| exact H2].
  intros [| k] r H; cbn [nth_error] in H.
  - replace r with {| allowed := true; remaining := 30 - 1 |} by congruence.
    reflexivity.
  - rewrite (H1 k r H).
    destruct (1 + Z.of_nat k <? 30)%Z eqn:E;
      [apply Z.ltb_lt in E | apply Z.ltb_ge in E].
    + replace (S k <? 30)%nat with true
        by (symmetry; apply Nat.ltb_lt; lia).
      f_equal. lia.
    + replace (S k <? 30)%nat with false
        by (symmetry; apply Nat.ltb_ge; lia).
      reflexivity.
Qed.

Lemma thirty_per_window_witness :
  map allowed (fst (checksAt (repeat 0%Z 32) "ada" []))
  = repeat true 30 ++ [false; false]
  /\ mapGet "ada" (snd (checksAt (repeat 0%Z 32) "ada" []))
     = Some {| count := 30; timestamp := 0 |}.
Proof.
  destruct (thirty_per_window "ada" [] 0%Z (repeat 0%Z 31)) as [H1 H2].
  - exact I.
  - apply Forall_forall. intros t Ht. apply repeat_spec in Ht. subst t.
    vm_compute. discriminate.
  - split; [vm_compute; reflexivity | exact H2].
Defined.

(** X20.  A rate-limit check touches the counter of its user only, and a
    refused check touches nothing: it reports 0 remaining, and the user
    has a counter of 30 or more whose window is not over. *)
Theorem checkRateLimit_frame :
  forall t u m,
    (forall u', u' <> u ->
                mapGet u' (snd (checkRateLimit t u m)) = mapGet u' m)
    /\ (allowed (fst (checkRateLimit t u m)) = false ->
        snd (checkRateLimit t u m) = m
        /\ remaining (fst (checkRateLimit t u m)) = 0%Z
        /\ exists e, mapGet u m = Some e
                     /\ (RATE_LIMIT <= count e)%Z
                     /\ (t - timestamp e <= RATE_LIMIT_WINDOW)%Z).
Proof.
  intros t u m. unfold checkRateLimit.
  destruct (mapGet u m) as [e |] eqn:Hm.
  - destruct (t - timestamp e >? RATE_LIMIT_WINDOW)%Z eqn:G.
    + cbn [fst snd allowed remaining]. split.
      * intros u' Hne. apply mapGet_set_other. exact Hne.
      * discriminate.
    + destruct (count e >=? RATE_LIMIT)%Z eqn:C;
        cbn [fst snd allowed remaining]; split.
      * reflexivity.
      * intros _. split; [reflexivity |]. split; [reflexivity |].
        exists e. split; [reflexivity |]. rewrite Z.geb_leb in C.
        apply Z.leb_le in C. split; [exact C |].
        destruct (Z.gtb_spec (t - timestamp e) RATE_LIMIT_WINDOW);
          [discriminate | lia].
      * intros u' Hne. apply mapGet_set_other. exact Hne.
      * discriminate.
  - cbn [fst snd allowed remaining]. split.
    + intros u' Hne. apply mapGet_set_other. exact Hne.
    + discriminate.
Qed.

Lemma checkRateLimit_frame_refused (t : Z) (u : string) (m : RateLimitMap) :
  allowed (fst (checkRateLimit t u m)) = false ->
  snd (checkRateLimit t u m) = m.
Proof.
  unfold checkRateLimit. destruct (mapGet u m) as [e |]; [| discriminate].
  destruct (t - timestamp e >? RATE_LIMIT_WINDOW)%Z; [discriminate |].
  destruct (count e >=? RATE_LIMIT)%Z; [reflexivity | discriminate].
Qed.

(** X21.  The request handler meters before it calls the model provider.
    It calls the provider at most once, and only for a POST whose text
    is not blank and whose user has a request left; the request is
    counted before the call, so a request on which the provider fails
    (status 500) has used up one of the user's requests.  Every other
    request leaves the rate-limit map as it was, calls no provider and,
    unless it is an OPTIONS request, gets a status that is not 200. *)
Theorem handler_meters_before_provider :
  forall nowMs provider req m,
    let out := handler nowMs provider req m in
    (snd out = [] /\ snd (fst out) = m
     /\ (method req = "OPTIONS" \/ status (fst (fst out)) <> 200%Z))
    \/ (exists b t,
           method req = "POST"
           /\ body req = Some b /\ text b = Some t
           /\ allSpace t = false
           /\ allowed (fst (checkRateLimit nowMs (userOf b) m)) = true
           /\ snd (fst out) = snd (checkRateLimit nowMs (userOf b) m)
           /\ snd out = [t]
           /\ match provider t with
              | Parsed task =>
                  fst (fst out)
                  = {| status := 200;
                       payload :=
                         TaskBody task
                           (remaining
                              (fst (checkRateLimit nowMs (userOf b) m))) |}
              | _ => status (fst (fst out)) = 500%Z
              end).
Proof.
  intros nowMs provider req m out. unfold out, handler. clear out.
  destruct (String.eqb_spec (method req) "OPTIONS") as [Ho | Ho].
  - left. split; [reflexivity |]. split; [reflexivity | left; exact Ho].
  - destruct (String.eqb_spec (method req) "POST") as [Hp | Hp];
      cbn [negb].
    2:{ left. repeat split; right; discriminate. }
    destruct (body req) as [b |];
      [| left; repeat split; right; discriminate].
    destruct (text b) as [t |] eqn:Ht;
      [| left; repeat split; right; discriminate].
    destruct (String.eqb t "" || (String.length (trim t) =? 0)%nat) eqn:Hb;
      [left; repeat split; right; discriminate |].
    fold (userOf b).
    destruct (checkRateLimit nowMs (userOf b) m) as [rl m'] eqn:Hc.
    destruct (allowed rl) eqn:Ha; cbn [negb].
    2:{ left. cbn [fst snd status]. split; [reflexivity |].
        split; [| right; discriminate].
        pose proof (checkRateLimit_frame_refused nowMs (userOf b) m) as F.
        rewrite Hc in F. apply F. exact Ha. }
    right. exists b, t. rewrite Hc. cbn [fst snd].
    split; [exact Hp |]. split; [reflexivity |]. split; [exact Ht |].
    split.
    { apply orb_false_iff in Hb. destruct Hb as [_ Hb].
      destruct (allSpace t) eqn:Hs; [| reflexivity].
      apply trim_blank in Hs. rewrite Hs in Hb. discriminate. }
    split; [exact Ha |].
    destruct (provider t); cbn [fst snd status]; repeat split; reflexivity.
Qed.

End RateLimiter.
